(** * book-splitter: chapter extraction, range resolution and export planning

    A shallow embedding of the TypeScript sources
      - [utils/pdfProcessor.ts]  (outline parsing, [calculateEndPages]),
      - [utils/epubProcessor.ts] (navigation parsing, content loading),
      - [utils/filenameUtils.ts] (file names),
      - [components/ChapterList.tsx], [App.tsx] (selection and export planning),
    followed by the properties established about them.

    Conventions.
      - A JavaScript [number] that holds a page number is an integer ([Z]);
        the only non-integer value the planner can produce is [Infinity]
        (from [ch.startPage || Infinity]), see [App.number].
      - A JavaScript string is a [string] holding the UTF-8 bytes of its
        text (a lone surrogate as the three bytes of its code point).  A
        function that classes or counts characters ([trim], [slice]) reads
        the bytes as characters and counts UTF-16 code units; the others
        only look for ASCII characters, which the encoding keeps apart.
      - [Set<string>] and [Map<string,string>] keep insertion order in
        JavaScript; they are lists here, queried by [has] / [get] only.
      - [Array.prototype.sort] is stable (ECMAScript 2019); for a consistent
        comparator its result is the one computed by stable insertion.
      - A thrown [Error(msg)] is [inl msg]; a normal return is [inr v].
      - Progress callbacks, logging and timers do not influence any value
        modelled here and are left out. *)

From Stdlib Require Import List ZArith String Ascii Bool Arith Lia
  Permutation Sorted DecimalString.
Import ListNotations.

#[local] Set Warnings "-register-all".

Local Open Scope string_scope.
Local Open Scope Z_scope.

(* ================================================================== *)
(** * JavaScript built-ins used by the sources *)
(* ================================================================== *)

Module Js.

(** [String(n)] for a non-negative integer. *)
Definition string_of_nat (n : nat) : string :=
  NilZero.string_of_uint (Nat.to_uint n).

(** [Set<string>]: [has] and [add]. *)
Definition StrSet := list string.

Definition has (s : StrSet) (x : string) : bool :=
  existsb (String.eqb x) s.

Definition add (s : StrSet) (x : string) : StrSet :=
  if has s x then s else (s ++ [x])%list.

(** A value is truthy when it is defined, and for a number non-zero, for
    a string non-empty. *)
Definition truthyStr (s : option string) : bool :=
  match s with
  | Some EmptyString | None => false
  | Some _ => true
  end.

(** [arr[i]] *)
Definition at_ {A : Type} (l : list A) (i : nat) : option A := nth_error l i.

Definition includes (s : string) (c : ascii) : bool :=
  existsb (Ascii.eqb c) (list_ascii_of_string s).

(** [s.split(c)] for a one-character separator: never the empty array. *)
Fixpoint split (s : string) (c : ascii) : list string :=
  match s with
  | EmptyString => [EmptyString]
  | String x r =>
      if Ascii.eqb x c then EmptyString :: split r c
      else match split r c with
           | seg :: segs => String x seg :: segs
           | [] => [String x EmptyString]
           end
  end.

(** [s.lastIndexOf(c)] *)
Fixpoint lastIndexOf (s : string) (c : ascii) : Z :=
  match s with
  | EmptyString => -1
  | String x r =>
      let i := lastIndexOf r c in
      if 0 <=? i then i + 1 else if Ascii.eqb x c then 0 else -1
  end.

(** [s.substring(0, n)]: a negative [n] counts as 0.  It is used with
    an index found by [lastIndexOf] only, so that the index and the cut
    count the same units. *)
Definition substring0 (s : string) (n : Z) : string :=
  String.substring 0 (Z.to_nat n) s.

(** The white space and line terminators that [trim] removes, by their
    UTF-8 bytes.  One byte: U+0009 to U+000D and U+0020. *)
Definition isWhiteSpace1 (c : ascii) : bool :=
  let n := nat_of_ascii c in
  ((9 <=? n)%nat && (n <=? 13)%nat) || (n =? 32)%nat.

(** Two bytes: U+00A0 (C2 A0). *)
Definition isWhiteSpace2 (c1 c2 : ascii) : bool :=
  (nat_of_ascii c1 =? 194)%nat && (nat_of_ascii c2 =? 160)%nat.

(** Three bytes: U+1680 (E1 9A 80), U+2000 to U+200A (E2 80 80 to
    E2 80 8A), U+2028, U+2029, U+202F (E2 80 A8, A9, AF), U+205F
    (E2 81 9F), U+3000 (E3 80 80) and U+FEFF (EF BB BF). *)
Definition isWhiteSpace3 (c1 c2 c3 : ascii) : bool :=
  let a := nat_of_ascii c1 in
  let b := nat_of_ascii c2 in
  let c := nat_of_ascii c3 in
  ((a =? 225) && (b =? 154) && (c =? 128))%nat
  || ((a =? 226)%nat && (b =? 128)%nat
      && (((128 <=? c)%nat && (c <=? 138)%nat)
          || (c =? 168)%nat || (c =? 169)%nat || (c =? 175)%nat))
  || ((a =? 226) && (b =? 129) && (c =? 159))%nat
  || ((a =? 227) && (b =? 128) && (c =? 128))%nat
  || ((a =? 239) && (b =? 187) && (c =? 191))%nat.

Fixpoint trimStart (s : string) : string :=
  match s with
  | EmptyString => EmptyString
  | String c1 r1 =>
      if isWhiteSpace1 c1 then trimStart r1
      else
        match r1 with
        | String c2 r2 =>
            if isWhiteSpace2 c1 c2 then trimStart r2
            else
              match r2 with
              | String c3 r3 =>
                  if isWhiteSpace3 c1 c2 c3 then trimStart r3 else s
              | EmptyString => s
              end
        | EmptyString => s
        end
  end.

(** The string is cut where what follows is white space only. *)
Fixpoint trimEnd (s : string) : string :=
  match s with
  | EmptyString => EmptyString
  | String c r =>
      match trimStart s with
      | EmptyString => EmptyString
      | _ => String c (trimEnd r)
      end
  end.

Definition trim (s : string) : string := trimEnd (trimStart s).

(** A byte that continues a character (10xxxxxx), and the first byte of
    a character of four bytes (11110xxx): such a character is outside
    the basic plane and takes two code units, a surrogate pair. *)
Definition isContinuation (c : ascii) : bool :=
  let n := nat_of_ascii c in (128 <=? n)%nat && (n <=? 191)%nat.

Definition isLead4 (c : ascii) : bool := (240 <=? nat_of_ascii c)%nat.

(** The high surrogate of the character whose first three bytes are
    [b1], [b2], [b3]: D800 + ((code point - 10000) >> 10) in
    hexadecimal, as the three bytes of that code point. *)
Definition highSurrogate (b1 b2 b3 : ascii) : string :=
  let u := (4 * (nat_of_ascii b1 mod 8) + (nat_of_ascii b2 / 16) mod 4)%nat in
  let z := (nat_of_ascii b2 mod 16)%nat in
  let y := ((nat_of_ascii b3 / 16) mod 4)%nat in
  String (ascii_of_nat 237)
    (String (ascii_of_nat (160 + (u - 1) mod 16))
       (String (ascii_of_nat (128 + (4 * z + y)))
          EmptyString)).

(** [s.slice(0, n)] for [n >= 0]: the first [n] code units.  A cut
    between the two code units of a character outside the basic plane
    leaves its high surrogate. *)
Fixpoint slice0 (n : nat) (s : string) : string :=
  match s with
  | EmptyString => EmptyString
  | String c r =>
      if isContinuation c then String c (slice0 n r)
      else
        match n with
        | O => EmptyString
        | S n' =>
            if isLead4 c then
              match n' with
              | O =>
                  match r with
                  | String b2 (String b3 _) => highSurrogate c b2 b3
                  | _ => EmptyString
                  end
              | S n'' => String c (slice0 n'' r)
              end
            else String c (slice0 n' r)
        end
  end.

(** [Map<string,string>]: [has], [get], [set]. *)
Definition StrMap := list (string * string).

Fixpoint get (m : StrMap) (k : string) : option string :=
  match m with
  | [] => None
  | (k', v) :: r => if String.eqb k k' then Some v else get r k
  end.

Definition mhas (m : StrMap) (k : string) : bool :=
  match get m k with Some _ => true | None => false end.

Fixpoint set (m : StrMap) (k v : string) : StrMap :=
  match m with
  | [] => [(k, v)]
  | (k', v') :: r => if String.eqb k k' then (k, v) :: r else (k', v') :: set r k v
  end.

Section Sort.
Context {A : Type}.
(** [cmp a b] is the sign of the comparator's result on [(a, b)]
    ([Eq] also when the result is [NaN]). *)
Variable cmp : A -> A -> comparison.

Fixpoint insert (x : A) (l : list A) : list A :=
  match l with
  | [] => [x]
  | y :: r =>
      match cmp x y with
      | Gt => y :: insert x r
      | _ => x :: y :: r
      end
  end.

(** [arr.sort(cmp)], as a function of the array's contents. *)
Definition sort (l : list A) : list A := fold_right insert [] l.
End Sort.

End Js.

(* ================================================================== *)
(** * utils/pdfProcessor.ts *)
(* ================================================================== *)

Module Pdf.

(** [interface PdfChapter].  [children] is always an array for a chapter
    built by [parseOutlineItem]. *)
Inductive PdfChapter : Type := MkPdfChapter {
  id : string;
  title : string;
  startPage : Z;
  endPage : Z;
  level : Z;
  children : list PdfChapter
}.

Definition setEndPage (c : PdfChapter) (e : Z) : PdfChapter :=
  MkPdfChapter (id c) (title c) (startPage c) e (level c) (children c).

Definition setChildren (c : PdfChapter) (chs : list PdfChapter) : PdfChapter :=
  MkPdfChapter (id c) (title c) (startPage c) (endPage c) (level c) chs.

(** An entry of the outline returned by [pdfDoc.getOutline()].
    [dest] is the 0-based page index the entry's destination resolves to;
    [None] when the entry has no destination, when it resolves to nothing,
    or when the lookup throws (the [catch] only logs). *)
Inductive OutlineItem : Type := MkOutlineItem {
  item_title : string;
  dest : option Z;
  items : list OutlineItem
}.

(** [parseOutlineItem(item, pdfDoc, level, idPrefix, allItems)].
    [allItems] is filled but never read and is left out. *)
Fixpoint parseOutlineItem (item : OutlineItem) (lvl : Z) (idPrefix : string)
  {struct item} : PdfChapter :=
  let startPage :=
    match dest item with
    | Some pageIndex => pageIndex + 1
    | None => 1
    end in
  {| id := idPrefix;
     title := item_title item;
     startPage := startPage;
     endPage := startPage;
     level := lvl;
     children :=
       (fix loop (its : list OutlineItem) (i : nat) : list PdfChapter :=
          match its with
          | [] => []
          | it :: rest =>
              parseOutlineItem it (lvl + 1)
                (idPrefix ++ "-" ++ Js.string_of_nat i)
              :: loop rest (S i)
          end) (items item) 0%nat |}.

(** The [collectLeaves] closure of [calculateEndPages]. *)
Fixpoint collectLeavesOf (item : PdfChapter) : list PdfChapter :=
  match children item with
  | [] => [item]
  | chs => flat_map collectLeavesOf chs
  end.

Definition collectLeaves (items : list PdfChapter) : list PdfChapter :=
  flat_map collectLeavesOf items.

(** [(a, b) => a.startPage - b.startPage] *)
Definition byStartPage (a b : PdfChapter) : comparison :=
  startPage a ?= startPage b.

(** The chapters are objects mutated in place.  Every node of a tree is an
    object of its own, so a leaf is identified by its position in
    [leafChapters] as collected; the sort permutes these references. *)
Definition Ref := nat.

Definition byStartPageRef (a b : Ref * PdfChapter) : comparison :=
  byStartPage (snd a) (snd b).

(** The loop over the sorted [leafChapters]: the value written to
    [current.endPage], per leaf reference. *)
Fixpoint leafEndPages (sorted : list (Ref * PdfChapter)) (totalPages : Z)
  : list (Ref * Z) :=
  match sorted with
  | [] => []
  | (r, _) :: rest =>
      (r, match rest with
          | (_, next) :: _ => startPage next - 1
          | [] => totalPages
          end) :: leafEndPages rest totalPages
  end.

Fixpoint written (w : list (Ref * Z)) (r : Ref) : option Z :=
  match w with
  | [] => None
  | (r', e) :: rest => if Nat.eqb r r' then Some e else written rest r
  end.

(** The tree after the writes of the loop: leaf number [k] (in
    collection order) carries the end page written through its reference. *)
Fixpoint storeLeafOf (w : list (Ref * Z)) (c : PdfChapter) (k : Ref)
  {struct c} : PdfChapter * Ref :=
  match children c with
  | [] =>
      (match written w k with Some e => setEndPage c e | None => c end,
       S k)
  | chs =>
      let '(chs', k') :=
        (fix go (l : list PdfChapter) (k : Ref) : list PdfChapter * Ref :=
           match l with
           | [] => ([], k)
           | x :: rest =>
               let '(x', k1) := storeLeafOf w x k in
               let '(rest', k2) := go rest k1 in
               (x' :: rest', k2)
           end) chs k in
      (setChildren c chs', k')
  end.

Fixpoint storeLeaves (w : list (Ref * Z)) (l : list PdfChapter) (k : Ref)
  : list PdfChapter * Ref :=
  match l with
  | [] => ([], k)
  | x :: rest =>
      let '(x', k1) := storeLeafOf w x k in
      let '(rest', k2) := storeLeaves w rest k1 in
      (x' :: rest', k2)
  end.

(** [getLastDescendantEndPage(ch)]: [ch.children[ch.children.length - 1]]
    is reached by walking the array to its last element. *)
Fixpoint getLastDescendantEndPage (ch : PdfChapter) : Z :=
  match children ch with
  | [] => endPage ch
  | chs =>
      (fix atLast (l : list PdfChapter) : Z :=
         match l with
         | [] => endPage ch
         | [lastChild] => getLastDescendantEndPage lastChild
         | _ :: rest => atLast rest
         end) chs
  end.

(** The [setParentEndPages] closure. *)
Fixpoint setParentEndPagesOf (item : PdfChapter) : PdfChapter :=
  match children item with
  | [] => item
  | chs =>
      let item' := setChildren item (map setParentEndPagesOf chs) in
      setEndPage item' (getLastDescendantEndPage item')
  end.

Definition setParentEndPages (items : list PdfChapter) : list PdfChapter :=
  map setParentEndPagesOf items.

(** [calculateEndPages(chapters, totalPages)]; the result is the
    argument tree after the in-place updates. *)
Definition calculateEndPages (chapters : list PdfChapter) (totalPages : Z)
  : list PdfChapter :=
  let leafChapters := collectLeaves chapters in
  let refs := combine (seq 0 (List.length leafChapters)) leafChapters in
  let sorted := Js.sort byStartPageRef refs in
  let w := leafEndPages sorted totalPages in
  setParentEndPages (fst (storeLeaves w chapters 0%nat)).

Definition noOutlineMessage : string :=
  "此 PDF 文件没有目录信息，无法自动识别章节".

(** The loop of [extractPdfChapters] over the top-level outline entries. *)
Fixpoint parseOutline (outline : list OutlineItem) (i : nat)
  : list PdfChapter :=
  match outline with
  | [] => []
  | item :: rest =>
      parseOutlineItem item 0 ("chapter-" ++ Js.string_of_nat i)
      :: parseOutline rest (S i)
  end.

(** [extractPdfChapters(file, onProgress)], from the outline of the
    loaded document ([None]: [getOutline()] gave [null]) and
    [pdfDoc.numPages]. *)
Definition extractPdfChapters (outline : option (list OutlineItem))
  (numPages : Z) : string + list PdfChapter :=
  match outline with
  | None | Some [] => inl noOutlineMessage
  | Some items => inr (calculateEndPages (parseOutline items 0) numPages)
  end.

End Pdf.

(* ================================================================== *)
(** * utils/epubProcessor.ts *)
(* ================================================================== *)

Module Epub.

(** [interface EpubChapter] *)
Inductive EpubChapter : Type := MkEpubChapter {
  id : string;
  title : string;
  href : string;
  anchor : option string;
  content : option string;
  level : Z;
  children : list EpubChapter
}.

Definition setContent (c : EpubChapter) (s : string) : EpubChapter :=
  MkEpubChapter (id c) (title c) (href c) (anchor c) (Some s) (level c)
    (children c).

Definition setChildren (c : EpubChapter) (chs : list EpubChapter)
  : EpubChapter :=
  MkEpubChapter (id c) (title c) (href c) (anchor c) (content c) (level c)
    chs.

(** What [parseNavPoint] reads of an NCX [navPoint] element:
    the text of [:scope > navLabel > text] ([None]: no such element),
    the [src] attribute of [:scope > content] ([None]: no such element,
    [Some None]: element without the attribute), and the child
    [navPoint] elements. *)
Inductive NavPoint : Type := MkNavPoint {
  labelText : option string;
  contentSrc : option (option string);
  navPoints : list NavPoint
}.

(** What [parseNavList] reads of an [li] element: the first
    [a[href]] directly under it or under a [span] child (its [href]
    attribute and text), and its first [ol] / [ul] child. *)
Inductive NavItem : Type := MkNavItem {
  link : option (string * string);
  subList : option (list NavItem)
}.

Definition placeholderTitle : string := "章节".

(** [x || placeholder] on a string. *)
Definition orElse (s dflt : string) : string :=
  match s with EmptyString => dflt | _ => s end.

(** The expression shared by [parseNavPoint] and [parseNavList]:
    [hrefFull.includes('#')
       ? [hrefFull.split('#')[0], '#' + hrefFull.split('#')[1]]
       : [hrefFull, undefined]].
    An index outside the array reads [undefined], which [+] prints. *)
Definition splitHref (hrefFull : string) : string * option string :=
  if Js.includes hrefFull "#"%char then
    (match Js.at_ (Js.split hrefFull "#"%char) 0 with
     | Some h => h
     | None => "undefined"
     end,
     Some ("#" ++ match Js.at_ (Js.split hrefFull "#"%char) 1 with
                  | Some a => a
                  | None => "undefined"
                  end))
  else (hrefFull, None).

(** [parseNavPoint(navPoint, idPrefix, level)] *)
Fixpoint parseNavPoint (navPoint : NavPoint) (idPrefix : string) (lvl : Z)
  {struct navPoint} : option EpubChapter :=
  match labelText navPoint, contentSrc navPoint with
  | Some text, Some srcAttr =>
      let title := orElse (Js.trim text) placeholderTitle in
      let hrefFull := match srcAttr with Some s => s | None => "" end in
      let '(href, anchor) := splitHref hrefFull in
      Some {| id := idPrefix;
              title := title;
              href := href;
              anchor := anchor;
              content := None;
              level := lvl;
              children :=
                (fix each (l : list NavPoint) (index : nat)
                   : list EpubChapter :=
                   match l with
                   | [] => []
                   | childNavPoint :: rest =>
                       match parseNavPoint childNavPoint
                               (idPrefix ++ "-" ++ Js.string_of_nat index)
                               (lvl + 1) with
                       | Some child => child :: each rest (S index)
                       | None => each rest (S index)
                       end
                   end) (navPoints navPoint) 0%nat |}
  | _, _ => None
  end.

(** The body of the [items.forEach] callback of [parseNavList], for the
    item at [index]; the recursive call on the sub-list is the inner loop. *)
Fixpoint parseNavItem (item : NavItem) (idPrefix : string) (index : nat)
  (lvl : Z) {struct item} : option EpubChapter :=
  match link item with
  | None => None
  | Some (hrefAttr, text) =>
      let title := orElse (Js.trim text) placeholderTitle in
      let hrefFull := hrefAttr in
      let '(href, anchor) := splitHref hrefFull in
      let cid := idPrefix ++ "-" ++ Js.string_of_nat index in
      Some {| id := cid;
              title := title;
              href := href;
              anchor := anchor;
              content := None;
              level := lvl;
              children :=
                match subList item with
                | None => []
                | Some sub =>
                    (fix each (l : list NavItem) (i : nat)
                       : list EpubChapter :=
                       match l with
                       | [] => []
                       | it :: rest =>
                           match parseNavItem it cid i (lvl + 1) with
                           | Some c => c :: each rest (S i)
                           | None => each rest (S i)
                           end
                       end) sub 0%nat
                end |}
  end.

Fixpoint parseNavItems (l : list NavItem) (idPrefix : string) (index : nat)
  (lvl : Z) : list EpubChapter :=
  match l with
  | [] => []
  | it :: rest =>
      match parseNavItem it idPrefix index lvl with
      | Some c => c :: parseNavItems rest idPrefix (S index) lvl
      | None => parseNavItems rest idPrefix (S index) lvl
      end
  end.

(** [parseNavList(listElement, idPrefix, level)] *)
Definition parseNavList (listElement : list NavItem) (idPrefix : string)
  (lvl : Z) : list EpubChapter :=
  parseNavItems listElement idPrefix 0 lvl.

Fixpoint parseNavPoints (l : list NavPoint) (prefix : string) (index : nat)
  (lvl : Z) : list EpubChapter :=
  match l with
  | [] => []
  | np :: rest =>
      match parseNavPoint np (prefix ++ Js.string_of_nat index) lvl with
      | Some c => c :: parseNavPoints rest prefix (S index) lvl
      | None => parseNavPoints rest prefix (S index) lvl
      end
  end.

(** The [collectLeaves] closure of [extractEpubChapters]. *)
Fixpoint collectLeavesOf (item : EpubChapter) : list EpubChapter :=
  match children item with
  | [] => [item]
  | chs => flat_map collectLeavesOf chs
  end.

Definition collectLeaves (items : list EpubChapter) : list EpubChapter :=
  flat_map collectLeavesOf items.

Definition noNavigationMessage : string :=
  "此 EPUB 文件没有目录信息，无法自动识别章节".

(** The state of one content-loading pass: the [fileCache] map, the
    archive entries decompressed so far (one entry per
    [chapterFile.async('text')] call, in call order), and the [content]
    written to each leaf, by leaf reference (position in
    [leafChapters]). *)
Record LoadState : Type := MkLoadState {
  fileCache : Js.StrMap;
  reads : list string;
  contents : list (nat * string)
}.

Section Extraction.

(** The archive: [zip.file(path)] and the text of the entry. *)
Variable zip : string -> option string.

(** The DOM queries, as functions of the parsed text:
    [rootfile]'s [full-path] ([None]: no [rootfile]); the [href] of
    the manifest item with [properties="nav"], and of the NCX item;
    the [li] items of the first list of the table-of-contents [nav];
    the top-level [navPoint]s of [navMap]. *)
Variable domRootfile : string -> option (option string).
Variable domNavHref : string -> option string.
Variable domNcxHref : string -> option string.
Variable domTocList : string -> option (list NavItem).
Variable domNavMap : string -> option (list NavPoint).

(** [extractContentByAnchor(html, anchor)], a DOM computation. *)
Variable extractContentByAnchor : string -> string -> string.

(** [parseContainer(zip)] *)
Definition parseContainer : string + string :=
  match zip "META-INF/container.xml" with
  | None => inl "无效的 EPUB 文件：缺少 container.xml"
  | Some containerXml =>
      match domRootfile containerXml with
      | None => inl "无效的 EPUB 文件：无法找到 rootfile"
      | Some fullPath =>
          if Js.truthyStr fullPath
          then inr (match fullPath with Some f => f | None => "" end)
          else inl "无效的 EPUB 文件：无法找到 content.opf 路径"
      end
  end.

(** [x || undefined] on an attribute value. *)
Definition orUndefined (a : option string) : option string :=
  if Js.truthyStr a then a else None.

(** [parseContentOpf(zip, opfPath)]: [(basePath, navHref, ncxHref)] *)
Definition parseContentOpf (opfPath : string)
  : string + (string * option string * option string) :=
  match zip opfPath with
  | None => inl "无效的 EPUB 文件：无法找到 content.opf"
  | Some opfXml =>
      let basePath :=
        Js.substring0 opfPath (Js.lastIndexOf opfPath "/"%char) in
      inr (basePath, orUndefined (domNavHref opfXml),
           orUndefined (domNcxHref opfXml))
  end.

(** [basePath ? `${basePath}/${rel}` : rel] *)
Definition resolvePath (basePath rel : string) : string :=
  match basePath with
  | EmptyString => rel
  | _ => basePath ++ "/" ++ rel
  end.

(** [parseNav(zip, navPath)] *)
Definition parseNav (navPath : string) : list EpubChapter :=
  match zip navPath with
  | None => []
  | Some navHtml =>
      match domTocList navHtml with
      | None => []
      | Some list => parseNavList list "chapter" 0
      end
  end.

(** [parseNcx(zip, ncxPath)] *)
Definition parseNcx (ncxPath : string) : list EpubChapter :=
  match zip ncxPath with
  | None => []
  | Some ncxXml =>
      match domNavMap ncxXml with
      | None => []
      | Some topLevelNavPoints =>
          parseNavPoints topLevelNavPoints "chapter-" 0 0
      end
  end.

(** The value of [chapters] in [extractEpubChapters] when the emptiness
    test is reached. *)
Definition navigationChapters (basePath : string)
  (navHref ncxHref : option string) : list EpubChapter :=
  let chapters :=
    match navHref with
    | Some h => parseNav (resolvePath basePath h)
    | None => []
    end in
  match chapters, ncxHref with
  | [], Some h => parseNcx (resolvePath basePath h)
  | _, _ => chapters
  end.

Definition chapterPathOf (basePath : string) (chapter : EpubChapter)
  : string :=
  resolvePath basePath (href chapter).

(** The statements after the cache lookup: [fileCache.get], then the
    assignment to [chapter.content] when the text is non-empty. *)
Definition assignContent (basePath : string) (rc : nat * EpubChapter)
  (st : LoadState) : LoadState :=
  let '(r, chapter) := rc in
  match Js.get (fileCache st) (chapterPathOf basePath chapter) with
  | Some fullContent =>
      if Js.truthyStr (Some fullContent) then
        let c :=
          if Js.truthyStr (anchor chapter)
          then extractContentByAnchor fullContent
                 (match anchor chapter with Some a => a | None => "" end)
          else fullContent in
        MkLoadState (fileCache st) (reads st) ((r, c) :: contents st)
      else st
  | None => st
  end.

(** Whether the callback for [chapter] reaches
    [await chapterFile.async('text')], given the cache it observes. *)
Definition awaitsRead (cache : Js.StrMap) (basePath : string)
  (chapter : EpubChapter) : bool :=
  negb (Js.mhas cache (chapterPathOf basePath chapter))
  && match zip (chapterPathOf basePath chapter) with
     | Some _ => true
     | None => false
     end.

(** [batch.map(async (chapter, batchIndex) => ...)] calls every callback
    in turn, and a callback runs without interruption up to its first
    [await].  So each callback of the batch tests [fileCache.has]
    before any [fileCache.set] of the same batch: a callback that
    reaches the [await] has started its read and is suspended, one
    that does not runs to its end. *)
Definition startCallback (basePath : string) (cache0 : Js.StrMap)
  (st : LoadState) (rc : nat * EpubChapter) : LoadState :=
  if awaitsRead cache0 basePath (snd rc)
  then MkLoadState (fileCache st)
         (reads st ++ [chapterPathOf basePath (snd rc)])
         (contents st)
  else assignContent basePath rc st.

(** The continuation of a suspended callback, once its read is done:
    [fileCache.set(chapterPath, fullContent)] and the statements
    after the lookup. *)
Definition resumeCallback (basePath : string) (cache0 : Js.StrMap)
  (st : LoadState) (rc : nat * EpubChapter) : LoadState :=
  if awaitsRead cache0 basePath (snd rc) then
    match zip (chapterPathOf basePath (snd rc)) with
    | Some fullContent =>
        assignContent basePath rc
          (MkLoadState
             (Js.set (fileCache st) (chapterPathOf basePath (snd rc))
                fullContent)
             (reads st) (contents st))
    | None => st
    end
  else st.

(** One [await Promise.all(batch.map(...))]. *)
Definition loadBatch (basePath : string) (st : LoadState)
  (batch : list (nat * EpubChapter)) : LoadState :=
  let cache0 := fileCache st in
  let st1 := fold_left (startCallback basePath cache0) batch st in
  fold_left (resumeCallback basePath cache0) batch st1.

Definition batchSize : nat := 10.

(** [leafChapters.slice(i, i + batchSize)] for [i = 0, batchSize, ...];
    [fuel] bounds the number of batches. *)
Fixpoint batchesOf {A : Type} (fuel : nat) (l : list A) : list (list A) :=
  match fuel, l with
  | O, _ | _, [] => []
  | S fuel', _ => firstn batchSize l :: batchesOf fuel' (skipn batchSize l)
  end.

Definition loadLeaves (basePath : string) (leafChapters : list EpubChapter)
  : LoadState :=
  let refs := combine (seq 0 (List.length leafChapters)) leafChapters in
  fold_left (loadBatch basePath)
    (batchesOf (List.length refs) refs)
    (MkLoadState [] [] []).

Fixpoint contentWritten (w : list (nat * string)) (r : nat)
  : option string :=
  match w with
  | [] => None
  | (r', c) :: rest => if Nat.eqb r r' then Some c else contentWritten rest r
  end.

(** The tree after the assignments to the leaves' [content]. *)
Fixpoint storeContentOf (w : list (nat * string)) (c : EpubChapter)
  (k : nat) {struct c} : EpubChapter * nat :=
  match children c with
  | [] =>
      (match contentWritten w k with
       | Some s => setContent c s
       | None => c
       end, S k)
  | chs =>
      let '(chs', k') :=
        (fix go (l : list EpubChapter) (k : nat)
           : list EpubChapter * nat :=
           match l with
           | [] => ([], k)
           | x :: rest =>
               let '(x', k1) := storeContentOf w x k in
               let '(rest', k2) := go rest k1 in
               (x' :: rest', k2)
           end) chs k in
      (setChildren c chs', k')
  end.

Fixpoint storeContents (w : list (nat * string)) (l : list EpubChapter)
  (k : nat) : list EpubChapter * nat :=
  match l with
  | [] => ([], k)
  | x :: rest =>
      let '(x', k1) := storeContentOf w x k in
      let '(rest', k2) := storeContents w rest k1 in
      (x' :: rest', k2)
  end.

(** [extractEpubChapters(file, onProgress)] on the unzipped archive,
    together with the list of archive reads made for chapter content. *)
Definition extractEpubChaptersTraced
  : string + (list EpubChapter * list string) :=
  match parseContainer with
  | inl e => inl e
  | inr opfPath =>
      match parseContentOpf opfPath with
      | inl e => inl e
      | inr (basePath, navHref, ncxHref) =>
          match navigationChapters basePath navHref ncxHref with
          | [] => inl noNavigationMessage
          | chapters =>
              let st := loadLeaves basePath (collectLeaves chapters) in
              inr (fst (storeContents (contents st) chapters 0%nat),
                   reads st)
          end
      end
  end.

Definition extractEpubChapters : string + list EpubChapter :=
  match extractEpubChaptersTraced with
  | inl e => inl e
  | inr (chapters, _) => inr chapters
  end.

End Extraction.

End Epub.

(* ================================================================== *)
(** * utils/filenameUtils.ts *)
(* ================================================================== *)

Module Filename.

(** [s.replace(/[...]/g, '_')] for a character class. *)
Fixpoint replaceClass (inClass : ascii -> bool) (s : string) : string :=
  match s with
  | EmptyString => EmptyString
  | String c r =>
      String (if inClass c then "_"%char else c) (replaceClass inClass r)
  end.

Definition oneOf (cs : list ascii) (c : ascii) : bool :=
  existsb (Ascii.eqb c) cs.

(** The class of the first [replace]: slash and backslash. *)
Definition isPathSeparator : ascii -> bool := oneOf ["/"; "\"]%char.

(** The class of the second [replace]: the characters
    less-than, greater-than, colon, double quote, bar, question mark
    and star. *)
Definition isIllegal : ascii -> bool :=
  oneOf ["<"; ">"; ":"; ascii_of_nat 34; "|"; "?"; "*"]%char.

(** The class of the third [replace]: code units 0 to 31. *)
Definition isControl (c : ascii) : bool := (nat_of_ascii c <=? 31)%nat.

Fixpoint dropLeadingDots (s : string) : string :=
  match s with
  | String "."%char r => dropLeadingDots r
  | _ => s
  end.

Fixpoint dropTrailingDots (s : string) : string :=
  match s with
  | EmptyString => EmptyString
  | String c r =>
      match dropTrailingDots r with
      | EmptyString =>
          if Ascii.eqb c "."%char then EmptyString else String c EmptyString
      | r' => String c r'
      end
  end.

(** The fourth [replace]: a run of dots at the start, a run of dots at
    the end. *)
Definition stripDots (s : string) : string :=
  dropTrailingDots (dropLeadingDots s).

(** [sanitizeFilename(filename)] *)
Definition sanitizeFilename (filename : string) : string :=
  Js.slice0 200
    (stripDots
       (Js.trim
          (replaceClass isControl
             (replaceClass isIllegal
                (replaceClass isPathSeparator filename))))).

(** [s.padStart(2, '0')] *)
Definition padStart2 (s : string) : string :=
  match String.length s with
  | O => "00" ++ s
  | 1%nat => "0" ++ s
  | _ => s
  end.

(** [parts.join('_')] *)
Fixpoint join (parts : list string) : string :=
  match parts with
  | [] => ""
  | [p] => p
  | p :: rest => p ++ "_" ++ join rest
  end.

(** [buildHierarchicalFilename(index, parentTitles, currentTitle, extension)] *)
Definition buildHierarchicalFilename (index : nat)
  (parentTitles : list string) (currentTitle : string) (extension : string)
  : string :=
  let indexPrefix := padStart2 (Js.string_of_nat (index + 1)) in
  let titleParts := map sanitizeFilename (parentTitles ++ [currentTitle]) in
  indexPrefix ++ "_" ++ join titleParts ++ extension.

End Filename.

(* ================================================================== *)
(** * components/ChapterList.tsx and App.tsx: export planning *)
(* ================================================================== *)

Module App.

(** The values a page field or page expression takes in the planner:
    an integer or [Infinity]. *)
Inductive number : Type :=
| Fin (z : Z)
| Infinity.

(** [interface Chapter].  A field marked [?] is an [option]; an absent
    [children] and an empty one are not told apart by any reader and
    are both []. *)
Inductive Chapter : Type := MkChapter {
  id : string;
  title : string;
  startPage : option number;
  endPage : option number;
  content : option string;
  level : Z;
  children : list Chapter
}.

Inductive FileType : Type := pdf | epub.
Inductive MergeMode : Type := separate | merge.

(** [interface ExportTask] *)
Record ExportTask : Type := MkExportTask {
  name : string;
  chapters : list Chapter;
  parentTitles : list string;
  chapterId : string
}.

Definition isPdf (ft : FileType) : bool :=
  match ft with pdf => true | epub => false end.

Definition isEpub (ft : FileType) : bool := negb (isPdf ft).

Definition truthyNum (n : option number) : bool :=
  match n with
  | None | Some (Fin 0) => false
  | Some _ => true
  end.

(** [n || 0] and [n || Infinity] *)
Definition orZero (n : option number) : number :=
  match n with
  | None | Some (Fin 0) => Fin 0
  | Some v => v
  end.

Definition orInfinity (n : option number) : number :=
  match n with
  | None | Some (Fin 0) => Infinity
  | Some v => v
  end.

(** Sign of [a - b]; [Infinity - Infinity] is [NaN], which a sort
    comparator result treats as 0. *)
Definition subSign (a b : number) : comparison :=
  match a, b with
  | Fin x, Fin y => x ?= y
  | Fin _, Infinity => Lt
  | Infinity, Fin _ => Gt
  | Infinity, Infinity => Eq
  end.

(** [a < b] *)
Definition ltNum (a b : number) : bool :=
  match a, b with
  | Fin x, Fin y => x <? y
  | Fin _, Infinity => true
  | Infinity, _ => false
  end.

(** [a - 1] *)
Definition pred (a : number) : number :=
  match a with
  | Fin x => Fin (x - 1)
  | Infinity => Infinity
  end.

Definition minNum (a b : number) : number := if ltNum b a then b else a.

(** [Math.min(...xs)]; [Infinity] for no argument. *)
Definition mathMin (xs : list number) : number :=
  fold_right minNum Infinity xs.

(** The comparator of the three [sort] calls:
    [fileType === 'pdf' ? (a.startPage || 0) - (b.startPage || 0) : 0] *)
Definition byStartPage (fileType : FileType) (a b : Chapter) : comparison :=
  if isPdf fileType then subSign (orZero (startPage a)) (orZero (startPage b))
  else Eq.

Definition hasChildren (chapter : Chapter) : bool :=
  match children chapter with [] => false | _ => true end.

(** [getAllChapterIds(items)] *)
Fixpoint idsOf (ch : Chapter) : list string :=
  id ch :: flat_map idsOf (children ch).

Definition getAllChapterIds (items : list Chapter) : list string :=
  flat_map idsOf items.

(** [findSelectedChapters(items)] of [ChapterList]'s [handleExport]; the
    result is the [selectedChapters] argument of [App]'s [handleExport]. *)
Fixpoint findSelectedOf (selectedChapters : Js.StrSet) (item : Chapter)
  : list Chapter :=
  ((if Js.has selectedChapters (id item) then [item] else [])
   ++ flat_map (findSelectedOf selectedChapters) (children item))%list.

Definition findSelectedChapters (selectedChapters : Js.StrSet)
  (items : list Chapter) : list Chapter :=
  flat_map (findSelectedOf selectedChapters) items.

(** [getAllDescendants(parent)] *)
Fixpoint getAllDescendants (parent : Chapter) : list Chapter :=
  flat_map (fun child => child :: getAllDescendants child) (children parent).

(** [new Set(ids)] *)
Definition newSet (ids : list string) : Js.StrSet :=
  fold_left Js.add ids [].

(** The synthetic chapter for a parent's own pages / own content. *)
Definition introPages (chapter : Chapter) (firstChildStartPage : number)
  : Chapter :=
  {| id := id chapter ++ "_intro";
     title := title chapter;
     startPage := startPage chapter;
     endPage := Some (pred firstChildStartPage);
     content := None;
     level := level chapter;
     children := [] |}.

Definition introContent (chapter : Chapter) : Chapter :=
  {| id := id chapter ++ "_intro";
     title := title chapter;
     startPage := None;
     endPage := None;
     content := content chapter;
     level := level chapter;
     children := [] |}.

(** [Math.min(...chs.map(ch => ch.startPage || Infinity))] *)
Definition firstStartPage (chs : list Chapter) : number :=
  mathMin (map (fun ch => orInfinity (startPage ch)) chs).

Definition startOf (chapter : Chapter) : number :=
  match startPage chapter with Some v => v | None => Fin 0 end.

(** [exportTasks] and [processed] *)
Definition PlanState : Type := list ExportTask * Js.StrSet.

Section Planner.

Variable fileType : FileType.
Variable selectedChapterIds : Js.StrSet.
Variable mergedChapterIds : Js.StrSet.

Definition selectedAmong (chs : list Chapter) : list Chapter :=
  filter (fun ch => Js.has selectedChapterIds (id ch)) chs.

(** The first branch of [processChapter]: the chapter is merge-flagged
    and has children. *)
Definition mergeBranch (chapter : Chapter) (parentTitles : list string)
  (st : PlanState) : PlanState :=
  let '(exportTasks, processed) := st in
  let allDescendants := getAllDescendants chapter in
  let childrenToMerge := selectedAmong allDescendants in
  if (0 <? List.length childrenToMerge)%nat then
    let intro :=
      if isPdf fileType && truthyNum (startPage chapter)
         && truthyNum (endPage chapter) then
        let firstChildStartPage := firstStartPage childrenToMerge in
        if ltNum (startOf chapter) firstChildStartPage
        then [introPages chapter firstChildStartPage]
        else []
      else if isEpub fileType && Js.truthyStr (content chapter) then
        [introContent chapter]
      else [] in
    let sortedChildren := Js.sort (byStartPage fileType) childrenToMerge in
    let chaptersInTask := (intro ++ sortedChildren)%list in
    ((exportTasks
      ++ [MkExportTask (title chapter) chaptersInTask parentTitles
            (id chapter)])%list,
     fold_left Js.add (map id sortedChildren)
       (Js.add processed (id chapter)))
  else st.

(** The second branch: the chapter is selected. *)
Definition selectedBranch (chapter : Chapter) (parentTitles : list string)
  (st : PlanState) : PlanState :=
  let '(exportTasks, processed) := st in
  if hasChildren chapter then
    let allDescendants := getAllDescendants chapter in
    let selectedChildren := selectedAmong allDescendants in
    let hasIndependentContent :=
      if isPdf fileType && truthyNum (startPage chapter)
         && truthyNum (endPage chapter)
         && (0 <? List.length selectedChildren)%nat then
        ltNum (startOf chapter) (firstStartPage selectedChildren)
      else if isEpub fileType && Js.truthyStr (content chapter) then true
      else false in
    if hasIndependentContent then
      let exportTasks' :=
        if isPdf fileType && truthyNum (startPage chapter)
           && truthyNum (endPage chapter) then
          (exportTasks
           ++ [MkExportTask (title chapter)
                 [introPages chapter (firstStartPage selectedChildren)]
                 parentTitles (id chapter)])%list
        else if isEpub fileType && Js.truthyStr (content chapter) then
          (exportTasks
           ++ [MkExportTask (title chapter) [introContent chapter]
                 parentTitles (id chapter)])%list
        else exportTasks in
      (exportTasks', Js.add processed (id chapter))
    else st
  else
    ((exportTasks
      ++ [MkExportTask (title chapter) [chapter] parentTitles
            (id chapter)])%list,
     Js.add processed (id chapter)).

(** [processChapter(chapter, parentTitles)] *)
Definition processChapter (chapter : Chapter) (parentTitles : list string)
  (st : PlanState) : PlanState :=
  if Js.has (snd st) (id chapter) then st
  else if Js.has mergedChapterIds (id chapter) && hasChildren chapter then
    mergeBranch chapter parentTitles st
  else if Js.has selectedChapterIds (id chapter) then
    selectedBranch chapter parentTitles st
  else st.

(** The body of the [chs.forEach] callback of [traverseChapters]. *)
Fixpoint traverseChapter (ch : Chapter) (currentParentTitles : list string)
  (st : PlanState) {struct ch} : PlanState :=
  (fix each (chs : list Chapter) (st : PlanState) : PlanState :=
     match chs with
     | [] => st
     | c :: rest =>
         each rest
           (traverseChapter c (currentParentTitles ++ [title ch])%list st)
     end) (children ch) (processChapter ch currentParentTitles st).

(** [traverseChapters(chs, currentParentTitles)] *)
Definition traverseChapters (chs : list Chapter)
  (currentParentTitles : list string) (st : PlanState) : PlanState :=
  fold_left (fun st ch => traverseChapter ch currentParentTitles st) chs st.

End Planner.

Definition mergedName : string := "合并章节".

Definition isMerge (m : MergeMode) : bool :=
  match m with merge => true | separate => false end.

(** The value of [exportTasks] in [handleExport(selectedChapters,
    mergeMode, mergedChapterIds)] once planning is done, for the loaded
    [chapters] of type [fileType].  With no selected chapter the handler
    returns at once and nothing is planned. *)
Definition handleExport (fileType : FileType) (chapters : list Chapter)
  (selectedChapters : list Chapter) (mergeMode : MergeMode)
  (mergedChapterIds : Js.StrSet) : list ExportTask :=
  if (List.length selectedChapters =? 0)%nat then []
  else
    let selectedChapterIds := newSet (map id selectedChapters) in
    let allChapterIds := getAllChapterIds chapters in
    let isFullSelection :=
      (List.length selectedChapters =? List.length allChapterIds)%nat in
    let sortedChapters := Js.sort (byStartPage fileType) selectedChapters in
    if isFullSelection && isMerge mergeMode then
      [MkExportTask mergedName sortedChapters [] "merged"]
    else
      fst (traverseChapters fileType selectedChapterIds mergedChapterIds
             chapters [] ([], [])).

(** [ChapterList]'s [handleExport]: the selection set of the list
    component is turned into chapters and handed to [onExport]. *)
Definition onExport (fileType : FileType) (chapters : list Chapter)
  (selectedChapters : Js.StrSet) (mergeMode : MergeMode)
  (mergedChapters : Js.StrSet) : list ExportTask :=
  handleExport fileType chapters
    (findSelectedChapters selectedChapters chapters) mergeMode
    mergedChapters.

(** The file name given to task number [i] in the export loops. *)
Fixpoint filenamesFrom (i : nat) (tasks : list ExportTask) : list string :=
  match tasks with
  | [] => []
  | task :: rest =>
      Filename.buildHierarchicalFilename i (parentTitles task) (name task)
        ".pdf"
      :: filenamesFrom (S i) rest
  end.

Definition filenames (tasks : list ExportTask) : list string :=
  filenamesFrom 0 tasks.

(** [setChapters(pdfChapters)]: a [PdfChapter] read as a [Chapter]. *)
Fixpoint ofPdf (c : Pdf.PdfChapter) : Chapter :=
  {| id := Pdf.id c;
     title := Pdf.title c;
     startPage := Some (Fin (Pdf.startPage c));
     endPage := Some (Fin (Pdf.endPage c));
     content := None;
     level := Pdf.level c;
     children := map ofPdf (Pdf.children c) |}.

(** [setChapters(epubChapters)] *)
Fixpoint ofEpub (c : Epub.EpubChapter) : Chapter :=
  {| id := Epub.id c;
     title := Epub.title c;
     startPage := None;
     endPage := None;
     content := Epub.content c;
     level := Epub.level c;
     children := map ofEpub (Epub.children c) |}.

End App.

(* ================================================================== *)
(** * Notions used to state the properties *)
(* ================================================================== *)

Module PdfSpec.
Import Pdf.

(** Every node of a tree, a parent before its children. *)
Fixpoint nodesOf (c : PdfChapter) : list PdfChapter :=
  c :: flat_map nodesOf (children c).

Definition nodes (t : list PdfChapter) : list PdfChapter :=
  flat_map nodesOf t.

(** [LastDescendant c l]: [l] is the leaf reached from [c] by taking
    the last child again and again. *)
Inductive LastDescendant : PdfChapter -> PdfChapter -> Prop :=
| LastDescendant_leaf (c : PdfChapter) :
    children c = [] -> LastDescendant c c
| LastDescendant_step (c l : PdfChapter) :
    children c <> [] ->
    LastDescendant (last (children c) c) l ->
    LastDescendant c l.

(** Page [p] lies in the range of chapter [c]. *)
Definition covers (c : PdfChapter) (p : Z) : Prop :=
  startPage c <= p <= endPage c.

(** The top-level chapters the outline of a document parses to. *)
Definition topLevelEntries (outline : option (list OutlineItem))
  : list PdfChapter :=
  match outline with
  | None => []
  | Some items => parseOutline items 0
  end.

(** In a list of chapters, each range ends right before the next one
    starts. *)
Definition Consecutive (l : list PdfChapter) : Prop :=
  forall i a b,
    nth_error l i = Some a -> nth_error l (S i) = Some b ->
    endPage a + 1 = startPage b.

(** No page lies in the ranges of two chapters of the list. *)
Definition Disjoint (l : list PdfChapter) : Prop :=
  forall i j a b,
    (i < j)%nat -> nth_error l i = Some a -> nth_error l j = Some b ->
    forall p, ~ (covers a p /\ covers b p).

(** The ranges of the list cover exactly the pages [lo] to [hi]. *)
Definition UnionIs (l : list PdfChapter) (lo hi : Z) : Prop :=
  forall p, (exists c, In c l /\ covers c p) <-> lo <= p <= hi.

(** The leaves of a tree, sorted by start page. *)
Definition sortedLeaves (t : list PdfChapter) : list PdfChapter :=
  Js.sort byStartPage (collectLeaves t).

(** Leaf [snd rc], referenced by [fst rc], after the writes [w]. *)
Definition stored (w : list (Ref * Z)) (rc : Ref * PdfChapter)
  : PdfChapter :=
  match written w (fst rc) with
  | Some e => setEndPage (snd rc) e
  | None => snd rc
  end.

(** What [storeLeafOf] does to the leaves below [c]. *)
Definition leavesStored (w : list (Ref * Z)) (c : PdfChapter) : Prop :=
  forall k,
    collectLeavesOf (fst (storeLeafOf w c k)) =
      map (stored w)
        (combine (seq k (List.length (collectLeavesOf c))) (collectLeavesOf c))
    /\ snd (storeLeafOf w c k) = (k + List.length (collectLeavesOf c))%nat.

Definition startsBefore (a b : PdfChapter) : Prop :=
  startPage a <= startPage b.

(** The sorted leaves with the end pages the loop of
    [calculateEndPages] gives them. *)
Fixpoint withEndPages (sorted : list PdfChapter) (totalPages : Z)
  : list PdfChapter :=
  match sorted with
  | [] => []
  | c :: rest =>
      setEndPage c
        (match rest with
         | next :: _ => startPage next - 1
         | [] => totalPages
         end) :: withEndPages rest totalPages
  end.

End PdfSpec.

Module EpubSpec.
Import Epub.

(** The [href] attributes of the items of a navigation list that carry a
    link, in order. *)
Definition targets (l : list NavItem) : list string :=
  flat_map (fun it => match link it with
                      | Some (hrefAttr, _) => [hrefAttr]
                      | None => []
                      end) l.

(** The resource path and anchor recorded in a chapter. *)
Definition location (ch : EpubChapter) : string * option string :=
  (href ch, anchor ch).

(** Every chapter of a navigation tree, a parent before its children. *)
Fixpoint nodesOf (c : EpubChapter) : list EpubChapter :=
  c :: flat_map nodesOf (children c).

Definition nodes (t : list EpubChapter) : list EpubChapter :=
  flat_map nodesOf t.

(** The chapters that the parse of one entry gives, none when the entry
    is left out. *)
Definition entries (o : option EpubChapter) : list EpubChapter :=
  match o with
  | Some c => nodesOf c
  | None => []
  end.

(** The targets of the navigation points at and below [np] that have a
    label and a content element, in document order; a point that lacks
    one of them is left out with everything below it.  A content
    element without [src] has the empty target. *)
Fixpoint pointTargets (np : NavPoint) : list string :=
  match labelText np, contentSrc np with
  | Some _, Some srcAttr =>
      match srcAttr with Some s => s | None => "" end
      :: flat_map pointTargets (navPoints np)
  | _, _ => []
  end.

(** The targets of the list items at and below [it] that carry a link,
    in document order; an item without link is left out with its
    sub-list. *)
Fixpoint itemTargets (it : NavItem) : list string :=
  match link it with
  | Some (hrefAttr, _) =>
      hrefAttr
      :: match subList it with
         | Some sub => flat_map itemTargets sub
         | None => []
         end
  | None => []
  end.

(** No [#] occurs in [s]. *)
Definition hashFree (s : string) : Prop := Js.includes s "#"%char = false.

End EpubSpec.

Module AppSpec.
Import App.

(** Every chapter of a tree, a parent before its children (the order of
    the outline or of the navigation document). *)
Fixpoint nodesOf (c : Chapter) : list Chapter :=
  c :: flat_map nodesOf (children c).

Definition nodes (t : list Chapter) : list Chapter := flat_map nodesOf t.

(** The leaf chapters of a tree, in the same order. *)
Fixpoint leavesOf (c : Chapter) : list Chapter :=
  match children c with
  | [] => [c]
  | chs => flat_map leavesOf chs
  end.

Definition leaves (t : list Chapter) : list Chapter := flat_map leavesOf t.

(** The identifiers of the content units of each task. *)
Definition unitIds (tasks : list ExportTask) : list (list string) :=
  map (fun t => map id (chapters t)) tasks.

(** Pages of the content units of each task. *)
Definition unitPages (tasks : list ExportTask)
  : list (list (option number * option number)) :=
  map (fun t => map (fun c => (startPage c, endPage c)) (chapters t)) tasks.

(** The selected chapters below [chapter]. *)
Definition selectedDescendants (selectedChapterIds : Js.StrSet)
  (chapter : Chapter) : list Chapter :=
  selectedAmong selectedChapterIds (getAllDescendants chapter).

(** The test that guards the synthetic chapter of a PDF parent: both page
    fields are truthy and the start page lies before [first]. *)
Definition ownPagesBefore (chapter : Chapter) (first : number) : bool :=
  truthyNum (startPage chapter) && truthyNum (endPage chapter)
  && ltNum (startOf chapter) first.

(** [a <= b] *)
Definition leNum (a b : number) : Prop := ltNum b a = false.

Definition startKey (c : Chapter) : number := orZero (startPage c).

(** The tasks that [processChapter] adds for [chapter] when it has not
    been processed before. *)
Definition emitted (fileType : FileType)
  (selectedChapterIds mergedChapterIds : Js.StrSet) (chapter : Chapter)
  (parentTitles : list string) : list ExportTask :=
  fst (processChapter fileType selectedChapterIds mergedChapterIds chapter
         parentTitles ([], [])).

End AppSpec.

(* ================================================================== *)
(** * Sample books *)
(* ================================================================== *)

Module Sample.
Import Pdf.

Definition entry (t : string) (pageIndex : Z) (sub : list OutlineItem)
  : OutlineItem :=
  MkOutlineItem t (Some pageIndex) sub.

(** Part A (page 1) with sections A1 (page 1) and A2 (page 10), then
    chapter B (page 20); 30 pages. *)
Definition outline : list OutlineItem :=
  [entry "A" 0 [entry "A1" 0 []; entry "A2" 9 []]; entry "B" 19 []].

Definition book : list PdfChapter := parseOutline outline 0.

(** A single chapter that starts on page 3 of 10 (a cover and a
    contents page come first). *)
Definition lateOutline : list OutlineItem := [entry "Chapter" 2 []].

(** Part P (page 1) whose sections are listed out of page order:
    C1 (page 5), C2 (page 1); then chapter X (page 1); 30 pages. *)
Definition shuffledOutline : list OutlineItem :=
  [entry "P" 0 [entry "C1" 4 []; entry "C2" 0 []]; entry "X" 0 []].

(** Part G (page 1) with a section P (page 3) that has a subsection L
    (page 5); 9 pages. *)
Definition nestedOutline : list OutlineItem :=
  [entry "G" 0 [entry "P" 2 [entry "L" 4 []]]].

(** An EPUB whose navigation document lists two sections of one
    content file. *)
Definition epubToc : list Epub.NavItem :=
  [Epub.MkNavItem (Some ("ch1.xhtml#s1", "Section 1")) None;
   Epub.MkNavItem (Some ("ch1.xhtml#s2", "Section 2")) None].

Definition epubZip (path : string) : option string :=
  if String.eqb path "META-INF/container.xml" then Some "<container/>"
  else if String.eqb path "OEBPS/content.opf" then Some "<package/>"
  else if String.eqb path "OEBPS/nav.xhtml" then Some "<nav/>"
  else if String.eqb path "OEBPS/ch1.xhtml" then Some "<html>text</html>"
  else None.

Definition epubRootfile (containerXml : string) : option (option string) :=
  Some (Some "OEBPS/content.opf").

Definition epubNavHref (opfXml : string) : option string := Some "nav.xhtml".

Definition epubNcxHref (opfXml : string) : option string := None.

Definition epubTocList (navHtml : string) : option (list Epub.NavItem) :=
  Some epubToc.

Definition epubNavMap (ncxXml : string) : option (list Epub.NavPoint) := None.

(** The chapters the application holds after loading an outline. *)
Definition loaded (o : list OutlineItem) (numPages : Z)
  : list App.Chapter :=
  match extractPdfChapters (Some o) numPages with
  | inr chapters => map App.ofPdf chapters
  | inl _ => []
  end.

(** The first top-level chapter of a loaded book. *)
Definition firstChapter (book : list App.Chapter) : App.Chapter :=
  hd (App.MkChapter "" "" None None None 0 []) book.



End Sample.

(* ================================================================== *)
(** * Further functions of the sources *)
(* ================================================================== *)

(** utils/pdfProcessor.ts: [extractPdfPages] *)
Module PdfPages.

(** The new document built by [extractPdfPages(file, startPage, endPage)],
    as the list of the 0-based indices of the source pages it holds, in
    order: [Array.from({ length: endPage - startPage + 1 },
    (_, i) => startPage - 1 + i)] is copied and every copied page is
    added.  A length that is not positive gives no page. *)
Definition extractPdfPages (startPage endPage : Z) : list Z :=
  map (fun i => startPage - 1 + Z.of_nat i)
    (seq 0 (Z.to_nat (endPage - startPage + 1))).

End PdfPages.

(** utils/filenameUtils.ts: [findParentTitles], at the chapter type of
    the application. *)
Module ParentTitles.
Import App.

(** The body of the [for] loop of [findParentTitles] for one chapter:
    the answer found at this chapter or below it, if any. *)
Fixpoint findAt (chapter : Chapter) (targetId : string)
  (parentTitles : list string) {struct chapter} : option (list string) :=
  if String.eqb (id chapter) targetId then Some parentTitles
  else
    (fix each (chs : list Chapter) : option (list string) :=
       match chs with
       | [] => None
       | c :: rest =>
           match findAt c targetId (parentTitles ++ [title chapter])%list with
           | Some result => Some result
           | None => each rest
           end
       end) (children chapter).

(** [findParentTitles(chapters, targetId, parentTitles)]; [None] is
    [null]. *)
Fixpoint findParentTitles (chapters : list Chapter) (targetId : string)
  (parentTitles : list string) : option (list string) :=
  match chapters with
  | [] => None
  | chapter :: rest =>
      match findAt chapter targetId parentTitles with
      | Some result => Some result
      | None => findParentTitles rest targetId parentTitles
      end
  end.

End ParentTitles.

(** components/ChapterList.tsx: the selection handlers *)
Module ChapterList.
Import App.

(** [set.delete(x)] *)
Definition delete (s : Js.StrSet) (x : string) : Js.StrSet :=
  filter (fun y => negb (String.eqb y x)) s.

(** [set.size], for a set held without repetition. *)
Definition size (s : Js.StrSet) : nat := List.length s.

(** [getChapterAndChildrenIds(ch)] *)
Fixpoint getChapterAndChildrenIds (ch : Chapter) : list string :=
  id ch :: flat_map getChapterAndChildrenIds (children ch).

(** The selection after [handleToggleChapter(chapterId, chapter)]. *)
Definition handleToggleChapter (selectedChapters : Js.StrSet)
  (chapterId : string) (chapter : Chapter) : Js.StrSet :=
  let affectedIds := getChapterAndChildrenIds chapter in
  if Js.has selectedChapters chapterId
  then fold_left delete affectedIds selectedChapters
  else fold_left Js.add affectedIds selectedChapters.

(** The selection after [handleSelectAll()]. *)
Definition handleSelectAll (chapters : list Chapter)
  (selectedChapters : Js.StrSet) : Js.StrSet :=
  if (size selectedChapters =? List.length (getAllChapterIds chapters))%nat
  then []
  else newSet (getAllChapterIds chapters).

(** The merge flags after [handleToggleMerge(chapterId, e)]. *)
Definition handleToggleMerge (mergedChapters : Js.StrSet)
  (chapterId : string) : Js.StrSet :=
  if Js.has mergedChapters chapterId then delete mergedChapters chapterId
  else Js.add mergedChapters chapterId.

(** The [checkDescendants] closure of [renderChapter]. *)
Fixpoint checkDescendants (selectedChapters : Js.StrSet) (ch : Chapter)
  : bool :=
  if Js.has selectedChapters (id ch) then true
  else
    match children ch with
    | [] => false
    | chs => existsb (checkDescendants selectedChapters) chs
    end.

(** [hasSelectedChildren] of [renderChapter]: whether the merge button
    of the chapter is shown. *)
Definition hasSelectedChildren (selectedChapters : Js.StrSet)
  (chapter : Chapter) : bool :=
  if hasChildren chapter
  then existsb (checkDescendants selectedChapters) (children chapter)
  else false.

End ChapterList.

Module MoreSpec.

(** Every code unit of [s] passes the test [p]. *)
Fixpoint allChars (p : ascii -> bool) (s : string) : bool :=
  match s with
  | EmptyString => true
  | String c r => p c && allChars p r
  end.


(** The code units a byte stands for: none for a byte that continues a
    character, two for the first byte of a character outside the basic
    plane, else one. *)
Definition unitsOf (c : ascii) : nat :=
  if Js.isContinuation c then 0%nat
  else if Js.isLead4 c then 2%nat else 1%nat.

(** The length of a string in UTF-16 code units, JavaScript's
    [s.length]. *)
Fixpoint units (s : string) : nat :=
  match s with
  | EmptyString => 0%nat
  | String c r => (unitsOf c + units r)%nat
  end.

(** The number read from the text before the first underscore of a file
    name. *)
Definition ordinalOf (filename : string) : option nat :=
  match Js.split filename "_"%char with
  | seg :: _ => option_map Nat.of_uint (NilZero.uint_of_string seg)
  | [] => None
  end.

(** The chapters of a tree, each with the titles of the chapters above
    it, outermost first; a parent before its children. *)
Fixpoint withTitlesOf (c : App.Chapter) (titles : list string)
  : list (App.Chapter * list string) :=
  (c, titles)
  :: flat_map (fun child => withTitlesOf child (titles ++ [App.title c])%list)
       (App.children c).

Definition withTitles (t : list App.Chapter) (titles : list string)
  : list (App.Chapter * list string) :=
  flat_map (fun c => withTitlesOf c titles) t.

(** [Subseq l m]: [l] is [m] with some elements left out. *)
Inductive Subseq {A : Type} : list A -> list A -> Prop :=
| Subseq_nil : Subseq [] []
| Subseq_skip (l m : list A) (x : A) : Subseq l m -> Subseq l (x :: m)
| Subseq_keep (l m : list A) (x : A) : Subseq l m -> Subseq (x :: l) (x :: m).

(** A PDF chapter tree with every end page set to 0. *)
Fixpoint eraseEndPage (c : Pdf.PdfChapter) : Pdf.PdfChapter :=
  Pdf.MkPdfChapter (Pdf.id c) (Pdf.title c) (Pdf.startPage c) 0
    (Pdf.level c) (map eraseEndPage (Pdf.children c)).

(** The depths of the chapters of the tree at [c], a parent before its
    children, [c] being at depth [d]. *)
Fixpoint depthsOf (d : Z) (c : Pdf.PdfChapter) : list Z :=
  d :: flat_map (depthsOf (d + 1)) (Pdf.children c).

(** The chapters parsed from the outline entries [its], entry number [k]
    getting the identifier [mk k]; [i] is the number of the first one. *)
Fixpoint parsedFrom (mk : nat -> string) (its : list Pdf.OutlineItem)
  (lvl : Z) (i : nat) : list Pdf.PdfChapter :=
  match its with
  | [] => []
  | it :: rest =>
      Pdf.parseOutlineItem it lvl (mk i) :: parsedFrom mk rest lvl (S i)
  end.

(** [s] is the identifier [p] or continues it after a hyphen. *)
Definition Below (p s : string) : Prop :=
  s = p \/ exists r, s = p ++ "-" ++ r.

(** The identifiers of a PDF chapter tree, a parent before its
    children. *)
Fixpoint pdfIdsOf (c : Pdf.PdfChapter) : list string :=
  Pdf.id c :: flat_map pdfIdsOf (Pdf.children c).

Definition pdfIds (t : list Pdf.PdfChapter) : list string :=
  flat_map pdfIdsOf t.

(** The content a leaf has after loading: none when the archive has no
    entry at its path or the entry is empty, else the entry's text, cut
    to the anchor when the leaf has one. *)
Definition loadedContent (zip : string -> option string)
  (extractContentByAnchor : string -> string -> string) (basePath : string)
  (leaf : Epub.EpubChapter) : option string :=
  match zip (Epub.chapterPathOf basePath leaf) with
  | Some fullContent =>
      if Js.truthyStr (Some fullContent) then
        Some (if Js.truthyStr (Epub.anchor leaf)
              then extractContentByAnchor fullContent
                     (match Epub.anchor leaf with Some a => a | None => "" end)
              else fullContent)
      else None
  | None => None
  end.

(** A leaf as extraction returns it. *)
Definition loadedLeaf (zip : string -> option string)
  (extractContentByAnchor : string -> string -> string) (basePath : string)
  (leaf : Epub.EpubChapter) : Epub.EpubChapter :=
  match loadedContent zip extractContentByAnchor basePath leaf with
  | Some c => Epub.setContent leaf c
  | None => leaf
  end.

(** The identifiers of an EPUB chapter tree, a parent before its
    children. *)
Fixpoint epubIdsOf (c : Epub.EpubChapter) : list string :=
  Epub.id c :: flat_map epubIdsOf (Epub.children c).

Definition epubIds (t : list Epub.EpubChapter) : list string :=
  flat_map epubIdsOf t.

(** A navigation tree as extraction returns it: every leaf loaded, the
    other chapters as they were parsed. *)
Fixpoint loadedTree (zip : string -> option string)
  (extractContentByAnchor : string -> string -> string) (basePath : string)
  (c : Epub.EpubChapter) : Epub.EpubChapter :=
  match Epub.children c with
  | [] => loadedLeaf zip extractContentByAnchor basePath c
  | chs =>
      Epub.setChildren c
        (map (loadedTree zip extractContentByAnchor basePath) chs)
  end.

(** The cache holds only texts of the archive, under their paths. *)
Definition Consistent (zip : string -> option string) (cache : Js.StrMap)
  : Prop :=
  forall p v, Js.get cache p = Some v -> zip p = Some v.

(** The state of a loading pass in which exactly the leaf references of
    [done] have been served, each with the content of its file. *)
Definition Served (zip : string -> option string)
  (extractContentByAnchor : string -> string -> string) (basePath : string)
  (done : nat * Epub.EpubChapter -> Prop) (st : Epub.LoadState) : Prop :=
  Consistent zip (Epub.fileCache st)
  /\ (forall r c, In (r, c) (Epub.contents st) ->
      exists leaf,
        done (r, leaf)
        /\ loadedContent zip extractContentByAnchor basePath leaf = Some c)
  /\ (forall r leaf c,
        done (r, leaf) ->
        loadedContent zip extractContentByAnchor basePath leaf = Some c ->
        In (r, c) (Epub.contents st)).

End MoreSpec.

(* ================================================================== *)
(** * Facts about the built-ins *)
(* ================================================================== *)

Section SortFacts.
Context {A : Type} (cmp : A -> A -> comparison).

Lemma insert_perm (x : A) (l : list A) :
  Permutation (Js.insert cmp x l) (x :: l).
Proof.
  induction l as [|y r IH]; simpl.
  - apply Permutation_refl.
  - destruct (cmp x y); try apply Permutation_refl.
    eapply perm_trans; [apply perm_skip, IH | apply perm_swap].
Qed.

Lemma sort_perm (l : list A) : Permutation (Js.sort cmp l) l.
Proof.
  induction l as [|x r IH]; simpl.
  - constructor.
  - eapply perm_trans; [apply insert_perm | apply perm_skip, IH].
Qed.

Lemma sort_length (l : list A) : List.length (Js.sort cmp l) = List.length l.
Proof. apply Permutation_length, sort_perm. Qed.

Lemma sort_in (l : list A) (x : A) : In x (Js.sort cmp l) <-> In x l.
Proof.
  split; apply Permutation_in;
    [apply sort_perm | apply Permutation_sym, sort_perm].
Qed.

Lemma sort_nil_inv (l : list A) : Js.sort cmp l = [] -> l = [].
Proof.
  intros H. apply length_zero_iff_nil.
  rewrite <- sort_length, H. reflexivity.
Qed.
End SortFacts.

(** A map that does not change the comparator's verdict commutes with
    sorting. *)
Lemma insert_map {A B : Type} (f : A -> B) (cmpA : A -> A -> comparison)
  (cmpB : B -> B -> comparison)
  (Hf : forall x y, cmpB (f x) (f y) = cmpA x y) (x : A) (l : list A) :
  Js.insert cmpB (f x) (map f l) = map f (Js.insert cmpA x l).
Proof.
  induction l as [|y r IH]; simpl; [reflexivity|].
  rewrite Hf. destruct (cmpA x y); simpl; try reflexivity.
  now rewrite IH.
Qed.

Lemma sort_map {A B : Type} (f : A -> B) (cmpA : A -> A -> comparison)
  (cmpB : B -> B -> comparison)
  (Hf : forall x y, cmpB (f x) (f y) = cmpA x y) (l : list A) :
  Js.sort cmpB (map f l) = map f (Js.sort cmpA l).
Proof.
  induction l as [|x r IH]; simpl; [reflexivity|].
  rewrite IH. apply insert_map, Hf.
Qed.

(** A comparator that always answers 0 leaves the array as it is. *)
Lemma sort_const_eq {A : Type} (l : list A) :
  Js.sort (fun _ _ => Eq) l = l.
Proof.
  induction l as [|x r IH]; simpl; [reflexivity|].
  rewrite IH. destruct r; reflexivity.
Qed.

(** Two comparators that agree sort alike. *)
Lemma sort_ext {A : Type} (c1 c2 : A -> A -> comparison) (l : list A) :
  (forall x y, c1 x y = c2 x y) -> Js.sort c1 l = Js.sort c2 l.
Proof.
  intros H. induction l as [|x r IH]; simpl; [reflexivity|].
  rewrite IH. generalize (Js.sort c2 r). intros s.
  induction s as [|y s IHs]; simpl; [reflexivity|].
  rewrite H, IHs. reflexivity.
Qed.

Section SortByKey.
Context {A : Type} (key : A -> Z).

Lemma insert_sorted (x : A) (l : list A) :
  Sorted (fun a b => key a <= key b) l ->
  Sorted (fun a b => key a <= key b)
    (Js.insert (fun a b => key a ?= key b) x l).
Proof.
  induction 1 as [|y r Hs IH Hd]; cbn [Js.insert].
  - repeat constructor.
  - destruct (Z.compare_spec (key x) (key y)) as [E|E|E].
    + constructor; [constructor; assumption|]. constructor. lia.
    + constructor; [constructor; assumption|]. constructor. lia.
    + constructor; [exact IH|].
      destruct Hd as [|z r' Hz]; cbn [Js.insert].
      * constructor. lia.
      * destruct (Z.compare_spec (key x) (key z)); constructor; lia.
Qed.

Lemma sort_sorted (l : list A) :
  Sorted (fun a b => key a <= key b)
    (Js.sort (fun a b => key a ?= key b) l).
Proof.
  induction l as [|x r IH]; cbn [Js.sort fold_right]; [constructor|].
  apply insert_sorted, IH.
Qed.

Lemma sort_strongly_sorted (l : list A) :
  StronglySorted (fun a b => key a <= key b)
    (Js.sort (fun a b => key a ?= key b) l).
Proof.
  apply Sorted_StronglySorted; [|apply sort_sorted].
  intros a b c. lia.
Qed.
End SortByKey.

(* ================================================================== *)
(** * Range resolution ([calculateEndPages]) *)
(* ================================================================== *)

Section PdfFacts.
Import Pdf PdfSpec.

(** Induction over a chapter tree. *)
Lemma PdfChapter_tree_ind (P : PdfChapter -> Prop) :
  (forall c, Forall P (children c) -> P c) -> forall c, P c.
Proof.
  intros H. fix IH 1. intros [i t s e l chs]. apply H. simpl.
  induction chs as [|x r IHr]; constructor; [apply IH | exact IHr].
Qed.

Lemma storeLeaves_inner (w : list (Ref * Z)) (l : list PdfChapter) :
  forall k,
    (fix go (l : list PdfChapter) (k : Ref) : list PdfChapter * Ref :=
       match l with
       | [] => ([], k)
       | x :: rest =>
           let '(x', k1) := storeLeafOf w x k in
           let '(rest', k2) := go rest k1 in
           (x' :: rest', k2)
       end) l k = storeLeaves w l k.
Proof.
  induction l as [|x r IH]; intros k; [reflexivity|].
  cbn [storeLeaves]. destruct (storeLeafOf w x k) as [x' k1].
  rewrite IH. reflexivity.
Qed.

Lemma storeLeafOf_eq (w : list (Ref * Z)) (c : PdfChapter) (k : Ref) :
  storeLeafOf w c k =
  match children c with
  | [] =>
      (match written w k with Some e => setEndPage c e | None => c end, S k)
  | chs =>
      let '(chs', k') := storeLeaves w chs k in (setChildren c chs', k')
  end.
Proof.
  destruct c as [i t s e l chs]. destruct chs as [|x r]; [reflexivity|].
  cbn [children]. rewrite <- storeLeaves_inner. reflexivity.
Qed.

Lemma collectLeavesOf_eq (c : PdfChapter) :
  collectLeavesOf c =
  match children c with
  | [] => [c]
  | chs => collectLeaves chs
  end.
Proof. destruct c as [i t s e l chs]. destruct chs; reflexivity. Qed.

Lemma setParentEndPagesOf_eq (c : PdfChapter) :
  setParentEndPagesOf c =
  match children c with
  | [] => c
  | chs =>
      let c' := setChildren c (setParentEndPages chs) in
      setEndPage c' (getLastDescendantEndPage c')
  end.
Proof. destruct c as [i t s e l chs]. destruct chs; reflexivity. Qed.

Lemma atLast_last (d : Z) (dflt : PdfChapter) (l : list PdfChapter) :
  forall x,
    (fix atLast (l0 : list PdfChapter) : Z :=
       match l0 with
       | [] => d
       | [lastChild] => getLastDescendantEndPage lastChild
       | _ :: (_ :: _) as rest => atLast rest
       end) (x :: l) = getLastDescendantEndPage (last (x :: l) dflt).
Proof.
  induction l as [|y r IH]; intros x; [reflexivity|].
  rewrite (IH y). reflexivity.
Qed.

Lemma getLastDescendantEndPage_eq (c : PdfChapter) :
  getLastDescendantEndPage c =
  match children c with
  | [] => endPage c
  | chs => getLastDescendantEndPage (last chs c)
  end.
Proof.
  destruct c as [i t s e l chs]. destruct chs as [|x r]; [reflexivity|].
  cbn [children]. rewrite <- (atLast_last e). reflexivity.
Qed.

(** The walk of [getLastDescendantEndPage] ends in the last descendant
    leaf and returns its end page. *)
Lemma getLastDescendantEndPage_spec (c : PdfChapter) :
  exists l, LastDescendant c l /\ children l = [] /\
            getLastDescendantEndPage c = endPage l.
Proof.
  induction c as [c IH] using PdfChapter_tree_ind.
  rewrite getLastDescendantEndPage_eq.
  destruct (children c) as [|x r] eqn:E.
  - exists c. repeat split; [constructor|]; assumption.
  - assert (Hin : In (last (x :: r) c) (x :: r)).
    { destruct (exists_last (l := x :: r)) as (l' & a & El); [discriminate|].
      rewrite El, last_last. apply in_or_app. right. left. reflexivity. }
    rewrite Forall_forall in IH. destruct (IH _ Hin) as (l & Hl & Hc & He).
    exists l. repeat split; try assumption.
    apply LastDescendant_step; rewrite E; [discriminate | exact Hl].
Qed.

(** A leaf is its own last descendant, and the relation is functional. *)
Lemma LastDescendant_fun (c l1 l2 : PdfChapter) :
  LastDescendant c l1 -> LastDescendant c l2 -> l1 = l2.
Proof.
  induction 1 as [c Hc|c l Hc H IH]; intros H2; inversion H2; subst;
    try contradiction; auto.
Qed.

Lemma nodesOf_eq (c : PdfChapter) : nodesOf c = c :: nodes (children c).
Proof. destruct c; reflexivity. Qed.

Lemma last_indep {A : Type} (l : list A) (d1 d2 : A) :
  l <> [] -> last l d1 = last l d2.
Proof.
  induction l as [|x r IH]; [congruence|]. intros _.
  destruct r as [|y r']; [reflexivity|].
  change (last (y :: r') d1 = last (y :: r') d2). apply IH. discriminate.
Qed.

Lemma in_nodes (t : list PdfChapter) (n : PdfChapter) :
  In n (nodes t) <-> exists c, In c t /\ In n (nodesOf c).
Proof. unfold nodes. apply in_flat_map. Qed.

(** After [setParentEndPages] every parent carries the end page that
    [getLastDescendantEndPage] computes for it. *)
Lemma setParentEndPagesOf_parents (c : PdfChapter) :
  forall node,
    In node (nodesOf (setParentEndPagesOf c)) -> children node <> [] ->
    endPage node = getLastDescendantEndPage node.
Proof.
  induction c as [c IH] using PdfChapter_tree_ind. intros node.
  rewrite setParentEndPagesOf_eq. destruct (children c) as [|x r] eqn:E.
  - rewrite nodesOf_eq, E. simpl. intros [<-|[]]. congruence.
  - cbv zeta. set (c' := setChildren c (setParentEndPages (x :: r))).
    set (e := getLastDescendantEndPage c'). rewrite nodesOf_eq.
    intros [<-|Hin] Hch.
    + change (endPage (setEndPage c' e)) with e. unfold e.
      rewrite (getLastDescendantEndPage_eq c').
      rewrite (getLastDescendantEndPage_eq (setEndPage c' _)).
      change (children (setEndPage c' _)) with (children c') in *.
      destruct (children c') as [|y r'] eqn:E'; [congruence|].
      f_equal. apply last_indep. discriminate.
    + change (children (setEndPage c' e)) with (setParentEndPages (x :: r))
        in Hin.
      apply in_nodes in Hin. destruct Hin as (c1 & Hc1 & Hn).
      unfold setParentEndPages in Hc1. apply in_map_iff in Hc1.
      destruct Hc1 as (c0 & <- & Hc0).
      rewrite Forall_forall in IH. exact (IH c0 Hc0 node Hn Hch).
Qed.

Lemma setParentEndPages_parents (t : list PdfChapter) :
  forall node,
    In node (nodes (setParentEndPages t)) -> children node <> [] ->
    endPage node = getLastDescendantEndPage node.
Proof.
  intros node Hin Hch. apply in_nodes in Hin.
  destruct Hin as (c' & Hc' & Hn).
  unfold setParentEndPages in Hc'. apply in_map_iff in Hc'.
  destruct Hc' as (c0 & <- & _).
  exact (setParentEndPagesOf_parents c0 node Hn Hch).
Qed.

(** Neither pass touches a start page or the shape of the tree. *)
Lemma setParentEndPagesOf_startPage (c : PdfChapter) :
  map startPage (nodesOf (setParentEndPagesOf c)) = map startPage (nodesOf c).
Proof.
  induction c as [c IH] using PdfChapter_tree_ind.
  rewrite setParentEndPagesOf_eq, (nodesOf_eq c).
  destruct (children c) as [|x r] eqn:E.
  - rewrite nodesOf_eq, E. reflexivity.
  - cbv zeta. rewrite nodesOf_eq. cbn [children setEndPage setChildren map startPage].
    f_equal. clear E. unfold nodes, setParentEndPages.
    induction IH as [|y l Hy Hl IHl]; [reflexivity|].
    cbn [map flat_map]. rewrite !map_app, Hy, IHl. reflexivity.
Qed.

Lemma setParentEndPages_startPage (t : list PdfChapter) :
  map startPage (nodes (setParentEndPages t)) = map startPage (nodes t).
Proof.
  unfold nodes, setParentEndPages. induction t as [|y l IHl]; [reflexivity|].
  cbn [map flat_map]. rewrite !map_app, setParentEndPagesOf_startPage, IHl.
  reflexivity.
Qed.

Lemma storeLeaves_startPage_aux (w : list (Ref * Z)) (l : list PdfChapter) :
  Forall (fun c => forall k,
            map startPage (nodesOf (fst (storeLeafOf w c k))) =
            map startPage (nodesOf c)) l ->
  forall k,
    map startPage (nodes (fst (storeLeaves w l k))) = map startPage (nodes l).
Proof.
  induction 1 as [|y l Hy Hl IHl]; intros k; [reflexivity|].
  cbn [storeLeaves]. specialize (Hy k).
  destruct (storeLeafOf w y k) as [y' k1]. specialize (IHl k1).
  destruct (storeLeaves w l k1) as [l' k2]. cbn [fst] in *.
  unfold nodes in *. cbn [flat_map]. rewrite !map_app, Hy, IHl. reflexivity.
Qed.

Lemma storeLeafOf_startPage (w : list (Ref * Z)) (c : PdfChapter) :
  forall k,
    map startPage (nodesOf (fst (storeLeafOf w c k))) =
    map startPage (nodesOf c).
Proof.
  induction c as [c IH] using PdfChapter_tree_ind. intros k.
  rewrite storeLeafOf_eq, (nodesOf_eq c).
  destruct (children c) as [|x r] eqn:E.
  - cbn [fst]. destruct (written w k); rewrite nodesOf_eq;
      cbn [children setEndPage]; rewrite E; reflexivity.
  - pose proof (storeLeaves_startPage_aux w _ IH k) as H.
    destruct (storeLeaves w (x :: r) k) as [chs' k']. cbn [fst] in *.
    rewrite nodesOf_eq. cbn [children setChildren map startPage].
    rewrite H. reflexivity.
Qed.

Lemma storeLeaves_startPage (w : list (Ref * Z)) (l : list PdfChapter)
  (k : Ref) :
  map startPage (nodes (fst (storeLeaves w l k))) = map startPage (nodes l).
Proof.
  apply storeLeaves_startPage_aux, Forall_forall.
  intros c _. apply storeLeafOf_startPage.
Qed.

(** ** C4 *)

(** C4.  In the tree returned by [calculateEndPages], every node with
    children has the end page of its last descendant leaf (the leaf
    reached by following the last child again and again), and every
    node keeps the start page it had before. *)
Theorem parent_endPage_is_last_descendant_endPage
  (chapters : list PdfChapter) (totalPages : Z) :
  (forall node,
      In node (nodes (calculateEndPages chapters totalPages)) ->
      children node <> [] ->
      exists leaf,
        LastDescendant node leaf /\ children leaf = [] /\
        endPage node = endPage leaf)
  /\ map startPage (nodes (calculateEndPages chapters totalPages))
     = map startPage (nodes chapters).
Proof.
  unfold calculateEndPages. split.
  - intros node Hin Hch.
    destruct (getLastDescendantEndPage_spec node) as (leaf & Hl & Hc & He).
    exists leaf. repeat split; try assumption.
    rewrite <- He. eapply setParentEndPages_parents; eassumption.
  - rewrite setParentEndPages_startPage. apply storeLeaves_startPage.
Qed.

Lemma parent_endPage_is_last_descendant_endPage_witness :
  exists node leaf,
    In node (nodes (calculateEndPages Sample.book 30))
    /\ children node <> []
    /\ LastDescendant node leaf /\ children leaf = []
    /\ endPage node = endPage leaf
    /\ (id node, endPage node, id leaf) = ("chapter-0", 19, "chapter-0-1").
Proof.
  pose (node := hd (MkPdfChapter "" "" 0 0 0 [])
                  (calculateEndPages Sample.book 30)).
  assert (H1 : In node (nodes (calculateEndPages Sample.book 30)))
    by (vm_compute; left; reflexivity).
  assert (H2 : children node <> []) by (vm_compute; discriminate).
  destruct (proj1 (parent_endPage_is_last_descendant_endPage Sample.book 30)
              node H1 H2) as (leaf & Hl & Hc & He).
  exists node, leaf. repeat (split; [assumption|]).
  assert (Hl' : LastDescendant node
                  (last (children node) node)).
  { apply LastDescendant_step; [exact H2|].
    apply LastDescendant_leaf. reflexivity. }
  rewrite (LastDescendant_fun _ _ _ Hl Hl'). reflexivity.
Defined.

(** ** The leaves after resolution *)

Lemma combine_seq_app {A : Type} (l1 l2 : list A) (k : nat) :
  combine (seq k (List.length (l1 ++ l2))) (l1 ++ l2) =
  (combine (seq k (List.length l1)) l1
   ++ combine (seq (k + List.length l1) (List.length l2)) l2)%list.
Proof.
  revert k. induction l1 as [|x r IH]; intros k.
  - simpl. rewrite Nat.add_0_r. reflexivity.
  - cbn [List.length app seq combine]. rewrite IH.
    rewrite Nat.add_succ_r. reflexivity.
Qed.

Lemma map_snd_combine_seq {A : Type} (l : list A) (k : nat) :
  map snd (combine (seq k (List.length l)) l) = l.
Proof.
  revert k. induction l as [|x r IH]; intros k; [reflexivity|].
  cbn [List.length seq combine map snd]. now rewrite IH.
Qed.

Lemma map_fst_combine_seq {A : Type} (l : list A) (k : nat) :
  map fst (combine (seq k (List.length l)) l) = seq k (List.length l).
Proof.
  revert k. induction l as [|x r IH]; intros k; [reflexivity|].
  cbn [List.length seq combine map fst]. now rewrite IH.
Qed.

Lemma collectLeaves_cons (x : PdfChapter) (r : list PdfChapter) :
  collectLeaves (x :: r) = (collectLeavesOf x ++ collectLeaves r)%list.
Proof. reflexivity. Qed.

Lemma storeLeaves_leaves_aux (w : list (Ref * Z)) (l : list PdfChapter) :
  Forall (leavesStored w) l ->
  forall k,
    collectLeaves (fst (storeLeaves w l k)) =
      map (stored w)
        (combine (seq k (List.length (collectLeaves l))) (collectLeaves l))
    /\ snd (storeLeaves w l k) = (k + List.length (collectLeaves l))%nat
    /\ List.length (fst (storeLeaves w l k)) = List.length l.
Proof.
  induction 1 as [|y l Hy Hl IHl]; intros k.
  - simpl. repeat split. lia.
  - cbn [storeLeaves]. destruct (Hy k) as [Hy1 Hy2].
    destruct (storeLeafOf w y k) as [y' k1]. cbn [fst snd] in Hy1, Hy2.
    destruct (IHl k1) as (Hl1 & Hl2 & Hl3).
    destruct (storeLeaves w l k1) as [l' k2]. cbn [fst snd] in *.
    rewrite !collectLeaves_cons, combine_seq_app, map_app, Hy1, Hl1, Hl2.
    subst k1. rewrite length_app. repeat split; cbn [List.length]; lia.
Qed.

Lemma storeLeafOf_leaves (w : list (Ref * Z)) (c : PdfChapter) :
  leavesStored w c.
Proof.
  induction c as [c IH] using PdfChapter_tree_ind. intros k.
  rewrite storeLeafOf_eq, (collectLeavesOf_eq c).
  destruct (children c) as [|x r] eqn:E.
  - cbn [fst snd List.length seq combine map]. unfold stored. cbn [fst snd].
    split; [|lia].
    destruct (written w k); rewrite collectLeavesOf_eq;
      cbn [children setEndPage]; rewrite E; reflexivity.
  - destruct (storeLeaves_leaves_aux w _ IH k) as (H1 & H2 & H3).
    destruct (storeLeaves w (x :: r) k) as [chs' k']. cbn [fst snd] in *.
    split; [|exact H2].
    rewrite collectLeavesOf_eq. cbn [children setChildren].
    destruct chs' as [|y r']; [discriminate|]. exact H1.
Qed.

Lemma storeLeaves_leaves (w : list (Ref * Z)) (l : list PdfChapter) (k : Ref) :
  collectLeaves (fst (storeLeaves w l k)) =
  map (stored w)
    (combine (seq k (List.length (collectLeaves l))) (collectLeaves l)).
Proof.
  apply storeLeaves_leaves_aux, Forall_forall.
  intros c _. apply storeLeafOf_leaves.
Qed.

Lemma setParentEndPagesOf_leaves (c : PdfChapter) :
  collectLeavesOf (setParentEndPagesOf c) = collectLeavesOf c.
Proof.
  induction c as [c IH] using PdfChapter_tree_ind.
  rewrite setParentEndPagesOf_eq, (collectLeavesOf_eq c).
  destruct (children c) as [|x r] eqn:E.
  - rewrite collectLeavesOf_eq, E. reflexivity.
  - cbv zeta. rewrite collectLeavesOf_eq. cbn [children setEndPage setChildren].
    destruct (setParentEndPages (x :: r)) as [|y r'] eqn:E'; [discriminate|].
    rewrite <- E'. clear E E'. unfold collectLeaves, setParentEndPages.
    induction IH as [|z l Hz Hl IHl]; [reflexivity|].
    cbn [map flat_map]. rewrite Hz, IHl. reflexivity.
Qed.

Lemma setParentEndPages_leaves (t : list PdfChapter) :
  collectLeaves (setParentEndPages t) = collectLeaves t.
Proof.
  unfold collectLeaves, setParentEndPages.
  induction t as [|z l IHl]; [reflexivity|].
  cbn [map flat_map]. rewrite setParentEndPagesOf_leaves, IHl. reflexivity.
Qed.

Lemma stored_startPage (w : list (Ref * Z)) (rc : Ref * PdfChapter) :
  startPage (stored w rc) = startPage (snd rc).
Proof. unfold stored. destruct (written w (fst rc)); reflexivity. Qed.

(** Writing the end pages computed for a duplicate-free list of
    references gives every leaf its own value. *)
Lemma stored_leafEndPages (sorted : list (Ref * PdfChapter)) (totalPages : Z) :
  NoDup (map fst sorted) ->
  map (stored (leafEndPages sorted totalPages)) sorted =
  withEndPages (map snd sorted) totalPages.
Proof.
  induction sorted as [|[r c] rest IH]; [reflexivity|].
  cbn [map fst snd leafEndPages withEndPages]. intros Hnd.
  inversion Hnd as [|? ? Hnotin Hnd']; subst. f_equal.
  - unfold stored. cbn [fst snd written]. rewrite Nat.eqb_refl.
    destruct rest as [|[r' c'] rest']; reflexivity.
  - rewrite <- (IH Hnd'). apply map_ext_in. intros [r' c'] Hin.
    unfold stored. cbn [fst snd written].
    destruct (Nat.eqb_spec r' r) as [->|_]; [|reflexivity].
    exfalso. apply Hnotin. apply in_map_iff. exists (r, c'). auto.
Qed.

(** The sorted leaves of the resolved tree are the sorted leaves of the
    given tree with the end pages of the loop. *)
Lemma sortedLeaves_calculateEndPages (chapters : list PdfChapter)
  (totalPages : Z) :
  sortedLeaves (calculateEndPages chapters totalPages) =
  withEndPages (sortedLeaves chapters) totalPages.
Proof.
  unfold sortedLeaves, calculateEndPages.
  rewrite setParentEndPages_leaves, storeLeaves_leaves.
  set (refs := combine _ (collectLeaves chapters)).
  rewrite (sort_map (stored _) byStartPageRef byStartPage).
  2:{ intros x y. unfold byStartPage, byStartPageRef, byStartPage.
      now rewrite !stored_startPage. }
  rewrite stored_leafEndPages.
  - f_equal. rewrite <- (sort_map snd byStartPageRef byStartPage) by reflexivity.
    unfold refs. now rewrite map_snd_combine_seq.
  - eapply Permutation_NoDup.
    + apply Permutation_map, Permutation_sym, sort_perm.
    + unfold refs. rewrite map_fst_combine_seq. apply seq_NoDup.
Qed.

(** ** Ranges of the sorted leaves *)

Lemma sortedLeaves_sorted (t : list PdfChapter) :
  StronglySorted startsBefore (sortedLeaves t).
Proof. apply (sort_strongly_sorted startPage). Qed.

Lemma StronglySorted_hd_le (x y : PdfChapter) (r : list PdfChapter) :
  StronglySorted startsBefore (x :: r) -> In y (x :: r) ->
  startPage x <= startPage y.
Proof.
  intros H [<-|Hin]; [lia|].
  inversion H as [|? ? _ Hall]; subst.
  rewrite Forall_forall in Hall. exact (Hall y Hin).
Qed.

Lemma withEndPages_nth_startPage (l : list PdfChapter) (totalPages : Z) :
  forall i b,
    nth_error (withEndPages l totalPages) i = Some b ->
    exists c, nth_error l i = Some c /\ startPage b = startPage c.
Proof.
  induction l as [|c rest IH]; intros [|i] b H; try discriminate.
  - injection H as <-. exists c. split; reflexivity.
  - exact (IH i b H).
Qed.

Lemma withEndPages_adjacent (l : list PdfChapter) (totalPages : Z) :
  forall i a b,
    nth_error (withEndPages l totalPages) i = Some a ->
    nth_error (withEndPages l totalPages) (S i) = Some b ->
    endPage a + 1 = startPage b.
Proof.
  induction l as [|c rest IH]; intros [|i] a b Ha Hb; try discriminate.
  - destruct rest as [|next rest']; [discriminate|].
    injection Ha as <-. injection Hb as <-. cbn. lia.
  - exact (IH i a b Ha Hb).
Qed.

Lemma withEndPages_separate (l : list PdfChapter) (totalPages : Z) :
  StronglySorted startsBefore l ->
  forall i j a b,
    (i < j)%nat ->
    nth_error (withEndPages l totalPages) i = Some a ->
    nth_error (withEndPages l totalPages) j = Some b ->
    endPage a < startPage b.
Proof.
  induction l as [|c rest IH]; intros Hs [|i] [|j] a b Hlt Ha Hb;
    try discriminate; try lia.
  - destruct rest as [|next rest']; [destruct j; discriminate|].
    injection Ha as <-. cbn [nth_error] in Hb.
    apply withEndPages_nth_startPage in Hb. destruct Hb as (c' & Hc' & ->).
    apply nth_error_In in Hc'.
    inversion Hs as [|? ? Hs' _]; subst.
    pose proof (StronglySorted_hd_le _ _ _ Hs' Hc'). cbn. lia.
  - inversion Hs as [|? ? Hs' _]; subst.
    apply (IH Hs' i j a b); [lia | exact Ha | exact Hb].
Qed.

Lemma withEndPages_union (l : list PdfChapter) (totalPages : Z) :
  StronglySorted startsBefore l ->
  Forall (fun c => startPage c <= totalPages) l ->
  forall first,
    hd_error l = Some first ->
    forall p,
      (exists c, In c (withEndPages l totalPages) /\ covers c p)
      <-> startPage first <= p <= totalPages.
Proof.
  induction l as [|c rest IH]; intros Hs Hb first Hf p; [discriminate|].
  injection Hf as <-.
  inversion Hs as [|? ? Hs' Hle]; subst. inversion Hb as [|? ? Hc Hb']; subst.
  destruct rest as [|next rest'].
  - cbn. unfold covers. split.
    + intros (c' & [<-|[]] & H). exact H.
    + intros H. eexists. split; [left; reflexivity | exact H].
  - specialize (IH Hs' Hb' next eq_refl p).
    inversion Hle as [|? ? Hcn _]; subst. unfold startsBefore in Hcn.
    inversion Hb' as [|? ? Hn _]; subst.
    cbn [withEndPages] in *. split.
    + intros (c' & [<-|Hin] & H).
      * unfold covers in H. cbn in H. lia.
      * assert (startPage next <= p <= totalPages) by (apply IH; eauto). lia.
    + intros H. destruct (Z_lt_le_dec p (startPage next)) as [Hp|Hp].
      * eexists. split; [left; reflexivity|]. unfold covers. cbn. lia.
      * destruct (proj2 IH (conj Hp (proj2 H))) as (c' & Hin & Hcov).
        exists c'. split; [right; exact Hin | exact Hcov].
Qed.

(** ** C2 *)

(** C2, as it holds.  For a tree with at least one leaf, after range
    resolution the leaves sorted by start page have consecutive ranges
    (each end page plus one is the next start page) and no two ranges
    share a page; and, when no leaf starts after the last page, the
    ranges together cover exactly the pages from the first leaf's start
    page to [totalPages], that is the whole of [1, totalPages] when the
    first leaf starts on page 1. *)
Theorem resolved_leaves_consecutive_and_cover
  (chapters : list PdfChapter) (totalPages : Z) :
  collectLeaves chapters <> [] ->
  Consecutive (sortedLeaves (calculateEndPages chapters totalPages))
  /\ Disjoint (sortedLeaves (calculateEndPages chapters totalPages))
  /\ exists first,
       hd_error (sortedLeaves (calculateEndPages chapters totalPages))
         = Some first
       /\ (Forall (fun c => startPage c <= totalPages)
             (collectLeaves chapters) ->
           UnionIs (sortedLeaves (calculateEndPages chapters totalPages))
             (startPage first) totalPages
           /\ (startPage first = 1 ->
               UnionIs (sortedLeaves (calculateEndPages chapters totalPages))
                 1 totalPages)).
Proof.
  intros Hne. rewrite sortedLeaves_calculateEndPages.
  pose proof (sortedLeaves_sorted chapters) as Hs.
  split; [|split].
  - intros i a b. apply withEndPages_adjacent.
  - intros i j a b Hlt Ha Hb0 p [Hpa Hpb].
    pose proof (withEndPages_separate _ _ Hs i j a b Hlt Ha Hb0).
    unfold covers in *. lia.
  - destruct (sortedLeaves chapters) as [|c rest] eqn:E.
    { exfalso. apply Hne. unfold sortedLeaves in E.
      exact (sort_nil_inv _ _ E). }
    eexists. split; [reflexivity|]. intros Hb.
    assert (Hb' : Forall (fun c => startPage c <= totalPages) (c :: rest)).
    { rewrite Forall_forall in *. intros x Hx. apply Hb.
      rewrite <- E in Hx. unfold sortedLeaves in Hx.
      now apply sort_in in Hx. }
    pose proof (withEndPages_union (c :: rest) totalPages Hs Hb' c eq_refl)
      as Hu.
    cbn [startPage setEndPage]. split.
    + exact Hu.
    + intros H1 p. rewrite <- H1. apply Hu.
Qed.

Lemma resolved_leaves_consecutive_and_cover_witness :
  collectLeaves Sample.book <> []
  /\ Forall (fun c => startPage c <= 30) (collectLeaves Sample.book)
  /\ Consecutive (sortedLeaves (calculateEndPages Sample.book 30))
  /\ Disjoint (sortedLeaves (calculateEndPages Sample.book 30))
  /\ exists first,
       hd_error (sortedLeaves (calculateEndPages Sample.book 30))
         = Some first
       /\ UnionIs (sortedLeaves (calculateEndPages Sample.book 30))
            (startPage first) 30
       /\ (startPage first = 1 ->
           UnionIs (sortedLeaves (calculateEndPages Sample.book 30)) 1 30).
Proof.
  assert (H1 : collectLeaves Sample.book <> []) by (vm_compute; discriminate).
  assert (H2 : Forall (fun c => startPage c <= 30)
                 (collectLeaves Sample.book)).
  { vm_compute. repeat constructor; discriminate. }
  split; [exact H1|]. split; [exact H2|].
  destruct (resolved_leaves_consecutive_and_cover Sample.book 30 H1)
    as (Hc & Hd & first & Hf & Hu).
  split; [exact Hc|]. split; [exact Hd|].
  exists first. split; [exact Hf | exact (Hu H2)].
Defined.

(** C2 as stated fails: a book whose only outline entry points to
    page 3 of 10 resolves to the single range 3 to 10, so pages 1 and 2
    lie in no leaf. *)
Lemma resolved_leaves_miss_first_pages :
  extractPdfChapters (Some Sample.lateOutline) 10
    = inr (calculateEndPages (parseOutline Sample.lateOutline 0) 10)
  /\ collectLeaves (parseOutline Sample.lateOutline 0) <> []
  /\ map (fun c => (startPage c, endPage c))
       (sortedLeaves (calculateEndPages (parseOutline Sample.lateOutline 0) 10))
     = [(3, 10)]
  /\ ~ UnionIs
        (sortedLeaves (calculateEndPages (parseOutline Sample.lateOutline 0) 10))
        1 10.
Proof.
  split; [reflexivity|]. split; [vm_compute; discriminate|].
  split; [reflexivity|]. intros H.
  destruct (proj2 (H 1) ltac:(lia)) as (c & Hin & Hcov).
  vm_compute in Hin. destruct Hin as [<-|[]].
  unfold covers in Hcov. cbn in Hcov. lia.
Qed.

(** ** A second run *)

Lemma storeLeaves_again_aux (w : list (Ref * Z)) (l : list PdfChapter) :
  Forall (fun c => forall k,
            storeLeafOf w (fst (storeLeafOf w c k)) k = storeLeafOf w c k) l ->
  forall k,
    storeLeaves w (fst (storeLeaves w l k)) k = storeLeaves w l k.
Proof.
  induction 1 as [|y l Hy Hl IHl]; intros k; [reflexivity|].
  cbn [storeLeaves]. specialize (Hy k).
  destruct (storeLeafOf w y k) as [y' k1]. specialize (IHl k1).
  destruct (storeLeaves w l k1) as [l' k2]. cbn [fst] in *.
  cbn [storeLeaves]. rewrite Hy, IHl. reflexivity.
Qed.

Lemma storeLeafOf_again (w : list (Ref * Z)) (c : PdfChapter) :
  forall k, storeLeafOf w (fst (storeLeafOf w c k)) k = storeLeafOf w c k.
Proof.
  induction c as [c IH] using PdfChapter_tree_ind. intros k.
  rewrite (storeLeafOf_eq w c). destruct (children c) as [|x r] eqn:E.
  - cbn [fst]. destruct (written w k) as [e|] eqn:Ew.
    + rewrite storeLeafOf_eq. cbn [children setEndPage]. rewrite E, Ew.
      reflexivity.
    + rewrite storeLeafOf_eq, E, Ew. reflexivity.
  - pose proof (storeLeaves_again_aux w _ IH k) as H.
    pose proof (storeLeaves_leaves_aux w (x :: r)) as Hlen.
    specialize (Hlen ltac:(apply Forall_forall; intros; apply storeLeafOf_leaves) k).
    destruct Hlen as (_ & _ & Hlen).
    destruct (storeLeaves w (x :: r) k) as [chs' k']. cbn [fst] in *.
    rewrite storeLeafOf_eq. cbn [children setChildren].
    destruct chs' as [|y r']; [discriminate|]. rewrite H. reflexivity.
Qed.

Lemma storeLeaves_again (w : list (Ref * Z)) (l : list PdfChapter) (k : Ref) :
  storeLeaves w (fst (storeLeaves w l k)) k = storeLeaves w l k.
Proof.
  apply storeLeaves_again_aux, Forall_forall.
  intros c _. apply storeLeafOf_again.
Qed.

Lemma storeLeaves_setParent_aux (w : list (Ref * Z)) (l : list PdfChapter) :
  Forall (fun c => forall k k',
            storeLeafOf w c k = (c, k') ->
            storeLeafOf w (setParentEndPagesOf c) k
              = (setParentEndPagesOf c, k')) l ->
  forall k k',
    storeLeaves w l k = (l, k') ->
    storeLeaves w (setParentEndPages l) k = (setParentEndPages l, k').
Proof.
  induction 1 as [|y l Hy Hl IHl]; intros k k' H; [exact H|].
  cbn [storeLeaves] in H. cbn [setParentEndPages map storeLeaves].
  destruct (storeLeafOf w y k) as [y' k1] eqn:Ey.
  destruct (storeLeaves w l k1) as [l' k2] eqn:El.
  injection H as -> -> ->.
  rewrite (Hy _ _ Ey). fold (setParentEndPages l).
  rewrite (IHl _ _ El). reflexivity.
Qed.

Lemma storeLeafOf_setParent (w : list (Ref * Z)) (c : PdfChapter) :
  forall k k',
    storeLeafOf w c k = (c, k') ->
    storeLeafOf w (setParentEndPagesOf c) k = (setParentEndPagesOf c, k').
Proof.
  induction c as [c IH] using PdfChapter_tree_ind. intros k k' H.
  rewrite setParentEndPagesOf_eq. destruct (children c) as [|x r] eqn:E.
  - exact H.
  - rewrite storeLeafOf_eq, E in H.
    destruct (storeLeaves w (x :: r) k) as [chs' k''] eqn:Es.
    injection H as Hc ->.
    assert (chs' = x :: r) as ->.
    { apply (f_equal children) in Hc. cbn [children setChildren] in Hc.
      congruence. }
    pose proof (storeLeaves_setParent_aux w _ IH _ _ Es) as H.
    cbv zeta. rewrite storeLeafOf_eq. cbn [children setEndPage setChildren].
    destruct (setParentEndPages (x :: r)) as [|y r'] eqn:E'; [discriminate|].
    rewrite H. reflexivity.
Qed.

Lemma storeLeaves_setParent (w : list (Ref * Z)) (l : list PdfChapter)
  (k k' : Ref) :
  storeLeaves w l k = (l, k') ->
  storeLeaves w (setParentEndPages l) k = (setParentEndPages l, k').
Proof.
  apply storeLeaves_setParent_aux, Forall_forall.
  intros c _. apply storeLeafOf_setParent.
Qed.

Lemma setParentEndPagesOf_again (c : PdfChapter) :
  setParentEndPagesOf (setParentEndPagesOf c) = setParentEndPagesOf c.
Proof.
  induction c as [c IH] using PdfChapter_tree_ind.
  destruct (children c) as [|x r] eqn:E.
  - rewrite (setParentEndPagesOf_eq c), E.
    rewrite setParentEndPagesOf_eq, E. reflexivity.
  - assert (Hroot : endPage (setParentEndPagesOf c)
                    = getLastDescendantEndPage (setParentEndPagesOf c)).
    { apply (setParentEndPagesOf_parents c).
      - rewrite nodesOf_eq. left. reflexivity.
      - rewrite setParentEndPagesOf_eq, E. cbn. discriminate. }
    assert (Hch : setParentEndPages (children (setParentEndPagesOf c))
                  = children (setParentEndPagesOf c)).
    { rewrite setParentEndPagesOf_eq, E. cbn [children setEndPage setChildren].
      clear E Hroot. unfold setParentEndPages.
      induction IH as [|y l Hy Hl IHl]; [reflexivity|].
      cbn [map]. rewrite Hy, IHl. reflexivity. }
    rewrite (setParentEndPagesOf_eq (setParentEndPagesOf c)).
    destruct (children (setParentEndPagesOf c)) as [|y r'] eqn:E'.
    + reflexivity.
    + cbv zeta. rewrite Hch. rewrite <- E'.
      assert (Hsame : setChildren (setParentEndPagesOf c)
                        (children (setParentEndPagesOf c))
                      = setParentEndPagesOf c)
        by (destruct (setParentEndPagesOf c); reflexivity).
      rewrite Hsame, <- Hroot.
      destruct (setParentEndPagesOf c); reflexivity.
Qed.

Lemma setParentEndPages_again (t : list PdfChapter) :
  setParentEndPages (setParentEndPages t) = setParentEndPages t.
Proof.
  unfold setParentEndPages. rewrite map_map. apply map_ext.
  intros c. apply setParentEndPagesOf_again.
Qed.

Lemma combine_seq_map {A B : Type} (g : nat * A -> B) (l : list A) :
  forall k,
    combine
      (seq k (List.length (map g (combine (seq k (List.length l)) l))))
      (map g (combine (seq k (List.length l)) l))
    = map (fun rc => (fst rc, g rc)) (combine (seq k (List.length l)) l).
Proof.
  induction l as [|x r IH]; intros k; [reflexivity|].
  cbn [List.length seq combine map fst]. f_equal. apply IH.
Qed.

Lemma leafEndPages_map (h : Ref * PdfChapter -> Ref * PdfChapter)
  (sorted : list (Ref * PdfChapter)) (totalPages : Z) :
  (forall rc, fst (h rc) = fst rc) ->
  (forall rc, startPage (snd (h rc)) = startPage (snd rc)) ->
  leafEndPages (map h sorted) totalPages = leafEndPages sorted totalPages.
Proof.
  intros H1 H2. induction sorted as [|[r c] rest IH]; [reflexivity|].
  cbn [map leafEndPages]. specialize (H1 (r, c)).
  destruct (h (r, c)) as [r0 c0] eqn:E. cbn [fst] in H1. subst r0.
  rewrite IH. f_equal. f_equal.
  destruct rest as [|[r' c'] rest']; [reflexivity|]. cbn [map].
  specialize (H2 (r', c')). destruct (h (r', c')). cbn [snd] in H2.
  now rewrite H2.
Qed.

(** ** C9 *)

(** C9.  Running [calculateEndPages] again on the tree it returned,
    with the same [totalPages], returns that tree unchanged: every
    node keeps its start page and its end page. *)
Theorem calculateEndPages_idempotent
  (chapters : list PdfChapter) (totalPages : Z) :
  calculateEndPages (calculateEndPages chapters totalPages) totalPages
    = calculateEndPages chapters totalPages
  /\ map (fun c => (startPage c, endPage c))
       (nodes (calculateEndPages (calculateEndPages chapters totalPages)
                 totalPages))
     = map (fun c => (startPage c, endPage c))
         (nodes (calculateEndPages chapters totalPages)).
Proof.
  assert (H : calculateEndPages (calculateEndPages chapters totalPages)
                totalPages
              = calculateEndPages chapters totalPages);
    [|split; [exact H | now rewrite H]].
  unfold calculateEndPages at 1.
  assert (Hl : collectLeaves (calculateEndPages chapters totalPages)
               = map (stored
                        (leafEndPages
                           (Js.sort byStartPageRef
                              (combine
                                 (seq 0 (List.length (collectLeaves chapters)))
                                 (collectLeaves chapters))) totalPages))
                   (combine (seq 0 (List.length (collectLeaves chapters)))
                      (collectLeaves chapters))).
  { unfold calculateEndPages.
    now rewrite setParentEndPages_leaves, storeLeaves_leaves. }
  rewrite Hl. set (refs := combine _ (collectLeaves chapters)).
  set (w := leafEndPages (Js.sort byStartPageRef refs) totalPages).
  unfold refs at 1 2. rewrite combine_seq_map. fold refs.
  rewrite (sort_map (fun rc => (fst rc, stored w rc))
             byStartPageRef byStartPageRef).
  2:{ intros x y. unfold byStartPageRef, byStartPage. cbn [snd].
      now rewrite !stored_startPage. }
  rewrite leafEndPages_map;
    [|reflexivity | intros rc; cbn [snd]; apply stored_startPage].
  fold w. unfold calculateEndPages. fold refs. fold w.
  pose proof (storeLeaves_again w chapters 0%nat) as Hagain.
  destruct (storeLeaves w chapters 0%nat) as [t1 n] eqn:Et1.
  cbn [fst] in *.
  rewrite (storeLeaves_setParent _ _ _ _ Hagain). cbn [fst].
  apply setParentEndPages_again.
Qed.

End PdfFacts.

(* ================================================================== *)
(** * Extraction without a table of contents *)
(* ================================================================== *)

Lemma calculateEndPages_length (chapters : list Pdf.PdfChapter)
  (totalPages : Z) :
  List.length (Pdf.calculateEndPages chapters totalPages)
  = List.length chapters.
Proof.
  unfold Pdf.calculateEndPages, Pdf.setParentEndPages. rewrite length_map.
  apply storeLeaves_leaves_aux, Forall_forall.
  intros c _. apply storeLeafOf_leaves.
Qed.

Lemma storeContents_nil_inv
  (w : list (nat * string)) (l : list Epub.EpubChapter) (k : nat) :
  fst (Epub.storeContents w l k) = [] -> l = [].
Proof.
  destruct l as [|x r]; [reflexivity|]. cbn [Epub.storeContents].
  destruct (Epub.storeContentOf w x k) as [x' k1].
  destruct (Epub.storeContents w r k1) as [r' k2]. discriminate.
Qed.

(** C5.  When parsing yields no top-level chapter, extraction raises the
    error saying that the file has no table of contents, for a PDF (an
    absent or empty outline) and for an EPUB (neither the navigation
    document nor the NCX gives an entry); and no extraction, of either
    format, returns an empty tree. *)
Theorem extraction_without_entries_fails :
  (forall (outline : option (list Pdf.OutlineItem)) (numPages : Z),
      (PdfSpec.topLevelEntries outline = [] ->
       Pdf.extractPdfChapters outline numPages = inl Pdf.noOutlineMessage)
      /\ Pdf.extractPdfChapters outline numPages <> inr [])
  /\ (forall (zip : string -> option string)
        (domRootfile : string -> option (option string))
        (domNavHref domNcxHref : string -> option string)
        (domTocList : string -> option (list Epub.NavItem))
        (domNavMap : string -> option (list Epub.NavPoint))
        (extractContentByAnchor : string -> string -> string),
        (forall opfPath basePath navHref ncxHref,
            Epub.parseContainer zip domRootfile = inr opfPath ->
            Epub.parseContentOpf zip domNavHref domNcxHref opfPath
              = inr (basePath, navHref, ncxHref) ->
            Epub.navigationChapters zip domTocList domNavMap basePath
              navHref ncxHref = [] ->
            Epub.extractEpubChapters zip domRootfile domNavHref domNcxHref
              domTocList domNavMap extractContentByAnchor
              = inl Epub.noNavigationMessage)
        /\ Epub.extractEpubChapters zip domRootfile domNavHref domNcxHref
             domTocList domNavMap extractContentByAnchor <> inr []).
Proof.
  split.
  - intros outline numPages. split.
    + destruct outline as [[|item rest]|]; try reflexivity. discriminate.
    + destruct outline as [[|item rest]|]; try discriminate.
      unfold Pdf.extractPdfChapters. intros H. injection H as H.
      apply (f_equal (@List.length _)) in H.
      rewrite calculateEndPages_length in H. discriminate.
  - intros zip domRootfile domNavHref domNcxHref domTocList domNavMap
      extractContentByAnchor. split.
    + intros opfPath basePath navHref ncxHref Hc Ho Hn.
      unfold Epub.extractEpubChapters, Epub.extractEpubChaptersTraced.
      rewrite Hc, Ho, Hn. reflexivity.
    + unfold Epub.extractEpubChapters, Epub.extractEpubChaptersTraced.
      destruct (Epub.parseContainer zip domRootfile) as [e|opfPath];
        [discriminate|].
      destruct (Epub.parseContentOpf zip domNavHref domNcxHref opfPath)
        as [e|[[basePath navHref] ncxHref]]; [discriminate|].
      destruct (Epub.navigationChapters zip domTocList domNavMap basePath
                  navHref ncxHref) as [|c chapters] eqn:E; [discriminate|].
      intros H. injection H as H.
      change (fst (Epub.storeContents
                     (Epub.contents
                        (Epub.loadLeaves zip extractContentByAnchor basePath
                           (Epub.collectLeaves (c :: chapters))))
                     (c :: chapters) 0) = []) in H.
      apply storeContents_nil_inv in H. discriminate.
Qed.

Lemma extraction_without_entries_fails_witness :
  PdfSpec.topLevelEntries (Some []) = []
  /\ Pdf.extractPdfChapters (Some []) 30 = inl Pdf.noOutlineMessage
  /\ Epub.navigationChapters Sample.epubZip (fun _ => None)
       Sample.epubNavMap "OEBPS" (Some "nav.xhtml") None = []
  /\ Epub.extractEpubChapters Sample.epubZip Sample.epubRootfile
       Sample.epubNavHref Sample.epubNcxHref (fun _ => None)
       Sample.epubNavMap (fun html _ => html)
     = inl Epub.noNavigationMessage.
Proof.
  split; [reflexivity|]. split; [|split; [reflexivity|]].
  - exact (proj1 (proj1 extraction_without_entries_fails (Some []) 30)
             eq_refl).
  - exact (proj1 (proj2 extraction_without_entries_fails
                    Sample.epubZip Sample.epubRootfile Sample.epubNavHref
                    Sample.epubNcxHref (fun _ => None) Sample.epubNavMap
                    (fun html _ => html))
             "OEBPS/content.opf" "OEBPS" (Some "nav.xhtml") None
             eq_refl eq_refl eq_refl).
Defined.

(* ================================================================== *)
(** * Navigation targets *)
(* ================================================================== *)

Section HrefFacts.
Import Epub EpubSpec.

Lemma includes_cons (x c : ascii) (r : string) :
  Js.includes (String x r) c = Ascii.eqb c x || Js.includes r c.
Proof. reflexivity. Qed.

Lemma split_no_separator (s : string) (c : ascii) :
  Js.includes s c = false -> Js.split s c = [s].
Proof.
  induction s as [|x r IH]; [reflexivity|].
  rewrite includes_cons. intros H. apply orb_false_iff in H as [Hx Hr].
  cbn [Js.split]. rewrite Ascii.eqb_sym, Hx, (IH Hr). reflexivity.
Qed.

Lemma split_at_first (pre post : string) (c : ascii) :
  Js.includes pre c = false ->
  Js.split (pre ++ String c post) c = pre :: Js.split post c.
Proof.
  induction pre as [|x r IH]; intros H.
  - cbn. rewrite Ascii.eqb_refl. reflexivity.
  - rewrite includes_cons in H. apply orb_false_iff in H as [Hx Hr].
    cbn [append Js.split]. rewrite Ascii.eqb_sym, Hx, (IH Hr). reflexivity.
Qed.

Lemma includes_separator (pre post : string) (c : ascii) :
  Js.includes (pre ++ String c post) c = true.
Proof.
  induction pre as [|x r IH]; cbn [append]; rewrite includes_cons.
  - now rewrite Ascii.eqb_refl.
  - rewrite IH. apply orb_true_r.
Qed.

Lemma splitHref_no_hash (hrefFull : string) :
  hashFree hrefFull -> splitHref hrefFull = (hrefFull, None).
Proof. unfold hashFree, splitHref. now intros ->. Qed.

Lemma splitHref_one_hash (pre post : string) :
  hashFree pre -> hashFree post ->
  splitHref (pre ++ "#" ++ post) = (pre, Some ("#" ++ post)).
Proof.
  unfold hashFree, splitHref. intros Hpre Hpost.
  change (pre ++ "#" ++ post) with (pre ++ String "#" post).
  rewrite includes_separator, split_at_first, split_no_separator by assumption.
  reflexivity.
Qed.

Lemma splitHref_more_hashes (pre mid rest : string) :
  hashFree pre -> hashFree mid ->
  splitHref (pre ++ "#" ++ mid ++ "#" ++ rest) = (pre, Some ("#" ++ mid)).
Proof.
  unfold hashFree, splitHref. intros Hpre Hmid.
  change (pre ++ "#" ++ mid ++ "#" ++ rest)
    with (pre ++ String "#" (mid ++ String "#" rest)).
  rewrite includes_separator, !split_at_first by assumption. reflexivity.
Qed.

Lemma str_app_assoc (a b c : string) : (a ++ b) ++ c = a ++ b ++ c.
Proof. induction a as [|x a IH]; cbn; [reflexivity | now rewrite IH]. Qed.

Lemma NavItem_tree_ind (P : NavItem -> Prop) :
  (forall it, (forall sub, subList it = Some sub -> Forall P sub) -> P it) ->
  forall it, P it.
Proof.
  intros step. fix IH 1. intros [lk [l|]]; apply step; cbn [subList].
  - intros sub [= <-].
    induction l as [|x r IHr]; constructor; [apply IH | exact IHr].
  - intros sub [=].
Qed.

Lemma NavPoint_tree_ind (P : NavPoint -> Prop) :
  (forall np, Forall P (navPoints np) -> P np) -> forall np, P np.
Proof.
  intros step. fix IH 1. intros [t s nps]. apply step. cbn [navPoints].
  induction nps as [|x r IHr]; constructor; [apply IH | exact IHr].
Qed.

Lemma parseNavItem_some (it : NavItem) (p : string) (i : nat) (lvl : Z)
  (c : EpubChapter) :
  parseNavItem it p i lvl = Some c ->
  id c = p ++ "-" ++ Js.string_of_nat i
  /\ children c
     = match subList it with
       | None => []
       | Some sub =>
           parseNavItems sub (p ++ "-" ++ Js.string_of_nat i) 0 (lvl + 1)
       end.
Proof.
  destruct it as [[[hrefAttr text]|] sub]; [|discriminate].
  cbn [parseNavItem link subList]. destruct (splitHref hrefAttr) as [h a].
  intros [= <-]. cbn [id children]. split; [reflexivity|].
  destruct sub as [l|]; [|reflexivity].
  generalize 0%nat. induction l as [|x r IH]; intros n; [reflexivity|].
  cbn [parseNavItems].
  rewrite (IH (S n)). reflexivity.
Qed.

Lemma parseNavPoint_some (np : NavPoint) (p : string) (lvl : Z)
  (c : EpubChapter) :
  parseNavPoint np p lvl = Some c ->
  id c = p
  /\ children c = parseNavPoints (navPoints np) (p ++ "-") 0 (lvl + 1).
Proof.
  destruct np as [[text|] [src|] nps]; try discriminate.
  cbn [parseNavPoint labelText contentSrc navPoints].
  destruct (splitHref _) as [h a].
  intros [= <-]. cbn [id children]. split; [reflexivity|].
  generalize 0%nat. induction nps as [|x r IH]; intros n; [reflexivity|].
  cbn [parseNavPoints]. rewrite (IH (S n)), str_app_assoc. reflexivity.
Qed.

Lemma parseNavPoint_location (navPoint : NavPoint) (idPrefix : string)
  (lvl : Z) (text : string) (srcAttr : option string) :
  labelText navPoint = Some text -> contentSrc navPoint = Some srcAttr ->
  option_map location (parseNavPoint navPoint idPrefix lvl)
  = Some (splitHref (match srcAttr with Some s => s | None => "" end)).
Proof.
  destruct navPoint as [lt cs nps]. cbn [labelText contentSrc].
  intros -> ->. cbn [parseNavPoint labelText contentSrc].
  destruct (splitHref _) as [h a]. reflexivity.
Qed.

Lemma parseNavItem_location (item : NavItem) (idPrefix : string)
  (index : nat) (lvl : Z) :
  option_map location (parseNavItem item idPrefix index lvl)
  = option_map (fun l => splitHref (fst l)) (link item).
Proof.
  destruct item as [[[hrefAttr text]|] sub]; [|reflexivity].
  cbn [parseNavItem link]. destruct (splitHref hrefAttr) as [h a] eqn:E.
  cbn [option_map fst]. rewrite E. reflexivity.
Qed.

Lemma parseNavItems_location (l : list NavItem) (idPrefix : string)
  (lvl : Z) :
  forall index,
    map location (parseNavItems l idPrefix index lvl)
    = map splitHref (targets l).
Proof.
  induction l as [|it rest IH]; intros index; [reflexivity|].
  cbn [parseNavItems targets flat_map].
  pose proof (parseNavItem_location it idPrefix index lvl) as H.
  destruct (parseNavItem it idPrefix index lvl) as [c|];
    destruct (link it) as [[hrefAttr text]|]; try discriminate.
  - cbn [option_map fst] in H. injection H as H.
    cbn [map app]. rewrite H. f_equal. apply IH.
  - apply IH.
Qed.

Lemma epub_nodesOf_eq (c : EpubChapter) :
  nodesOf c = c :: nodes (children c).
Proof. destruct c; reflexivity. Qed.

Lemma parseNavPoints_locations (l : list NavPoint) :
  Forall (fun np => forall p lvl,
            map location (entries (parseNavPoint np p lvl))
            = map splitHref (pointTargets np)) l ->
  forall prefix index lvl,
    map location (nodes (parseNavPoints l prefix index lvl))
    = map splitHref (flat_map pointTargets l).
Proof.
  induction 1 as [|x r Hx Hr IH]; intros prefix index lvl; [reflexivity|].
  cbn [parseNavPoints flat_map]. rewrite map_app.
  specialize (Hx (prefix ++ Js.string_of_nat index) lvl).
  destruct (parseNavPoint x (prefix ++ Js.string_of_nat index) lvl) as [c|].
  - unfold nodes. cbn [flat_map entries] in *.
    rewrite map_app, Hx. f_equal. apply IH.
  - cbn [entries map] in Hx. rewrite <- Hx. apply IH.
Qed.

Lemma parseNavPoint_locations (np : NavPoint) :
  forall p lvl,
    map location (entries (parseNavPoint np p lvl))
    = map splitHref (pointTargets np).
Proof.
  induction np as [np IH] using NavPoint_tree_ind. intros p lvl.
  destruct (parseNavPoint np p lvl) as [c|] eqn:E.
  - destruct (parseNavPoint_some _ _ _ _ E) as [_ Ech].
    destruct np as [[text|] [srcAttr|] nps]; try discriminate E.
    pose proof (parseNavPoint_location
                  (MkNavPoint (Some text) (Some srcAttr) nps) p lvl text
                  srcAttr eq_refl eq_refl) as Hl.
    rewrite E in Hl. cbn [option_map] in Hl. injection Hl as Hl.
    cbn [entries pointTargets labelText contentSrc navPoints map] in *.
    rewrite epub_nodesOf_eq. cbn [map]. rewrite Hl, Ech. f_equal.
    apply (parseNavPoints_locations nps IH).
  - destruct np as [[text|] [srcAttr|] nps]; try reflexivity.
    exfalso.
    pose proof (parseNavPoint_location
                  (MkNavPoint (Some text) (Some srcAttr) nps) p lvl text
                  srcAttr eq_refl eq_refl) as Hl.
    rewrite E in Hl. discriminate Hl.
Qed.

Lemma parseNavItems_locations (l : list NavItem) :
  Forall (fun it => forall p i lvl,
            map location (entries (parseNavItem it p i lvl))
            = map splitHref (itemTargets it)) l ->
  forall idPrefix index lvl,
    map location (nodes (parseNavItems l idPrefix index lvl))
    = map splitHref (flat_map itemTargets l).
Proof.
  induction 1 as [|x r Hx Hr IH]; intros idPrefix index lvl; [reflexivity|].
  cbn [parseNavItems flat_map]. rewrite map_app.
  specialize (Hx idPrefix index lvl).
  destruct (parseNavItem x idPrefix index lvl) as [c|].
  - unfold nodes. cbn [flat_map entries] in *.
    rewrite map_app, Hx. f_equal. apply IH.
  - cbn [entries map] in Hx. rewrite <- Hx. apply IH.
Qed.

Lemma parseNavItem_locations (it : NavItem) :
  forall p i lvl,
    map location (entries (parseNavItem it p i lvl))
    = map splitHref (itemTargets it).
Proof.
  induction it as [it IH] using NavItem_tree_ind. intros p i lvl.
  pose proof (parseNavItem_location it p i lvl) as Hl.
  destruct (parseNavItem it p i lvl) as [c|] eqn:E.
  - destruct (parseNavItem_some _ _ _ _ _ E) as [_ Ech].
    destruct it as [[[hrefAttr text]|] sub]; [|discriminate Hl].
    cbn [option_map link fst] in Hl. injection Hl as Hl.
    cbn [entries itemTargets link subList map] in *.
    rewrite epub_nodesOf_eq. cbn [map]. rewrite Hl, Ech. f_equal.
    destruct sub as [l|]; [|reflexivity].
    apply (parseNavItems_locations l (IH l eq_refl)).
  - destruct it as [[[hrefAttr text]|] sub]; [discriminate Hl | reflexivity].
Qed.

(** C7, as it holds.  For every entry of the navigation, at any depth,
    both parsers record the pair computed by [splitHref] from its
    target: the locations of the chapters of the returned tree, a
    parent before its children, are the split targets of the entries
    that are kept, in document order.  A target without [#] is kept
    whole and has no anchor.  Otherwise the resource path is the text
    before the first [#], and the anchor is [#] followed by the text
    between the first and the second [#]: everything after the first
    [#] when there is no second one, and nothing of what follows a
    second [#]. *)
Theorem navigation_target_split :
  (forall navPoint idPrefix lvl,
      map location (entries (parseNavPoint navPoint idPrefix lvl))
      = map splitHref (pointTargets navPoint))
  /\ (forall topLevelNavPoints prefix index lvl,
        map location (nodes (parseNavPoints topLevelNavPoints prefix index lvl))
        = map splitHref (flat_map pointTargets topLevelNavPoints))
  /\ (forall listElement idPrefix lvl,
        map location (nodes (parseNavList listElement idPrefix lvl))
        = map splitHref (flat_map itemTargets listElement))
  /\ (forall navPoint idPrefix lvl text srcAttr,
        labelText navPoint = Some text ->
        contentSrc navPoint = Some srcAttr ->
        option_map location (parseNavPoint navPoint idPrefix lvl)
        = Some (splitHref (match srcAttr with Some s => s | None => "" end)))
  /\ (forall listElement idPrefix lvl,
        map location (parseNavList listElement idPrefix lvl)
        = map splitHref (targets listElement))
  /\ (forall hrefFull,
        hashFree hrefFull -> splitHref hrefFull = (hrefFull, None))
  /\ (forall pre post,
        hashFree pre -> hashFree post ->
        splitHref (pre ++ "#" ++ post) = (pre, Some ("#" ++ post)))
  /\ (forall pre mid rest,
        hashFree pre -> hashFree mid ->
        splitHref (pre ++ "#" ++ mid ++ "#" ++ rest)
        = (pre, Some ("#" ++ mid))).
Proof.
  split; [exact parseNavPoint_locations|].
  split.
  { intros l prefix index lvl. apply parseNavPoints_locations.
    apply Forall_forall. intros np _. apply parseNavPoint_locations. }
  split.
  { intros l idPrefix lvl. unfold parseNavList.
    apply parseNavItems_locations.
    apply Forall_forall. intros it _. apply parseNavItem_locations. }
  split; [exact parseNavPoint_location|].
  split; [intros; apply parseNavItems_location|].
  split; [exact splitHref_no_hash|].
  split; [exact splitHref_one_hash | exact splitHref_more_hashes].
Qed.

Lemma navigation_target_split_witness :
  hashFree "text/ch1.xhtml" /\ hashFree "s1"
  /\ splitHref ("text/ch1.xhtml" ++ "#" ++ "s1")
     = ("text/ch1.xhtml", Some ("#" ++ "s1")).
Proof.
  assert (H1 : hashFree "text/ch1.xhtml") by reflexivity.
  assert (H2 : hashFree "s1") by reflexivity.
  split; [exact H1|]. split; [exact H2|].
  exact (proj1 (proj2 (proj2 (proj2 (proj2 (proj2
           (proj2 navigation_target_split)))))) _ _ H1 H2).
Defined.

(** C7 as stated fails on a target with two [#]: the text after the
    first [#] of [a.html#s1#x] is [s1#x], the anchor recorded by either
    parser is [#s1]. *)
Lemma anchor_stops_at_second_hash :
  option_map location
    (parseNavPoint (MkNavPoint (Some "One") (Some (Some "a.html#s1#x")) [])
       "chapter-0" 0)
  = Some ("a.html", Some "#s1")
  /\ map location
       (parseNavList [MkNavItem (Some ("a.html#s1#x", "One")) None]
          "chapter" 0)
     = [("a.html", Some "#s1")]
  /\ Some "#s1" <> Some "s1#x"
  /\ Some "#s1" <> Some "#s1#x".
Proof. repeat split; try reflexivity; discriminate. Qed.

End HrefFacts.

(* ================================================================== *)
(** * Content loading *)
(* ================================================================== *)

Section LoadFacts.
Import Epub.
Variable zip : string -> option string.
Variable extractContentByAnchor : string -> string -> string.
Variable basePath : string.

Lemma assignContent_frame (rc : nat * EpubChapter) (st : LoadState) :
  fileCache (assignContent extractContentByAnchor basePath rc st)
    = fileCache st
  /\ reads (assignContent extractContentByAnchor basePath rc st) = reads st.
Proof.
  unfold assignContent. destruct rc as [r chapter].
  destruct (Js.get (fileCache st) (chapterPathOf basePath chapter)) as [c|];
    [|split; reflexivity].
  destruct (Js.truthyStr (Some c)); split; reflexivity.
Qed.

Lemma startCallbacks_reads (cache0 : Js.StrMap)
  (batch : list (nat * EpubChapter)) :
  forall st,
    reads (fold_left
             (startCallback zip extractContentByAnchor basePath cache0)
             batch st)
    = (reads st
       ++ map (fun rc => chapterPathOf basePath (snd rc))
            (filter (fun rc => awaitsRead zip cache0 basePath (snd rc))
               batch))%list.
Proof.
  induction batch as [|rc rest IH]; intros st; cbn [fold_left filter map].
  - now rewrite app_nil_r.
  - rewrite IH. unfold startCallback.
    destruct (awaitsRead zip cache0 basePath (snd rc)).
    + cbn [reads map]. now rewrite <- app_assoc.
    + now rewrite (proj2 (assignContent_frame rc st)).
Qed.

Lemma resumeCallbacks_reads (cache0 : Js.StrMap)
  (batch : list (nat * EpubChapter)) :
  forall st,
    reads (fold_left
             (resumeCallback zip extractContentByAnchor basePath cache0)
             batch st)
    = reads st.
Proof.
  induction batch as [|rc rest IH]; intros st; cbn [fold_left];
    [reflexivity|].
  rewrite IH. unfold resumeCallback.
  destruct (awaitsRead zip cache0 basePath (snd rc)); [|reflexivity].
  destruct (zip (chapterPathOf basePath (snd rc))); [|reflexivity].
  now rewrite (proj2 (assignContent_frame rc _)).
Qed.

(** The reads of one batch: one per callback that finds its path absent
    from the cache as it stood when the batch started. *)
Lemma loadBatch_reads (st : LoadState) (batch : list (nat * EpubChapter)) :
  reads (loadBatch zip extractContentByAnchor basePath st batch)
  = (reads st
     ++ map (fun rc => chapterPathOf basePath (snd rc))
          (filter (fun rc => awaitsRead zip (fileCache st) basePath (snd rc))
             batch))%list.
Proof.
  unfold loadBatch. rewrite resumeCallbacks_reads. apply startCallbacks_reads.
Qed.

End LoadFacts.

(** C6 fails on the code.  For an EPUB whose navigation lists two anchors
    of one content file, extraction succeeds with the two leaf chapters
    and decompresses that file twice: both callbacks of the batch test
    the cache before either has filled it. *)
Theorem shared_resource_read_per_leaf
  (extractContentByAnchor : string -> string -> string) :
  exists chapters,
    Epub.extractEpubChaptersTraced Sample.epubZip Sample.epubRootfile
      Sample.epubNavHref Sample.epubNcxHref Sample.epubTocList
      Sample.epubNavMap extractContentByAnchor
    = inr (chapters, ["OEBPS/ch1.xhtml"; "OEBPS/ch1.xhtml"])
    /\ map EpubSpec.location chapters
       = [("ch1.xhtml", Some "#s1"); ("ch1.xhtml", Some "#s2")]
    /\ map Epub.content chapters
       = [Some (extractContentByAnchor "<html>text</html>" "#s1");
          Some (extractContentByAnchor "<html>text</html>" "#s2")].
Proof. eexists. split; [reflexivity|]. split; reflexivity. Qed.

(* ================================================================== *)
(** * Export planning *)
(* ================================================================== *)

Section PlannerFacts.
Import App AppSpec.

Lemma Chapter_tree_ind (P : Chapter -> Prop) :
  (forall c, Forall P (children c) -> P c) -> forall c, P c.
Proof.
  intros H. fix IH 1. intros [i t s e ct l chs]. apply H. simpl.
  induction chs as [|x r IHr]; constructor; [apply IH | exact IHr].
Qed.

Lemma has_true_iff (s : Js.StrSet) (x : string) :
  Js.has s x = true <-> In x s.
Proof.
  unfold Js.has. rewrite existsb_exists. split.
  - intros (y & Hy & E). apply String.eqb_eq in E. now subst.
  - intros H. exists x. split; [exact H | apply String.eqb_refl].
Qed.

Lemma has_ext (s1 s2 : Js.StrSet) :
  (forall i, In i s1 <-> In i s2) -> forall x, Js.has s1 x = Js.has s2 x.
Proof.
  intros H x. destruct (Js.has s1 x) eqn:E1, (Js.has s2 x) eqn:E2;
    try reflexivity.
  - apply has_true_iff, H, has_true_iff in E1. congruence.
  - apply has_true_iff, H, has_true_iff in E2. congruence.
Qed.

Lemma filter_all {A : Type} (f : A -> bool) (l : list A) :
  (forall x, In x l -> f x = true) -> filter f l = l.
Proof.
  induction l as [|x r IH]; intros H; [reflexivity|].
  cbn [filter]. rewrite (H x (or_introl eq_refl)), IH; [reflexivity|].
  intros y Hy. apply H. now right.
Qed.


Lemma app_nodesOf_eq (c : Chapter) : nodesOf c = c :: nodes (children c).
Proof. destruct c; reflexivity. Qed.

Lemma idsOf_nodesOf (c : Chapter) : idsOf c = map id (nodesOf c).
Proof.
  induction c as [c IH] using Chapter_tree_ind.
  destruct c as [i t s e ct l chs]. cbn [idsOf nodesOf children id map] in *.
  f_equal. induction IH as [|y r Hy Hr IHr]; [reflexivity|].
  cbn [flat_map]. now rewrite map_app, Hy, IHr.
Qed.

Lemma getAllChapterIds_nodes (t : list Chapter) :
  getAllChapterIds t = map id (nodes t).
Proof.
  unfold getAllChapterIds, nodes. induction t as [|c r IH]; [reflexivity|].
  cbn [flat_map]. now rewrite map_app, idsOf_nodesOf, IH.
Qed.

Lemma findSelectedOf_filter (sel : Js.StrSet) (c : Chapter) :
  findSelectedOf sel c = filter (fun ch => Js.has sel (id ch)) (nodesOf c).
Proof.
  induction c as [c IH] using Chapter_tree_ind.
  destruct c as [i t s e ct l chs].
  cbn [findSelectedOf nodesOf children id filter] in *.
  assert (H : flat_map (findSelectedOf sel) chs
              = filter (fun ch => Js.has sel (id ch)) (flat_map nodesOf chs)).
  { induction IH as [|y r Hy Hr IHr]; [reflexivity|].
    cbn [flat_map]. now rewrite filter_app, Hy, IHr. }
  rewrite H. destruct (Js.has sel i); reflexivity.
Qed.

Lemma findSelectedChapters_filter (sel : Js.StrSet) (t : list Chapter) :
  findSelectedChapters sel t = filter (fun ch => Js.has sel (id ch)) (nodes t).
Proof.
  unfold findSelectedChapters, nodes. induction t as [|c r IH]; [reflexivity|].
  cbn [flat_map]. now rewrite filter_app, findSelectedOf_filter, IH.
Qed.

Lemma getAllDescendants_nodes (c : Chapter) :
  getAllDescendants c = nodes (children c).
Proof.
  induction c as [c IH] using Chapter_tree_ind.
  destruct c as [i t s e ct l chs]. cbn [getAllDescendants children] in *.
  unfold nodes. induction IH as [|y r Hy Hr IHr]; [reflexivity|].
  cbn [flat_map]. rewrite IHr, Hy, app_nodesOf_eq. reflexivity.
Qed.

Lemma in_app_nodes (t : list Chapter) (n : Chapter) :
  In n (nodes t) <-> exists c, In c t /\ In n (nodesOf c).
Proof. unfold nodes. apply in_flat_map. Qed.

Lemma leavesOf_nodesOf (c : Chapter) :
  forall l, In l (leavesOf c) -> In l (nodesOf c).
Proof.
  induction c as [c IH] using Chapter_tree_ind. intros l.
  destruct c as [i t s e ct lv chs]. cbn [leavesOf nodesOf children] in *.
  destruct chs as [|x r]; [intros H; exact H|].
  intros H. right. apply in_flat_map in H. destruct H as (y & Hy & Hl).
  apply in_flat_map. exists y. split; [exact Hy|].
  rewrite Forall_forall in IH. exact (IH y Hy l Hl).
Qed.

Lemma leaves_nodes (t : list Chapter) (l : Chapter) :
  In l (leaves t) -> In l (nodes t).
Proof.
  unfold leaves, nodes. rewrite !in_flat_map. intros (c & Hc & Hl).
  exists c. split; [exact Hc | now apply leavesOf_nodesOf].
Qed.

Lemma flat_nodes_leaves (t : list Chapter) :
  Forall (fun c => children c = []) t -> nodes t = leaves t.
Proof.
  unfold nodes, leaves. induction 1 as [|c r Hc Hr IH]; [reflexivity|].
  cbn [flat_map]. rewrite IH. f_equal.
  destruct c as [i tt s e ct l chs]. cbn [children] in Hc. subst chs.
  reflexivity.
Qed.

(** ** C1 *)

(** What the planner does when every chapter of a non-empty tree is
    selected and the mode is [merge]: one task with the generic name
    and no parent titles, whose units are all the chapters of the tree,
    the chapters with children included, stably sorted by start page
    for a PDF and in document order for an EPUB. *)
Lemma full_selection_merge_plan
  (fileType : FileType) (chapters : list Chapter)
  (selectedChapters mergedChapters : Js.StrSet) :
  chapters <> [] ->
  (forall i, In i selectedChapters <-> In i (getAllChapterIds chapters)) ->
  onExport fileType chapters selectedChapters merge mergedChapters
    = [MkExportTask mergedName
         (Js.sort (byStartPage fileType) (nodes chapters)) [] "merged"]
  /\ Permutation (Js.sort (byStartPage fileType) (nodes chapters))
       (nodes chapters)
  /\ (fileType = epub ->
      Js.sort (byStartPage fileType) (nodes chapters) = nodes chapters).
Proof.
  intros Hne Hsel. split; [|split].
  - unfold onExport, handleExport.
    rewrite findSelectedChapters_filter, filter_all.
    2:{ intros x Hx. apply has_true_iff, Hsel.
        rewrite getAllChapterIds_nodes. now apply in_map. }
    rewrite getAllChapterIds_nodes, length_map, Nat.eqb_refl.
    destruct chapters as [|c r]; [congruence|].
    unfold nodes at 1. cbn [flat_map]. rewrite app_nodesOf_eq. reflexivity.
  - apply sort_perm.
  - intros ->. apply (sort_const_eq (nodes chapters)).
Qed.

(** C1 fails on the code.  Take the book with part A (pages 1 to 19;
    sections A1 on pages 1 to 9 and A2 on pages 10 to 19) and chapter B
    (pages 20 to 30), all four chapters selected, in [merge] mode.  One
    task is planned, with the generic name and no parent titles, but
    its units are A, A1, A2 and B: part A is there with its whole range
    beside its sections, although the leaves are A1, A2 and B.  The
    export loop copies the range of every unit, so pages 1 to 19 are
    copied twice.  On the same selection the other branches of the
    planner (A merge-flagged, or no flag at all) export the ranges of
    the three leaves and nothing else. *)
Theorem full_merge_task_holds_parent_range :
  getAllChapterIds (Sample.loaded Sample.outline 30)
    = ["chapter-0"; "chapter-0-0"; "chapter-0-1"; "chapter-1"]
  /\ map (fun t => (name t, parentTitles t))
       (onExport pdf (Sample.loaded Sample.outline 30)
          ["chapter-0"; "chapter-0-0"; "chapter-0-1"; "chapter-1"] merge [])
     = [(mergedName, [])]
  /\ unitIds
       (onExport pdf (Sample.loaded Sample.outline 30)
          ["chapter-0"; "chapter-0-0"; "chapter-0-1"; "chapter-1"] merge [])
     = [["chapter-0"; "chapter-0-0"; "chapter-0-1"; "chapter-1"]]
  /\ unitPages
       (onExport pdf (Sample.loaded Sample.outline 30)
          ["chapter-0"; "chapter-0-0"; "chapter-0-1"; "chapter-1"] merge [])
     = [[(Some (Fin 1), Some (Fin 19)); (Some (Fin 1), Some (Fin 9));
         (Some (Fin 10), Some (Fin 19)); (Some (Fin 20), Some (Fin 30))]]
  /\ map id (leaves (Sample.loaded Sample.outline 30))
     = ["chapter-0-0"; "chapter-0-1"; "chapter-1"]
  /\ unitPages
       (onExport pdf (Sample.loaded Sample.outline 30)
          ["chapter-0"; "chapter-0-0"; "chapter-0-1"; "chapter-1"] separate
          ["chapter-0"])
     = [[(Some (Fin 1), Some (Fin 9)); (Some (Fin 10), Some (Fin 19))];
        [(Some (Fin 20), Some (Fin 30))]]
  /\ unitPages
       (onExport pdf (Sample.loaded Sample.outline 30)
          ["chapter-0"; "chapter-0-0"; "chapter-0-1"; "chapter-1"] separate
          [])
     = [[(Some (Fin 1), Some (Fin 9))]; [(Some (Fin 10), Some (Fin 19))];
        [(Some (Fin 20), Some (Fin 30))]].
Proof. repeat split; reflexivity. Qed.

(** ** Sorting chapters by start page *)

Lemma leNum_refl (a : number) : leNum a a.
Proof. destruct a; unfold leNum; cbn; [apply Z.ltb_irrefl | reflexivity]. Qed.

Lemma leNum_trans (a b c : number) : leNum a b -> leNum b c -> leNum a c.
Proof.
  unfold leNum. destruct a, b, c; cbn; try congruence.
  rewrite !Z.ltb_ge. lia.
Qed.

Lemma leNum_antisym (a b : number) : leNum a b -> leNum b a -> a = b.
Proof.
  unfold leNum. destruct a, b; cbn; try congruence.
  rewrite !Z.ltb_ge. intros. f_equal. lia.
Qed.

Lemma subSign_le (a b : number) : subSign a b <> Gt <-> leNum a b.
Proof.
  unfold leNum. destruct a as [x|], b as [y|]; cbn; try (split; congruence).
  rewrite Z.ltb_ge. destruct (Z.compare_spec x y); split; intros; try lia;
    congruence.
Qed.

Lemma subSign_gt_le (a b : number) : subSign a b = Gt -> leNum b a.
Proof.
  unfold leNum. destruct a as [x|], b as [y|]; cbn; try congruence.
  rewrite Z.ltb_ge. destruct (Z.compare_spec x y); intros; try lia;
    congruence.
Qed.

Lemma insert_sorted_pdf (x : Chapter) (l : list Chapter) :
  Sorted (fun a b => leNum (startKey a) (startKey b)) l ->
  Sorted (fun a b => leNum (startKey a) (startKey b))
    (Js.insert (byStartPage pdf) x l).
Proof.
  induction 1 as [|y r Hs IH Hd]; cbn [Js.insert].
  - repeat constructor.
  - unfold byStartPage at 1. cbn [isPdf]. fold (startKey x) (startKey y).
    destruct (subSign (startKey x) (startKey y)) eqn:E.
    + constructor; [constructor; assumption|]. constructor.
      apply subSign_le. congruence.
    + constructor; [constructor; assumption|]. constructor.
      apply subSign_le. congruence.
    + constructor; [exact IH|].
      destruct Hd as [|z r' Hz]; cbn [Js.insert].
      * constructor. now apply subSign_gt_le.
      * unfold byStartPage. cbn [isPdf]. fold (startKey x) (startKey z).
        destruct (subSign (startKey x) (startKey z)) eqn:E';
          constructor; try (now apply subSign_gt_le); exact Hz.
Qed.

Lemma sort_sorted_pdf (l : list Chapter) :
  StronglySorted (fun a b => leNum (startKey a) (startKey b))
    (Js.sort (byStartPage pdf) l).
Proof.
  apply Sorted_StronglySorted.
  - intros a b c. apply leNum_trans.
  - induction l as [|x r IH]; cbn [Js.sort fold_right]; [constructor|].
    apply insert_sorted_pdf, IH.
Qed.

Lemma mathMin_le (xs : list number) (x : number) :
  In x xs -> leNum (mathMin xs) x.
Proof.
  induction xs as [|y r IH]; [intros []|].
  cbn [mathMin fold_right]. fold (mathMin r). unfold minNum.
  intros [<-|Hin].
  - destruct (ltNum (mathMin r) y) eqn:E; [|apply leNum_refl].
    unfold leNum. destruct (mathMin r), y; cbn in *; try congruence.
    rewrite Z.ltb_lt in E. rewrite Z.ltb_ge. lia.
  - specialize (IH Hin).
    destruct (ltNum (mathMin r) y) eqn:E; [exact IH|].
    eapply leNum_trans; [exact E | exact IH].
Qed.

Lemma mathMin_in (xs : list number) : xs <> [] -> In (mathMin xs) xs.
Proof.
  induction xs as [|y r IH]; [congruence|]. intros _.
  cbn [mathMin fold_right]. fold (mathMin r). unfold minNum.
  destruct (ltNum (mathMin r) y) eqn:E; [|left; reflexivity].
  right. apply IH. intros ->. cbn in E. discriminate.
Qed.

(** With truthy start pages, [Math.min] of the start pages is the start
    page of the chapter that the sort puts first. *)
Lemma firstStartPage_sorted_head (l : list Chapter) :
  l <> [] ->
  Forall (fun d => truthyNum (startPage d) = true) l ->
  exists d,
    hd_error (Js.sort (byStartPage pdf) l) = Some d
    /\ startPage d = Some (firstStartPage l).
Proof.
  intros Hne Ht.
  assert (Hkey : forall d, In d l ->
                   startPage d = Some (startKey d)
                   /\ orInfinity (startPage d) = startKey d).
  { rewrite Forall_forall in Ht. intros d Hd. specialize (Ht d Hd).
    unfold startKey. destruct (startPage d) as [[z|]|]; try discriminate.
    - destruct z; try discriminate; split; reflexivity.
    - split; reflexivity. }
  pose proof (sort_sorted_pdf l) as Hs.
  destruct (Js.sort (byStartPage pdf) l) as [|d rest] eqn:E.
  { apply sort_nil_inv in E. congruence. }
  assert (Hd : In d l) by (apply (sort_in (byStartPage pdf)); rewrite E; now left).
  exists d. split; [reflexivity|].
  rewrite (proj1 (Hkey d Hd)). f_equal. apply leNum_antisym.
  - assert (Hin : In (firstStartPage l)
                    (map (fun ch => orInfinity (startPage ch)) l)).
    { apply mathMin_in. destruct l; [congruence | discriminate]. }
    apply in_map_iff in Hin. destruct Hin as (d1 & E1 & Hd1).
    rewrite <- E1, (proj2 (Hkey d1 Hd1)).
    assert (Hd1' : In d1 (d :: rest))
      by (rewrite <- E; now apply (sort_in (byStartPage pdf))).
    destruct Hd1' as [<-|Hr]; [apply leNum_refl|].
    inversion Hs as [|? ? _ Hall]; subst.
    rewrite Forall_forall in Hall. exact (Hall d1 Hr).
  - rewrite <- (proj2 (Hkey d Hd)). apply mathMin_le.
    apply in_map_iff. exists d. split; [reflexivity | exact Hd].
Qed.

(** ** C3 *)

(** C3, as it holds.  In a PDF, when [processChapter] reaches a
    merge-flagged chapter with children, not processed before, of which
    at least one descendant is selected, it adds exactly one task, named
    after the chapter, whose units are the selected descendants sorted
    by start page, preceded by a synthetic chapter (id suffixed
    [_intro]) from the parent's start page to the page before the
    smallest start page of the selected descendants if and only if the
    parent's start and end page are both truthy (defined and not 0) and
    the parent's start page is smaller than that page; otherwise nothing
    is prepended.  When all selected descendants have a truthy start
    page, that smallest start page is the start page of the first of the
    sorted descendants. *)
Theorem merge_flagged_parent_intro_unit
  (selectedChapterIds mergedChapterIds : Js.StrSet) (chapter : Chapter)
  (parentTitles : list string) (exportTasks : list ExportTask)
  (processed : Js.StrSet) :
  Js.has processed (id chapter) = false ->
  Js.has mergedChapterIds (id chapter) = true ->
  children chapter <> [] ->
  selectedDescendants selectedChapterIds chapter <> [] ->
  exists units processed',
    processChapter pdf selectedChapterIds mergedChapterIds chapter
      parentTitles (exportTasks, processed)
    = ((exportTasks
        ++ [MkExportTask (title chapter) units parentTitles (id chapter)])%list,
       processed')
    /\ (ownPagesBefore chapter
          (firstStartPage (selectedDescendants selectedChapterIds chapter))
        = true ->
        units
        = {| id := id chapter ++ "_intro";
             title := title chapter;
             startPage := startPage chapter;
             endPage :=
               Some (pred (firstStartPage
                             (selectedDescendants selectedChapterIds chapter)));
             content := None;
             level := level chapter;
             children := [] |}
          :: Js.sort (byStartPage pdf)
               (selectedDescendants selectedChapterIds chapter))
    /\ (ownPagesBefore chapter
          (firstStartPage (selectedDescendants selectedChapterIds chapter))
        = false ->
        units
        = Js.sort (byStartPage pdf)
            (selectedDescendants selectedChapterIds chapter))
    /\ (Forall (fun d => truthyNum (startPage d) = true)
          (selectedDescendants selectedChapterIds chapter) ->
        exists d,
          hd_error (Js.sort (byStartPage pdf)
                      (selectedDescendants selectedChapterIds chapter))
            = Some d
          /\ startPage d
             = Some (firstStartPage
                       (selectedDescendants selectedChapterIds chapter))).
Proof.
  intros Hproc Hmerged Hch Hsel.
  unfold processChapter. cbn [snd]. rewrite Hproc, Hmerged.
  assert (Hhas : hasChildren chapter = true).
  { unfold hasChildren. destruct (children chapter); congruence. }
  rewrite Hhas. cbn [andb]. unfold mergeBranch.
  fold (selectedDescendants selectedChapterIds chapter).
  assert (Hlen : (0 <? List.length
                          (selectedDescendants selectedChapterIds chapter))%nat
                 = true).
  { apply Nat.ltb_lt.
    destruct (selectedDescendants selectedChapterIds chapter);
      [congruence | cbn; lia]. }
  rewrite Hlen. cbn [isPdf isEpub negb andb].
  eexists. eexists. split; [reflexivity|].
  unfold ownPagesBefore.
  destruct (truthyNum (startPage chapter)), (truthyNum (endPage chapter));
    cbn [andb];
    (split; [|split; [|intros Ht; now apply firstStartPage_sorted_head]]);
    try discriminate; try reflexivity;
    try (intros ->; reflexivity).
Qed.

Lemma merge_flagged_parent_intro_unit_witness :
  Js.has [] (id (Sample.firstChapter (Sample.loaded Sample.nestedOutline 9)))
    = false
  /\ Js.has ["chapter-0"]
       (id (Sample.firstChapter (Sample.loaded Sample.nestedOutline 9)))
     = true
  /\ children (Sample.firstChapter (Sample.loaded Sample.nestedOutline 9))
     <> []
  /\ selectedDescendants ["chapter-0-0"]
       (Sample.firstChapter (Sample.loaded Sample.nestedOutline 9)) <> []
  /\ exists units processed',
       processChapter pdf ["chapter-0-0"] ["chapter-0"]
         (Sample.firstChapter (Sample.loaded Sample.nestedOutline 9))
         [] ([], [])
       = ([MkExportTask "G" units [] "chapter-0"], processed')
       /\ map (fun c => (id c, startPage c, endPage c)) units
          = [("chapter-0_intro", Some (Fin 1), Some (Fin 2));
             ("chapter-0-0", Some (Fin 3), Some (Fin 9))].
Proof.
  assert (H1 : Js.has []
                 (id (Sample.firstChapter
                        (Sample.loaded Sample.nestedOutline 9))) = false)
    by reflexivity.
  assert (H2 : Js.has ["chapter-0"]
                 (id (Sample.firstChapter
                        (Sample.loaded Sample.nestedOutline 9))) = true)
    by reflexivity.
  assert (H3 : children (Sample.firstChapter
                           (Sample.loaded Sample.nestedOutline 9)) <> [])
    by (vm_compute; discriminate).
  assert (H4 : selectedDescendants ["chapter-0-0"]
                 (Sample.firstChapter
                    (Sample.loaded Sample.nestedOutline 9)) <> [])
    by (vm_compute; discriminate).
  repeat (split; [assumption|]).
  destruct (merge_flagged_parent_intro_unit ["chapter-0-0"] ["chapter-0"]
              (Sample.firstChapter (Sample.loaded Sample.nestedOutline 9))
              [] [] [] H1 H2 H3 H4)
    as (units & processed' & Hp & Hintro & _ & _).
  exists units, processed'. split; [exact Hp|].
  rewrite (Hintro eq_refl). reflexivity.
Defined.

(** C3 as stated fails when the parent's end page is 0.  The outline
    P (page 1) with sections C1 (page 5) and C2 (page 1), followed by
    X (page 1), resolves P to the pages 1 to 0, the range of its last
    section C2.  With P merge-flagged and C1 selected, the task of P
    holds C1 alone, although P starts before C1. *)
Lemma merged_parent_with_end_page_0_gets_no_intro :
  map (fun c => (id c, startPage c, endPage c))
    (nodes (Sample.loaded Sample.shuffledOutline 30))
  = [("chapter-0", Some (Fin 1), Some (Fin 0));
     ("chapter-0-0", Some (Fin 5), Some (Fin 30));
     ("chapter-0-1", Some (Fin 1), Some (Fin 0));
     ("chapter-1", Some (Fin 1), Some (Fin 4))]
  /\ selectedDescendants ["chapter-0-0"]
       (Sample.firstChapter (Sample.loaded Sample.shuffledOutline 30))
     <> []
  /\ ltNum (Fin 1)
       (firstStartPage
          (selectedDescendants ["chapter-0-0"]
             (Sample.firstChapter (Sample.loaded Sample.shuffledOutline 30))))
     = true
  /\ unitIds
       (onExport pdf (Sample.loaded Sample.shuffledOutline 30)
          ["chapter-0-0"] separate ["chapter-0"])
     = [["chapter-0-0"]]
  /\ map chapterId
       (onExport pdf (Sample.loaded Sample.shuffledOutline 30)
          ["chapter-0-0"] separate ["chapter-0"])
     = ["chapter-0"].
Proof.
  split; [reflexivity|]. split; [vm_compute; discriminate|].
  repeat split; reflexivity.
Qed.

(** ** The traversal *)

Lemma traverseChapter_eq (fileType : FileType) (sel merged : Js.StrSet)
  (c : Chapter) (pts : list string) (st : PlanState) :
  traverseChapter fileType sel merged c pts st
  = traverseChapters fileType sel merged (children c) (pts ++ [title c])%list
      (processChapter fileType sel merged c pts st).
Proof.
  destruct c as [i t s e ct l chs].
  cbn [traverseChapter children title]. unfold traverseChapters.
  generalize (processChapter fileType sel merged
                (MkChapter i t s e ct l chs) pts st).
  induction chs as [|x r IH]; intros st'; [reflexivity|].
  cbn [fold_left]. apply IH.
Qed.

Lemma traverseChapters_cons (fileType : FileType) (sel merged : Js.StrSet)
  (c : Chapter) (r : list Chapter) (pts : list string) (st : PlanState) :
  traverseChapters fileType sel merged (c :: r) pts st
  = traverseChapters fileType sel merged r pts
      (traverseChapter fileType sel merged c pts st).
Proof. reflexivity. Qed.

(** The tasks added by [processChapter] do not depend on the tasks and
    the marks accumulated so far, except for the mark of the chapter
    itself. *)
Lemma processChapter_tasks (fileType : FileType) (sel merged : Js.StrSet)
  (c : Chapter) (pts : list string) (tasks : list ExportTask)
  (processed : Js.StrSet) :
  fst (processChapter fileType sel merged c pts (tasks, processed))
  = (tasks
     ++ (if Js.has processed (id c) then []
         else emitted fileType sel merged c pts))%list.
Proof.
  unfold emitted, processChapter. cbn [snd]. change (Js.has [] (id c)) with false. cbv iota.
  destruct (Js.has processed (id c)); [now rewrite app_nil_r|].
  destruct (Js.has merged (id c) && hasChildren c).
  - unfold mergeBranch.
    destruct (0 <? List.length (selectedAmong sel (getAllDescendants c)))%nat;
      cbn [fst]; [reflexivity | now rewrite app_nil_r].
  - destruct (Js.has sel (id c)); [|now rewrite app_nil_r].
    unfold selectedBranch. destruct (hasChildren c); [|reflexivity].
    match goal with
    | |- context [if ?b then (_, Js.add processed _) else _] => destruct b
    end; [|now rewrite app_nil_r].
    cbn [fst].
    destruct (isPdf fileType && truthyNum (startPage c)
              && truthyNum (endPage c)); [reflexivity|].
    destruct (isEpub fileType && Js.truthyStr (content c));
      [reflexivity | now rewrite app_nil_r].
Qed.

Lemma emitted_chapterId (fileType : FileType) (sel merged : Js.StrSet)
  (c : Chapter) (pts : list string) (t : ExportTask) :
  In t (emitted fileType sel merged c pts) -> chapterId t = id c.
Proof.
  unfold emitted, processChapter. cbn [snd]. change (Js.has [] (id c)) with false. cbv iota.
  destruct (Js.has merged (id c) && hasChildren c).
  - unfold mergeBranch.
    destruct (0 <? List.length (selectedAmong sel (getAllDescendants c)))%nat;
      cbn [fst app]; [|intros []].
    intros [<-|[]]. reflexivity.
  - destruct (Js.has sel (id c)); [|intros []].
    unfold selectedBranch. destruct (hasChildren c);
      [|cbn [fst app]; intros [<-|[]]; reflexivity].
    match goal with
    | |- context [if ?b then (_, Js.add [] _) else _] => destruct b
    end; [|intros []].
    cbn [fst].
    destruct (isPdf fileType && truthyNum (startPage c)
              && truthyNum (endPage c));
      [cbn [app]; intros [<-|[]]; reflexivity|].
    destruct (isEpub fileType && Js.truthyStr (content c));
      [cbn [app]; intros [<-|[]]; reflexivity | intros []].
Qed.



Lemma traverse_tasks_aux (fileType : FileType) (sel merged : Js.StrSet)
  (chs : list Chapter) :
  Forall (fun c => forall pts st t,
            In t (fst (traverseChapter fileType sel merged c pts st)) ->
            In t (fst st)
            \/ exists c' pts',
                 In c' (nodesOf c)
                 /\ In t (emitted fileType sel merged c' pts')) chs ->
  forall pts st t,
    In t (fst (traverseChapters fileType sel merged chs pts st)) ->
    In t (fst st)
    \/ exists c' pts',
         In c' (nodes chs) /\ In t (emitted fileType sel merged c' pts').
Proof.
  induction 1 as [|c r Hc Hr IH]; intros pts st t Hin; [now left|].
  rewrite traverseChapters_cons in Hin.
  destruct (IH _ _ _ Hin) as [H|(c' & pts' & Hc' & Ht)].
  - destruct (Hc _ _ _ H) as [H'|(c' & pts' & Hc' & Ht)]; [now left|].
    right. exists c', pts'. split; [|exact Ht].
    unfold nodes. cbn [flat_map]. apply in_or_app. now left.
  - right. exists c', pts'. split; [|exact Ht].
    unfold nodes. cbn [flat_map]. apply in_or_app. now right.
Qed.

Lemma traverseChapter_tasks (fileType : FileType) (sel merged : Js.StrSet)
  (c : Chapter) :
  forall pts st t,
    In t (fst (traverseChapter fileType sel merged c pts st)) ->
    In t (fst st)
    \/ exists c' pts',
         In c' (nodesOf c) /\ In t (emitted fileType sel merged c' pts').
Proof.
  induction c as [c IH] using Chapter_tree_ind. intros pts st t Hin.
  rewrite traverseChapter_eq in Hin.
  destruct (traverse_tasks_aux _ _ _ _ IH _ _ _ Hin)
    as [H|(c' & pts' & Hc' & Ht)].
  - destruct st as [tasks processed]. rewrite processChapter_tasks in H.
    apply in_app_or in H. destruct H as [H|H]; [now left|].
    right. exists c, pts. split.
    + rewrite app_nodesOf_eq. now left.
    + destruct (Js.has processed (id c)); [destruct H | exact H].
  - right. exists c', pts'. split; [|exact Ht].
    rewrite app_nodesOf_eq. now right.
Qed.

(** Every planned task is one that [processChapter] adds for a chapter
    of the tree. *)
Lemma traverseChapters_tasks (fileType : FileType) (sel merged : Js.StrSet)
  (chs : list Chapter) (pts : list string) (t : ExportTask) :
  In t (fst (traverseChapters fileType sel merged chs pts ([], []))) ->
  exists c' pts',
    In c' (nodes chs) /\ In t (emitted fileType sel merged c' pts').
Proof.
  intros Hin.
  destruct (traverse_tasks_aux fileType sel merged chs
              ltac:(apply Forall_forall; intros c _;
                    apply traverseChapter_tasks) _ _ _ Hin)
    as [[]|H].
  exact H.
Qed.

(** ** The selection handed to the planner *)

Lemma add_in (s : Js.StrSet) (x y : string) :
  In y (Js.add s x) <-> In y s \/ y = x.
Proof.
  unfold Js.add. destruct (Js.has s x) eqn:E.
  - apply has_true_iff in E. split; [now left|]. intros [H| ->]; assumption.
  - rewrite in_app_iff. cbn. intuition auto.
Qed.

Lemma fold_add_in (l : list string) :
  forall acc y, In y (fold_left Js.add l acc) <-> In y acc \/ In y l.
Proof.
  induction l as [|x r IH]; intros acc y; cbn [fold_left].
  - cbn. tauto.
  - rewrite IH, add_in. cbn. split; intros H; intuition auto.
Qed.

Lemma newSet_in (l : list string) (y : string) : In y (newSet l) <-> In y l.
Proof. unfold newSet. rewrite fold_add_in. cbn. tauto. Qed.

(** On the chapters of the tree the planner's set of selected ids
    answers as the selection of the chapter list does. *)
Lemma has_selected_ids (sel : Js.StrSet) (chs : list Chapter) (d : Chapter) :
  In d (nodes chs) ->
  Js.has (newSet (map id (findSelectedChapters sel chs))) (id d)
  = Js.has sel (id d).
Proof.
  intros Hd. rewrite findSelectedChapters_filter.
  destruct (Js.has sel (id d)) eqn:E.
  - apply has_true_iff, newSet_in, in_map, filter_In. now split.
  - destruct (Js.has (newSet _) (id d)) eqn:E'; [|reflexivity].
    apply has_true_iff, newSet_in, in_map_iff in E'.
    destruct E' as (d' & Hid & Hd'). apply filter_In in Hd'.
    destruct Hd' as [_ Hs]. rewrite Hid in Hs. congruence.
Qed.

Lemma nodesOf_trans (c : Chapter) :
  forall n d, In n (nodesOf c) -> In d (nodesOf n) -> In d (nodesOf c).
Proof.
  induction c as [c IH] using Chapter_tree_ind. intros n d Hn Hd.
  rewrite app_nodesOf_eq in Hn. destruct Hn as [<-|Hn]; [exact Hd|].
  rewrite app_nodesOf_eq. right.
  apply in_app_nodes in Hn. destruct Hn as (x & Hx & Hn).
  apply in_app_nodes. exists x. split; [exact Hx|].
  rewrite Forall_forall in IH. exact (IH x Hx n d Hn Hd).
Qed.

Lemma nodes_trans (t : list Chapter) (n d : Chapter) :
  In n (nodes t) -> In d (nodesOf n) -> In d (nodes t).
Proof.
  intros Hn Hd. apply in_app_nodes in Hn. destruct Hn as (x & Hx & Hn).
  apply in_app_nodes. exists x. split; [exact Hx|].
  exact (nodesOf_trans x n d Hn Hd).
Qed.

Lemma descendants_nodes (t : list Chapter) (n d : Chapter) :
  In n (nodes t) -> In d (getAllDescendants n) -> In d (nodes t).
Proof.
  intros Hn Hd. apply (nodes_trans t n d Hn).
  rewrite app_nodesOf_eq, <- getAllDescendants_nodes. now right.
Qed.

Lemma selectedAmong_selected_ids (sel : Js.StrSet) (chs : list Chapter)
  (c : Chapter) :
  In c (nodes chs) ->
  selectedDescendants (newSet (map id (findSelectedChapters sel chs))) c
  = selectedDescendants sel c.
Proof.
  intros Hc. unfold selectedDescendants, selectedAmong.
  apply filter_ext_in. intros d Hd. apply has_selected_ids.
  exact (descendants_nodes chs c d Hc Hd).
Qed.


(** ** C10 *)




(** ** C8 *)

Lemma processChapter_merged_ext (fileType : FileType)
  (sel m1 m2 : Js.StrSet) (c : Chapter) (pts : list string) (st : PlanState) :
  (forall x, Js.has m1 x = Js.has m2 x) ->
  processChapter fileType sel m1 c pts st
  = processChapter fileType sel m2 c pts st.
Proof. intros H. unfold processChapter. now rewrite H. Qed.

Lemma traverseChapters_merged_ext_aux (fileType : FileType)
  (sel m1 m2 : Js.StrSet) (chs : list Chapter) :
  Forall (fun c => forall pts st,
            traverseChapter fileType sel m1 c pts st
            = traverseChapter fileType sel m2 c pts st) chs ->
  forall pts st,
    traverseChapters fileType sel m1 chs pts st
    = traverseChapters fileType sel m2 chs pts st.
Proof.
  induction 1 as [|c r Hc Hr IH]; intros pts st; [reflexivity|].
  rewrite !traverseChapters_cons, Hc. apply IH.
Qed.

Lemma traverseChapter_merged_ext (fileType : FileType)
  (sel m1 m2 : Js.StrSet) (c : Chapter) :
  (forall x, Js.has m1 x = Js.has m2 x) ->
  forall pts st,
    traverseChapter fileType sel m1 c pts st
    = traverseChapter fileType sel m2 c pts st.
Proof.
  intros H. induction c as [c IH] using Chapter_tree_ind. intros pts st.
  rewrite !traverseChapter_eq.
  rewrite (processChapter_merged_ext fileType sel m1 m2 c pts st H).
  now apply traverseChapters_merged_ext_aux.
Qed.

Lemma traverseChapters_merged_ext (fileType : FileType)
  (sel m1 m2 : Js.StrSet) (chs : list Chapter) (pts : list string)
  (st : PlanState) :
  (forall x, Js.has m1 x = Js.has m2 x) ->
  traverseChapters fileType sel m1 chs pts st
  = traverseChapters fileType sel m2 chs pts st.
Proof.
  intros H. apply traverseChapters_merged_ext_aux, Forall_forall.
  intros c _. now apply traverseChapter_merged_ext.
Qed.

(** C8.  The planned tasks and their file names are a function of the
    chapter tree, the set of selected ids, the set of merge-flagged ids
    and the mode: two runs whose sets have the same members, in whatever
    order they were inserted, plan the same ordered task list and the
    same file names. *)
Theorem export_planning_deterministic
  (fileType : FileType) (chapters : list Chapter)
  (selected1 selected2 merged1 merged2 : Js.StrSet) (mergeMode : MergeMode) :
  (forall i, In i selected1 <-> In i selected2) ->
  (forall i, In i merged1 <-> In i merged2) ->
  onExport fileType chapters selected1 mergeMode merged1
    = onExport fileType chapters selected2 mergeMode merged2
  /\ filenames (onExport fileType chapters selected1 mergeMode merged1)
     = filenames (onExport fileType chapters selected2 mergeMode merged2).
Proof.
  intros Hs Hm.
  assert (H : onExport fileType chapters selected1 mergeMode merged1
              = onExport fileType chapters selected2 mergeMode merged2);
    [|split; [exact H | now rewrite H]].
  unfold onExport.
  assert (Hf : findSelectedChapters selected1 chapters
               = findSelectedChapters selected2 chapters).
  { rewrite !findSelectedChapters_filter. apply filter_ext.
    intros c. now apply has_ext. }
  rewrite Hf. unfold handleExport.
  rewrite (traverseChapters_merged_ext fileType _ merged1 merged2);
    [reflexivity | now apply has_ext].
Qed.

Lemma export_planning_deterministic_witness :
  (forall i, In i ["chapter-0-1"; "chapter-1"]
             <-> In i ["chapter-1"; "chapter-0-1"])
  /\ (forall i, In i ["chapter-0"; "chapter-1"]
               <-> In i ["chapter-1"; "chapter-0"])
  /\ onExport pdf (Sample.loaded Sample.outline 30)
       ["chapter-0-1"; "chapter-1"] separate ["chapter-0"; "chapter-1"]
     = onExport pdf (Sample.loaded Sample.outline 30)
         ["chapter-1"; "chapter-0-1"] separate ["chapter-1"; "chapter-0"]
  /\ filenames
       (onExport pdf (Sample.loaded Sample.outline 30)
          ["chapter-0-1"; "chapter-1"] separate ["chapter-0"; "chapter-1"])
     = ["01_A.pdf"; "02_B.pdf"].
Proof.
  assert (H1 : forall i, In i ["chapter-0-1"; "chapter-1"]
                         <-> In i ["chapter-1"; "chapter-0-1"])
    by (intros i; cbn; tauto).
  assert (H2 : forall i, In i ["chapter-0"; "chapter-1"]
                         <-> In i ["chapter-1"; "chapter-0"])
    by (intros i; cbn; tauto).
  split; [exact H1|]. split; [exact H2|]. split.
  - exact (proj1 (export_planning_deterministic pdf
                    (Sample.loaded Sample.outline 30) _ _ _ _ separate H1 H2)).
  - reflexivity.
Defined.

End PlannerFacts.

(* ================================================================== *)
(** * File names *)
(* ================================================================== *)

From Stdlib Require Import DecimalNat.

Section FilenameFacts.
Import Filename MoreSpec.

Lemma allChars_weaken (p q : ascii -> bool) (s : string) :
  (forall c, p c = true -> q c = true) ->
  allChars p s = true -> allChars q s = true.
Proof.
  intros H. induction s as [|c r IH]; [reflexivity|]. cbn [allChars].
  rewrite !andb_true_iff. intros [Hc Hr]. split; [now apply H | now apply IH].
Qed.








Lemma highSurrogate_bytes (b1 b2 b3 : ascii) :
  exists k2 k3,
    (160 <= k2 <= 175)%nat /\ (128 <= k3 <= 191)%nat
    /\ Js.highSurrogate b1 b2 b3
       = String (ascii_of_nat 237)
           (String (ascii_of_nat k2) (String (ascii_of_nat k3) EmptyString)).
Proof.
  unfold Js.highSurrogate.
  set (u := (4 * (nat_of_ascii b1 mod 8) + (nat_of_ascii b2 / 16) mod 4)%nat).
  pose proof (Nat.mod_upper_bound (u - 1) 16 ltac:(lia)).
  pose proof (Nat.mod_upper_bound (nat_of_ascii b2) 16 ltac:(lia)).
  pose proof (Nat.mod_upper_bound (nat_of_ascii b3 / 16) 4 ltac:(lia)).
  eexists _, _. split; [|split; [|reflexivity]]; lia.
Qed.





Lemma units_highSurrogate (b1 b2 b3 : ascii) :
  units (Js.highSurrogate b1 b2 b3) = 1%nat.
Proof.
  destruct (highSurrogate_bytes b1 b2 b3) as (k2 & k3 & H2 & H3 & ->).
  cbn [units]. unfold unitsOf, Js.isContinuation, Js.isLead4.
  rewrite !nat_ascii_embedding by lia.
  replace (128 <=? k2)%nat with true by (symmetry; apply Nat.leb_le; lia).
  replace (k2 <=? 191)%nat with true by (symmetry; apply Nat.leb_le; lia).
  replace (128 <=? k3)%nat with true by (symmetry; apply Nat.leb_le; lia).
  replace (k3 <=? 191)%nat with true by (symmetry; apply Nat.leb_le; lia).
  reflexivity.
Qed.

Lemma units_slice0 (s : string) :
  forall n, (units (Js.slice0 n s) <= n)%nat.
Proof.
  induction s as [|c r IH]; intros n; [cbn; lia|].
  cbn [Js.slice0]. destruct (Js.isContinuation c) eqn:Ec.
  { cbn [units]. unfold unitsOf. rewrite Ec. apply IH. }
  destruct n as [|n']; [cbn; lia|]. destruct (Js.isLead4 c) eqn:El.
  - destruct n' as [|n''].
    + destruct r as [|b2 [|b3 r3]]; try (cbn; lia).
      rewrite units_highSurrogate. lia.
    + cbn [units]. unfold unitsOf. rewrite Ec, El.
      specialize (IH n''). lia.
  - cbn [units]. unfold unitsOf. rewrite Ec, El. specialize (IH n'). lia.
Qed.

Lemma prefix_dot_cons (c : ascii) (r r' : string) :
  String.prefix "." (String c r) = false ->
  String.prefix "." (String c r') = false.
Proof.
  cbn [String.prefix]. destruct (ascii_dec "." c); [|reflexivity].
  destruct r; discriminate.
Qed.

Lemma slice0_prefix_dot (n : nat) (s : string) :
  String.prefix "." s = false ->
  String.prefix "." (Js.slice0 n s) = false.
Proof.
  destruct s as [|c r]; [reflexivity|]. intros H. cbn [Js.slice0].
  destruct (Js.isContinuation c); [exact (prefix_dot_cons _ _ _ H)|].
  destruct n as [|n']; [reflexivity|]. destruct (Js.isLead4 c).
  - destruct n' as [|n'']; [|exact (prefix_dot_cons _ _ _ H)].
    destruct r as [|b2 [|b3 r3]]; reflexivity.
  - exact (prefix_dot_cons _ _ _ H).
Qed.

Lemma dropLeadingDots_prefix_dot (s : string) :
  String.prefix "." (dropLeadingDots s) = false.
Proof.
  induction s as [|c r IH]; [reflexivity|]. cbn [dropLeadingDots].
  destruct c as [[|] [|] [|] [|] [|] [|] [|] [|]]; try reflexivity.
  exact IH.
Qed.

Lemma dropTrailingDots_prefix_dot (s : string) :
  String.prefix "." s = false ->
  String.prefix "." (dropTrailingDots s) = false.
Proof.
  destruct s as [|c r]; [reflexivity|]. cbn [dropTrailingDots String.prefix].
  destruct (ascii_dec "." c) as [<-|E].
  - destruct r; discriminate.
  - intros _. destruct (dropTrailingDots r) as [|c' r'].
    + destruct (Ascii.eqb_spec c "."); [congruence|].
      cbn [String.prefix]. destruct (ascii_dec "." c); [congruence|reflexivity].
    + cbn [String.prefix]. destruct (ascii_dec "." c); [congruence|reflexivity].
Qed.

(** X2.  A sanitized name has at most 200 UTF-16 code units and does
    not begin with a dot. *)
Theorem sanitizeFilename_is_short_and_has_no_leading_dot (filename : string) :
  (units (sanitizeFilename filename) <= 200)%nat
  /\ String.prefix "." (sanitizeFilename filename) = false.
Proof.
  unfold sanitizeFilename. split; [apply units_slice0|].
  apply slice0_prefix_dot. unfold stripDots.
  apply dropTrailingDots_prefix_dot, dropLeadingDots_prefix_dot.
Qed.

Lemma digits_have_no_underscore (d : Decimal.uint) :
  Js.includes (NilEmpty.string_of_uint d) "_" = false.
Proof. induction d; cbn; try reflexivity; exact IHd. Qed.

Lemma of_uint_D0 (d : Decimal.uint) :
  Nat.of_uint (Decimal.D0 d) = Nat.of_uint d.
Proof. reflexivity. Qed.

(** [String(n)] is a non-empty string of digits that reads as [n]. *)
Lemma string_of_nat_digits (n : nat) :
  exists d,
    Js.string_of_nat n = NilEmpty.string_of_uint d
    /\ d <> Decimal.Nil /\ Nat.of_uint d = n.
Proof.
  unfold Js.string_of_nat. pose proof (Unsigned.of_to n) as H.
  destruct (Nat.to_uint n) as [| | | | | | | | | |] eqn:E;
    try (eexists; split; [reflexivity|]; split; [discriminate | exact H]).
  exists (Decimal.D0 Decimal.Nil). split; [reflexivity|].
  split; [discriminate | exact H].
Qed.

Lemma padStart2_digits (d : Decimal.uint) :
  d <> Decimal.Nil ->
  exists d',
    padStart2 (NilEmpty.string_of_uint d) = NilEmpty.string_of_uint d'
    /\ d' <> Decimal.Nil /\ Nat.of_uint d' = Nat.of_uint d.
Proof.
  intros Hd. unfold padStart2.
  destruct (String.length (NilEmpty.string_of_uint d)) as [|[|k]] eqn:E.
  - destruct d; try congruence; discriminate.
  - exists (Decimal.D0 d). split; [reflexivity|].
    split; [discriminate | apply of_uint_D0].
  - exists d. repeat split. exact Hd.
Qed.

Lemma uint_of_digits (d : Decimal.uint) :
  d <> Decimal.Nil ->
  NilZero.uint_of_string (NilEmpty.string_of_uint d) = Some d.
Proof.
  intros Hd. unfold NilZero.uint_of_string.
  destruct (NilEmpty.string_of_uint d) eqn:E.
  - destruct d; try congruence; discriminate.
  - rewrite <- E. apply NilEmpty.usu.
Qed.

Lemma built_filename_ordinal (index : nat)
  (parentTitles : list string) (currentTitle extension : string) :
  ordinalOf
    (buildHierarchicalFilename index parentTitles currentTitle extension)
  = Some (index + 1)%nat.
Proof.
  unfold buildHierarchicalFilename, ordinalOf.
  destruct (string_of_nat_digits (index + 1)) as (d & -> & Hd & Hn).
  destruct (padStart2_digits d Hd) as (d' & -> & Hd' & Hn').
  set (rest := join _ ++ extension).
  change (NilEmpty.string_of_uint d' ++ "_" ++ rest)
    with (NilEmpty.string_of_uint d' ++ String "_" rest).
  rewrite split_at_first by apply digits_have_no_underscore.
  rewrite uint_of_digits by exact Hd'. cbn [option_map]. congruence.
Qed.

(** X3.  The ordinal in front of a built file name reads back as the
    task index plus one, whatever the titles and the extension are; so
    names built for different indices differ. *)
Theorem buildHierarchicalFilename_ordinal :
  (forall index parentTitles currentTitle extension,
      ordinalOf
        (buildHierarchicalFilename index parentTitles currentTitle extension)
      = Some (index + 1)%nat)
  /\ (forall i j titles1 titles2 title1 title2 ext1 ext2,
        buildHierarchicalFilename i titles1 title1 ext1
        = buildHierarchicalFilename j titles2 title2 ext2 ->
        i = j).
Proof.
  split; [exact built_filename_ordinal|].
  intros i j titles1 titles2 title1 title2 ext1 ext2 H.
  apply (f_equal ordinalOf) in H. rewrite !built_filename_ordinal in H.
  injection H. lia.
Qed.

Lemma filenamesFrom_ordinals (tasks : list App.ExportTask) :
  forall i,
    map ordinalOf (App.filenamesFrom i tasks)
    = map Some (seq (i + 1) (List.length tasks)).
Proof.
  induction tasks as [|t r IH]; intros i; [reflexivity|].
  cbn [App.filenamesFrom map List.length seq].
  rewrite built_filename_ordinal. f_equal.
  rewrite IH. now rewrite Nat.add_succ_l.
Qed.

(** X4.  The files of one export all get different names: no entry of
    the archive replaces another. *)
Theorem export_filenames_are_distinct (tasks : list App.ExportTask) :
  NoDup (App.filenames tasks).
Proof.
  unfold App.filenames. apply (NoDup_map_inv ordinalOf).
  rewrite filenamesFrom_ordinals.
  apply Finite.Injective_map_NoDup; [|apply seq_NoDup].
  intros a b H. now injection H.
Qed.

End FilenameFacts.

(* ================================================================== *)
(** * Pages and frame of range resolution *)
(* ================================================================== *)

Section PdfMoreFacts.
Import Pdf PdfSpec PdfPages MoreSpec.

Lemma map_seq_from (lo : Z) (n : nat) :
  forall k,
    map (fun i => lo + Z.of_nat i) (seq k n)
    = map (fun i => lo + Z.of_nat k + Z.of_nat i) (seq 0 n).
Proof.
  revert lo. induction n as [|n IH]; intros lo k; [reflexivity|].
  cbn [seq map]. f_equal; [lia|].
  rewrite (IH lo (S k)), (IH (lo + Z.of_nat k) 1%nat).
  apply map_ext. intros i. lia.
Qed.

Lemma extractPdfPages_app (a b c : Z) :
  a <= b + 1 -> b <= c ->
  (extractPdfPages a b ++ extractPdfPages (b + 1) c)%list
  = extractPdfPages a c.
Proof.
  intros Hab Hbc. unfold extractPdfPages.
  replace (Z.to_nat (c - a + 1))
    with (Z.to_nat (b - a + 1) + Z.to_nat (c - (b + 1) + 1))%nat by lia.
  rewrite seq_app, map_app. cbn [Nat.add].
  rewrite (map_seq_from (a - 1) _ (Z.to_nat (b - a + 1))).
  apply f_equal. apply map_ext. intros i. lia.
Qed.

Lemma withEndPages_pages (l : list PdfChapter) (totalPages : Z) :
  StronglySorted startsBefore l ->
  Forall (fun c => startPage c <= totalPages) l ->
  forall first,
    hd_error l = Some first ->
    flat_map (fun c => extractPdfPages (startPage c) (endPage c))
      (withEndPages l totalPages)
    = extractPdfPages (startPage first) totalPages.
Proof.
  induction l as [|c rest IH]; intros Hs Hb first Hf; [discriminate|].
  injection Hf as <-.
  inversion Hs as [|? ? Hs' Hle]; subst. inversion Hb as [|? ? Hc Hb']; subst.
  cbn [withEndPages flat_map]. cbn [startPage endPage setEndPage].
  destruct rest as [|next rest'].
  - cbn [withEndPages flat_map]. apply app_nil_r.
  - rewrite (IH Hs' Hb' next eq_refl).
    inversion Hle as [|? ? Hcn _]; subst. unfold startsBefore in Hcn.
    inversion Hb' as [|? ? Hn _]; subst.
    rewrite <- (extractPdfPages_app (startPage c) (startPage next - 1)
                  totalPages) by lia.
    do 2 f_equal. lia.
Qed.

(** X5.  After range resolution, when no leaf starts after the last
    page, extracting the pages of every leaf, in page order, copies each
    page from the first leaf's start page to the last page of the
    document exactly once and in order. *)
Theorem leaves_partition_the_pages
  (chapters : list PdfChapter) (totalPages : Z) :
  collectLeaves chapters <> [] ->
  Forall (fun c => startPage c <= totalPages) (collectLeaves chapters) ->
  exists first,
    hd_error (sortedLeaves (calculateEndPages chapters totalPages))
      = Some first
    /\ flat_map (fun c => extractPdfPages (startPage c) (endPage c))
         (sortedLeaves (calculateEndPages chapters totalPages))
       = extractPdfPages (startPage first) totalPages
    /\ extractPdfPages (startPage first) totalPages
       = map (fun i => startPage first - 1 + Z.of_nat i)
           (seq 0 (Z.to_nat (totalPages - startPage first + 1))).
Proof.
  intros Hne Hb. rewrite sortedLeaves_calculateEndPages.
  pose proof (sortedLeaves_sorted chapters) as Hs.
  assert (Hb' : Forall (fun c => startPage c <= totalPages)
                  (sortedLeaves chapters)).
  { rewrite Forall_forall in *. intros c Hc. apply Hb.
    unfold sortedLeaves in Hc. now apply sort_in in Hc. }
  destruct (sortedLeaves chapters) as [|c rest] eqn:E.
  { exfalso. apply Hne. unfold sortedLeaves in E. exact (sort_nil_inv _ _ E). }
  eexists. split; [reflexivity|]. cbn [startPage setEndPage]. split.
  - exact (withEndPages_pages (c :: rest) totalPages Hs Hb' c eq_refl).
  - reflexivity.
Qed.

Lemma leaves_partition_the_pages_witness :
  collectLeaves Sample.book <> []
  /\ Forall (fun c => startPage c <= 30) (collectLeaves Sample.book)
  /\ flat_map (fun c => extractPdfPages (startPage c) (endPage c))
       (sortedLeaves (calculateEndPages Sample.book 30))
     = map Z.of_nat (seq 0 30).
Proof.
  assert (H1 : collectLeaves Sample.book <> []) by (vm_compute; discriminate).
  assert (H2 : Forall (fun c => startPage c <= 30)
                 (collectLeaves Sample.book)).
  { vm_compute. repeat constructor; discriminate. }
  split; [exact H1|]. split; [exact H2|].
  destruct (leaves_partition_the_pages Sample.book 30 H1 H2)
    as (first & Hf & Hp & _).
  rewrite Hp. injection Hf as <-. reflexivity.
Defined.

Lemma eraseEndPage_eq (c : PdfChapter) :
  eraseEndPage c
  = MkPdfChapter (id c) (title c) (startPage c) 0 (level c)
      (map eraseEndPage (children c)).
Proof. destruct c; reflexivity. Qed.

Lemma storeLeaves_erase_aux (w : list (Ref * Z)) (l : list PdfChapter) :
  Forall (fun c => forall k,
            eraseEndPage (fst (storeLeafOf w c k)) = eraseEndPage c) l ->
  forall k, map eraseEndPage (fst (storeLeaves w l k)) = map eraseEndPage l.
Proof.
  induction 1 as [|y l Hy Hl IHl]; intros k; [reflexivity|].
  cbn [storeLeaves]. specialize (Hy k).
  destruct (storeLeafOf w y k) as [y' k1]. specialize (IHl k1).
  destruct (storeLeaves w l k1) as [l' k2]. cbn [fst map] in *.
  now rewrite Hy, IHl.
Qed.

Lemma storeLeafOf_erase (w : list (Ref * Z)) (c : PdfChapter) :
  forall k, eraseEndPage (fst (storeLeafOf w c k)) = eraseEndPage c.
Proof.
  induction c as [c IH] using PdfChapter_tree_ind. intros k.
  rewrite storeLeafOf_eq. destruct (children c) as [|x r] eqn:E.
  - cbn [fst]. destruct (written w k); [|reflexivity].
    rewrite !eraseEndPage_eq. reflexivity.
  - pose proof (storeLeaves_erase_aux w _ IH k) as H.
    destruct (storeLeaves w (x :: r) k) as [chs' k']. cbn [fst] in *.
    rewrite !eraseEndPage_eq. cbn [id title startPage level children setChildren].
    now rewrite H, E.
Qed.

Lemma setParentEndPagesOf_erase (c : PdfChapter) :
  eraseEndPage (setParentEndPagesOf c) = eraseEndPage c.
Proof.
  induction c as [c IH] using PdfChapter_tree_ind.
  rewrite setParentEndPagesOf_eq. destruct (children c) as [|x r] eqn:E;
    [reflexivity|].
  cbv zeta. rewrite !eraseEndPage_eq.
  cbn [id title startPage level children setChildren setEndPage].
  rewrite E. f_equal. clear E. unfold setParentEndPages.
  induction IH as [|y l Hy Hl IHl]; [reflexivity|].
  cbn [map]. now rewrite Hy, IHl.
Qed.

Lemma calculateEndPages_erase (chapters : list PdfChapter) (totalPages : Z) :
  map eraseEndPage (calculateEndPages chapters totalPages)
  = map eraseEndPage chapters.
Proof.
  unfold calculateEndPages, setParentEndPages. rewrite map_map.
  rewrite (map_ext _ eraseEndPage) by apply setParentEndPagesOf_erase.
  apply storeLeaves_erase_aux, Forall_forall.
  intros c _. apply storeLeafOf_erase.
Qed.

(** X6.  Range resolution changes nothing but end pages: the tree it
    returns has the shape of the given one, with the same identifier,
    title, start page and level at every chapter. *)
Theorem calculateEndPages_changes_end_pages_only
  (chapters : list PdfChapter) (totalPages : Z) :
  map eraseEndPage (calculateEndPages chapters totalPages)
  = map eraseEndPage chapters.
Proof. apply calculateEndPages_erase. Qed.

(** ** The chapters parsed from an outline *)

Lemma OutlineItem_tree_ind (P : OutlineItem -> Prop) :
  (forall it, Forall P (items it) -> P it) -> forall it, P it.
Proof.
  intros H. fix IH 1. intros [t d its]. apply H. simpl.
  induction its as [|x r IHr]; constructor; [apply IH | exact IHr].
Qed.

Lemma parseOutlineItem_eq (item : OutlineItem) (lvl : Z) (idPrefix : string) :
  parseOutlineItem item lvl idPrefix
  = MkPdfChapter idPrefix (item_title item)
      (match dest item with Some pageIndex => pageIndex + 1 | None => 1 end)
      (match dest item with Some pageIndex => pageIndex + 1 | None => 1 end)
      lvl
      (parsedFrom (fun i => idPrefix ++ "-" ++ Js.string_of_nat i)
         (items item) (lvl + 1) 0).
Proof.
  destruct item as [t d its]. cbn [parseOutlineItem item_title dest items].
  f_equal. generalize 0%nat. induction its as [|x r IH]; intros i;
    [reflexivity|].
  cbn [parsedFrom]. f_equal. apply IH.
Qed.

Lemma parseOutline_eq (outline : list OutlineItem) :
  forall i,
    parseOutline outline i
    = parsedFrom (fun i => "chapter-" ++ Js.string_of_nat i) outline 0 i.
Proof.
  induction outline as [|x r IH]; intros i; [reflexivity|].
  cbn [parseOutline parsedFrom]. f_equal. apply IH.
Qed.

Lemma str_app_nil_r (a : string) : a ++ "" = a.
Proof. induction a as [|x a IH]; cbn; [reflexivity | now rewrite IH]. Qed.

Lemma str_app_inv_head (a b c : string) : a ++ b = a ++ c -> b = c.
Proof.
  induction a as [|x a IH]; cbn; [auto|]. intros H. injection H as H.
  now apply IH.
Qed.

Lemma str_app_length (a b : string) :
  String.length (a ++ b) = (String.length a + String.length b)%nat.
Proof. induction a as [|x a IH]; cbn; [reflexivity | now rewrite IH]. Qed.

Lemma Below_child (p d s : string) :
  Below (p ++ "-" ++ d) s -> exists r, s = p ++ "-" ++ r.
Proof.
  intros [->|(r & ->)]; [now exists d|].
  exists (d ++ "-" ++ r).
  rewrite str_app_assoc. reflexivity.
Qed.

Lemma not_Below_self (p r : string) : p ++ "-" ++ r <> p.
Proof.
  intros H. apply (f_equal String.length) in H.
  rewrite str_app_length in H. cbn in H. lia.
Qed.

(** A run of digits that is followed by nothing or by a hyphen is
    determined by the text it starts. *)
Lemma digits_then_hyphen (d1 : Decimal.uint) :
  forall d2 t1 t2,
    (t1 = "" \/ exists r, t1 = String "-" r) ->
    (t2 = "" \/ exists r, t2 = String "-" r) ->
    NilEmpty.string_of_uint d1 ++ t1 = NilEmpty.string_of_uint d2 ++ t2 ->
    d1 = d2.
Proof.
  induction d1 as [|d1 IH|d1 IH|d1 IH|d1 IH|d1 IH|d1 IH|d1 IH|d1 IH|d1 IH|d1 IH];
    intros [|d2|d2|d2|d2|d2|d2|d2|d2|d2|d2] t1 t2 H1 H2 H;
    cbn [NilEmpty.string_of_uint append] in H;
    try reflexivity;
    try (destruct H1 as [->|(r & ->)]; discriminate H);
    try (destruct H2 as [->|(r & ->)]; discriminate H);
    try discriminate H;
    injection H as H; f_equal; exact (IH d2 t1 t2 H1 H2 H).
Qed.

Lemma string_of_nat_inj_below (q s : string) (i j : nat) :
  Below (q ++ Js.string_of_nat i) s -> Below (q ++ Js.string_of_nat j) s ->
  i = j.
Proof.
  destruct (string_of_nat_digits i) as (di & -> & _ & Hi).
  destruct (string_of_nat_digits j) as (dj & -> & _ & Hj).
  intros Bi Bj.
  assert (Ei : exists t, (t = "" \/ exists r, t = String "-" r)
                         /\ s = q ++ NilEmpty.string_of_uint di ++ t).
  { destruct Bi as [->|(r & ->)].
    - exists "". split; [now left|]. now rewrite str_app_nil_r.
    - exists (String "-" r). split; [right; now exists r|].
      now rewrite str_app_assoc. }
  assert (Ej : exists t, (t = "" \/ exists r, t = String "-" r)
                         /\ s = q ++ NilEmpty.string_of_uint dj ++ t).
  { destruct Bj as [->|(r & ->)].
    - exists "". split; [now left|]. now rewrite str_app_nil_r.
    - exists (String "-" r). split; [right; now exists r|].
      now rewrite str_app_assoc. }
  destruct Ei as (t1 & H1 & E1), Ej as (t2 & H2 & E2).
  rewrite E1 in E2. apply str_app_inv_head in E2.
  rewrite <- Hi, <- Hj. f_equal. exact (digits_then_hyphen _ _ _ _ H1 H2 E2).
Qed.

Lemma pdfIdsOf_eq (c : PdfChapter) :
  pdfIdsOf c = id c :: pdfIds (children c).
Proof. destruct c; reflexivity. Qed.

Lemma parsedFrom_ids_below (mk : nat -> string) (lvl : Z)
  (its : list OutlineItem) :
  Forall (fun it => forall lvl p s,
            In s (pdfIdsOf (parseOutlineItem it lvl p)) -> Below p s) its ->
  forall i s,
    In s (pdfIds (parsedFrom mk its lvl i)) ->
    exists k, (i <= k)%nat /\ Below (mk k) s.
Proof.
  induction 1 as [|x r Hx Hr IH]; intros i s Hin; [destruct Hin|].
  unfold pdfIds in Hin. cbn [parsedFrom flat_map] in Hin.
  apply in_app_or in Hin. destruct Hin as [Hin|Hin].
  - exists i. split; [lia | exact (Hx _ _ _ Hin)].
  - destruct (IH (S i) s Hin) as (k & Hk & Hb). exists k. split; [lia|exact Hb].
Qed.

Lemma parsed_ids_below (item : OutlineItem) :
  forall lvl p s,
    In s (pdfIdsOf (parseOutlineItem item lvl p)) -> Below p s.
Proof.
  induction item as [item IH] using OutlineItem_tree_ind. intros lvl p s.
  rewrite parseOutlineItem_eq, pdfIdsOf_eq. cbn [id children].
  intros [<-|Hin]; [now left|].
  destruct (parsedFrom_ids_below _ _ _ IH _ _ Hin) as (k & _ & Hb).
  right. exact (Below_child _ _ _ Hb).
Qed.

Lemma parsedFrom_ids_NoDup (mk : nat -> string) (q : string) (lvl : Z)
  (its : list OutlineItem) :
  (forall i, mk i = q ++ Js.string_of_nat i) ->
  Forall (fun it => forall lvl p,
            NoDup (pdfIdsOf (parseOutlineItem it lvl p))) its ->
  forall i, NoDup (pdfIds (parsedFrom mk its lvl i)).
Proof.
  intros Hmk. induction 1 as [|x r Hx Hr IH]; intros i; [constructor|].
  unfold pdfIds. cbn [parsedFrom flat_map].
  apply NoDup_app; [apply Hx | apply IH|].
  intros s Hs Hs'. apply parsed_ids_below in Hs.
  apply (parsedFrom_ids_below mk lvl r) in Hs'.
  2:{ apply Forall_forall. intros it _. apply parsed_ids_below. }
  destruct Hs' as (k & Hk & Hb). rewrite !Hmk in *.
  pose proof (string_of_nat_inj_below _ _ _ _ Hs Hb). lia.
Qed.

Lemma parsed_ids_NoDup (item : OutlineItem) :
  forall lvl p, NoDup (pdfIdsOf (parseOutlineItem item lvl p)).
Proof.
  induction item as [item IH] using OutlineItem_tree_ind. intros lvl p.
  rewrite parseOutlineItem_eq, pdfIdsOf_eq. cbn [id children].
  constructor.
  - intros Hin.
    destruct (parsedFrom_ids_below _ (lvl + 1) (items item)
                ltac:(apply Forall_forall; intros it _; apply parsed_ids_below)
                _ _ Hin) as (k & _ & Hb).
    destruct (Below_child _ _ _ Hb) as (r & E).
    symmetry in E. exact (not_Below_self _ _ E).
  - apply (parsedFrom_ids_NoDup _ (p ++ "-")); [|exact IH].
    intros i. now rewrite str_app_assoc.
Qed.

Lemma pdfIdsOf_erase (c : PdfChapter) : pdfIdsOf (eraseEndPage c) = pdfIdsOf c.
Proof.
  induction c as [c IH] using PdfChapter_tree_ind.
  rewrite eraseEndPage_eq, !pdfIdsOf_eq. cbn [id children]. f_equal.
  unfold pdfIds. induction IH as [|y l Hy Hl IHl]; [reflexivity|].
  cbn [map flat_map]. now rewrite Hy, IHl.
Qed.

Lemma pdfIds_erase (t : list PdfChapter) :
  pdfIds (map eraseEndPage t) = pdfIds t.
Proof.
  unfold pdfIds. induction t as [|c r IH]; [reflexivity|].
  cbn [map flat_map]. now rewrite pdfIdsOf_erase, IH.
Qed.

Lemma idsOf_ofPdf (c : PdfChapter) : App.idsOf (App.ofPdf c) = pdfIdsOf c.
Proof.
  induction c as [c IH] using PdfChapter_tree_ind.
  destruct c as [i t s e l chs].
  cbn [App.ofPdf App.idsOf App.id App.children pdfIdsOf id children] in *.
  f_equal. induction IH as [|y r Hy Hr IHr]; [reflexivity|].
  cbn [map flat_map]. now rewrite Hy, IHr.
Qed.

Lemma getAllChapterIds_ofPdf (t : list PdfChapter) :
  App.getAllChapterIds (map App.ofPdf t) = pdfIds t.
Proof.
  unfold App.getAllChapterIds, pdfIds. induction t as [|c r IH]; [reflexivity|].
  cbn [map flat_map]. now rewrite idsOf_ofPdf, IH.
Qed.

Lemma parsed_outline_ids_NoDup (outline : list OutlineItem) (numPages : Z) :
  NoDup (pdfIds (calculateEndPages (parseOutline outline 0) numPages)).
Proof.
  rewrite <- pdfIds_erase, calculateEndPages_erase, pdfIds_erase.
  rewrite parseOutline_eq.
  apply (parsedFrom_ids_NoDup _ "chapter-"); [reflexivity|].
  apply Forall_forall. intros it _. apply parsed_ids_NoDup.
Qed.

(** X7.  The chapters extracted from a PDF have pairwise different
    identifiers, and the planner sees these same identifiers. *)
Theorem extracted_pdf_ids_are_unique
  (outline : option (list OutlineItem)) (numPages : Z)
  (chapters : list PdfChapter) :
  extractPdfChapters outline numPages = inr chapters ->
  NoDup (pdfIds chapters)
  /\ App.getAllChapterIds (map App.ofPdf chapters) = pdfIds chapters.
Proof.
  intros H. split; [|apply getAllChapterIds_ofPdf].
  destruct outline as [[|item rest]|]; try discriminate.
  injection H as <-.
  exact (parsed_outline_ids_NoDup (item :: rest) numPages).
Qed.

Lemma extracted_pdf_ids_are_unique_witness :
  extractPdfChapters (Some Sample.outline) 30
    = inr (calculateEndPages Sample.book 30)
  /\ NoDup (pdfIds (calculateEndPages Sample.book 30))
  /\ pdfIds (calculateEndPages Sample.book 30)
     = ["chapter-0"; "chapter-0-0"; "chapter-0-1"; "chapter-1"].
Proof.
  assert (H : extractPdfChapters (Some Sample.outline) 30
              = inr (calculateEndPages Sample.book 30)) by reflexivity.
  split; [exact H|]. split; [|reflexivity].
  exact (proj1 (extracted_pdf_ids_are_unique _ _ _ H)).
Defined.

Lemma depthsOf_eq (d : Z) (c : PdfChapter) :
  depthsOf d c = d :: flat_map (depthsOf (d + 1)) (children c).
Proof. destruct c; reflexivity. Qed.

Lemma parsedFrom_levels (mk : nat -> string) (lvl : Z)
  (its : list OutlineItem) :
  Forall (fun it => forall lvl p,
            map level (nodesOf (parseOutlineItem it lvl p))
            = depthsOf lvl (parseOutlineItem it lvl p)) its ->
  forall i,
    map level (nodes (parsedFrom mk its lvl i))
    = flat_map (depthsOf lvl) (parsedFrom mk its lvl i).
Proof.
  induction 1 as [|x r Hx Hr IH]; intros i; [reflexivity|].
  unfold nodes. cbn [parsedFrom flat_map]. rewrite map_app, Hx.
  f_equal. apply IH.
Qed.

Lemma parsed_levels (item : OutlineItem) :
  forall lvl p,
    map level (nodesOf (parseOutlineItem item lvl p))
    = depthsOf lvl (parseOutlineItem item lvl p).
Proof.
  induction item as [item IH] using OutlineItem_tree_ind. intros lvl p.
  rewrite nodesOf_eq, depthsOf_eq, parseOutlineItem_eq.
  cbn [map level children]. f_equal. now apply parsedFrom_levels.
Qed.

Lemma levels_erase (c : PdfChapter) :
  map level (nodesOf (eraseEndPage c)) = map level (nodesOf c).
Proof.
  induction c as [c IH] using PdfChapter_tree_ind.
  rewrite eraseEndPage_eq, !nodesOf_eq. cbn [map level children]. f_equal.
  unfold nodes. induction IH as [|y l Hy Hl IHl]; [reflexivity|].
  cbn [map flat_map]. now rewrite !map_app, Hy, IHl.
Qed.

Lemma depthsOf_erase (c : PdfChapter) :
  forall d, depthsOf d (eraseEndPage c) = depthsOf d c.
Proof.
  induction c as [c IH] using PdfChapter_tree_ind. intros d.
  rewrite eraseEndPage_eq, !depthsOf_eq. cbn [children]. f_equal.
  induction IH as [|y l Hy Hl IHl]; [reflexivity|].
  cbn [map flat_map]. now rewrite Hy, IHl.
Qed.

Lemma levels_of_erased (t : list PdfChapter) :
  map level (nodes (map eraseEndPage t)) = map level (nodes t)
  /\ flat_map (depthsOf 0) (map eraseEndPage t) = flat_map (depthsOf 0) t.
Proof.
  unfold nodes. induction t as [|c r [IH1 IH2]]; [split; reflexivity|].
  cbn [map flat_map]. rewrite !map_app, levels_erase, depthsOf_erase, IH1, IH2.
  split; reflexivity.
Qed.

Lemma parsed_outline_levels (outline : list OutlineItem) (numPages : Z) :
  map level (nodes (calculateEndPages (parseOutline outline 0) numPages))
  = flat_map (depthsOf 0)
      (calculateEndPages (parseOutline outline 0) numPages).
Proof.
  rewrite <- (proj1 (levels_of_erased (calculateEndPages _ _))).
  rewrite <- (proj2 (levels_of_erased (calculateEndPages _ _))).
  rewrite calculateEndPages_erase.
  rewrite (proj1 (levels_of_erased _)), (proj2 (levels_of_erased _)).
  rewrite parseOutline_eq. apply parsedFrom_levels, Forall_forall.
  intros it _. apply parsed_levels.
Qed.

(** X8.  In the chapters extracted from a PDF the level of every chapter
    is its depth in the tree: 0 for the top-level chapters, one more than
    its parent's for every other. *)
Theorem extracted_pdf_level_is_depth
  (outline : option (list OutlineItem)) (numPages : Z)
  (chapters : list PdfChapter) :
  extractPdfChapters outline numPages = inr chapters ->
  map level (nodes chapters) = flat_map (depthsOf 0) chapters.
Proof.
  intros H. destruct outline as [[|item rest]|]; try discriminate.
  injection H as <-.
  exact (parsed_outline_levels (item :: rest) numPages).
Qed.

Lemma extracted_pdf_level_is_depth_witness :
  extractPdfChapters (Some Sample.nestedOutline) 9
    = inr (calculateEndPages (parseOutline Sample.nestedOutline 0) 9)
  /\ map level
       (nodes (calculateEndPages (parseOutline Sample.nestedOutline 0) 9))
     = [0; 1; 2].
Proof.
  assert (H : extractPdfChapters (Some Sample.nestedOutline) 9
              = inr (calculateEndPages (parseOutline Sample.nestedOutline 0) 9))
    by reflexivity.
  split; [exact H|].
  rewrite (extracted_pdf_level_is_depth _ _ _ H). reflexivity.
Defined.

End PdfMoreFacts.

(* ================================================================== *)
(** * The selection handlers of the chapter list *)
(* ================================================================== *)

Section ChapterListFacts.
Import App AppSpec ChapterList.

Lemma bool_eq_iff (a b : bool) : (a = true <-> b = true) -> a = b.
Proof. destruct a, b; intros [H1 H2]; auto; symmetry; auto. Qed.

Lemma delete_in (s : Js.StrSet) (x y : string) :
  In y (delete s x) <-> In y s /\ y <> x.
Proof.
  unfold delete. rewrite filter_In, negb_true_iff, String.eqb_neq. tauto.
Qed.

Lemma fold_delete_in (l : list string) :
  forall s y, In y (fold_left delete l s) <-> In y s /\ ~ In y l.
Proof.
  induction l as [|x r IH]; intros s y; cbn [fold_left].
  - cbn. tauto.
  - rewrite IH, delete_in. cbn. intuition auto.
Qed.

Lemma add_NoDup (s : Js.StrSet) (x : string) : NoDup s -> NoDup (Js.add s x).
Proof.
  intros H. unfold Js.add. destruct (Js.has s x) eqn:E; [exact H|].
  apply NoDup_app; [exact H | repeat constructor; intros [] |].
  intros a Ha [<-|[]]. apply has_true_iff in Ha. congruence.
Qed.

Lemma fold_add_NoDup (l : list string) :
  forall s, NoDup s -> NoDup (fold_left Js.add l s).
Proof.
  induction l as [|x r IH]; intros s H; [exact H|].
  cbn [fold_left]. apply IH, add_NoDup, H.
Qed.

Lemma fold_delete_NoDup (l : list string) :
  forall s, NoDup s -> NoDup (fold_left delete l s).
Proof.
  induction l as [|x r IH]; intros s H; [exact H|].
  cbn [fold_left]. apply IH. unfold delete. now apply NoDup_filter.
Qed.

Lemma getChapterAndChildrenIds_idsOf (c : Chapter) :
  getChapterAndChildrenIds c = idsOf c.
Proof.
  induction c as [c IH] using Chapter_tree_ind.
  destruct c as [i t s e ct l chs].
  cbn [getChapterAndChildrenIds idsOf id children] in *. f_equal.
Qed.

(** X9.  Clicking a chapter that is not selected selects it together
    with every chapter below it; clicking a selected chapter deselects
    it together with every chapter below it.  The other chapters keep
    their state, and a selection without repetition stays so. *)
Theorem handleToggleChapter_selects_or_clears_subtree
  (selectedChapters : Js.StrSet) (chapter : Chapter) :
  (forall i,
      Js.has (handleToggleChapter selectedChapters (id chapter) chapter) i
      = if Js.has selectedChapters (id chapter)
        then Js.has selectedChapters i && negb (Js.has (idsOf chapter) i)
        else Js.has selectedChapters i || Js.has (idsOf chapter) i)
  /\ (NoDup selectedChapters ->
      NoDup (handleToggleChapter selectedChapters (id chapter) chapter)).
Proof.
  unfold handleToggleChapter. rewrite getChapterAndChildrenIds_idsOf. split.
  - intros i. destruct (Js.has selectedChapters (id chapter)).
    + apply bool_eq_iff.
      rewrite andb_true_iff, negb_true_iff, !has_true_iff, fold_delete_in.
      rewrite <- not_true_iff_false, has_true_iff. tauto.
    + apply bool_eq_iff.
      rewrite orb_true_iff, !has_true_iff, fold_add_in. tauto.
  - intros H. destruct (Js.has selectedChapters (id chapter));
      [now apply fold_delete_NoDup | now apply fold_add_NoDup].
Qed.

Lemma newSet_NoDup (l : list string) : NoDup (newSet l).
Proof. unfold newSet. apply fold_add_NoDup. constructor. Qed.

(** X10.  For a tree with unique identifiers and a selection held
    without repetition among them, "select all" clears the selection
    when every chapter is selected, and otherwise selects every
    chapter. *)
Theorem handleSelectAll_toggles
  (chapters : list Chapter) (selectedChapters : Js.StrSet) :
  NoDup (getAllChapterIds chapters) ->
  NoDup selectedChapters ->
  incl selectedChapters (getAllChapterIds chapters) ->
  (incl (getAllChapterIds chapters) selectedChapters ->
   handleSelectAll chapters selectedChapters = [])
  /\ (~ incl (getAllChapterIds chapters) selectedChapters ->
      forall i,
        In i (handleSelectAll chapters selectedChapters)
        <-> In i (getAllChapterIds chapters)).
Proof.
  intros Hids Hsel Hincl. unfold handleSelectAll, size. split.
  - intros Hall.
    assert (E : List.length selectedChapters
                = List.length (getAllChapterIds chapters)).
    { apply Nat.le_antisymm; apply NoDup_incl_length; assumption. }
    now rewrite E, Nat.eqb_refl.
  - intros Hnot i.
    destruct (Nat.eqb_spec (List.length selectedChapters)
                (List.length (getAllChapterIds chapters))) as [E|E].
    + exfalso. apply Hnot.
      apply NoDup_length_incl; [exact Hsel | lia | exact Hincl].
    + apply newSet_in.
Qed.

Lemma handleSelectAll_toggles_witness :
  NoDup (getAllChapterIds (Sample.loaded Sample.outline 30))
  /\ NoDup ["chapter-1"]
  /\ incl ["chapter-1"] (getAllChapterIds (Sample.loaded Sample.outline 30))
  /\ (incl (getAllChapterIds (Sample.loaded Sample.outline 30)) ["chapter-1"] ->
      handleSelectAll (Sample.loaded Sample.outline 30) ["chapter-1"] = [])
  /\ (~ incl (getAllChapterIds (Sample.loaded Sample.outline 30))
          ["chapter-1"] ->
      forall i,
        In i (handleSelectAll (Sample.loaded Sample.outline 30) ["chapter-1"])
        <-> In i (getAllChapterIds (Sample.loaded Sample.outline 30))).
Proof.
  assert (H1 : NoDup (getAllChapterIds (Sample.loaded Sample.outline 30))).
  { vm_compute. repeat constructor; cbn; intuition discriminate. }
  assert (H2 : NoDup ["chapter-1"]) by (repeat constructor; intros []).
  assert (H3 : incl ["chapter-1"]
                 (getAllChapterIds (Sample.loaded Sample.outline 30))).
  { intros i [<-|[]]. vm_compute. tauto. }
  repeat (split; [assumption|]).
  exact (handleSelectAll_toggles (Sample.loaded Sample.outline 30)
           ["chapter-1"] H1 H2 H3).
Defined.

Lemma checkDescendants_iff (sel : Js.StrSet) (ch : Chapter) :
  checkDescendants sel ch = true
  <-> exists n, In n (nodesOf ch) /\ Js.has sel (id n) = true.
Proof.
  induction ch as [ch IH] using Chapter_tree_ind.
  rewrite app_nodesOf_eq.
  assert (E : checkDescendants sel ch
              = (Js.has sel (id ch)
                 || existsb (checkDescendants sel) (children ch))).
  { destruct ch as [i t s e ct l chs]. cbn [checkDescendants id children].
    destruct (Js.has sel i); [reflexivity|]. destruct chs; reflexivity. }
  rewrite E, orb_true_iff, existsb_exists. split.
  - intros [H|(x & Hx & Hc)].
    + exists ch. split; [now left | exact H].
    + rewrite Forall_forall in IH. apply (IH x Hx) in Hc.
      destruct Hc as (n & Hn & Hs). exists n. split; [|exact Hs].
      right. apply in_app_nodes. now exists x.
  - intros (n & [<-|Hn] & Hs); [now left|]. right.
    apply in_app_nodes in Hn. destruct Hn as (x & Hx & Hn).
    exists x. split; [exact Hx|].
    rewrite Forall_forall in IH. apply (IH x Hx). now exists n.
Qed.

(** X11.  The merge button of a chapter is shown exactly when some
    chapter below it is selected, that is, exactly when a merge flag on
    it makes the planner gather a task. *)
Theorem hasSelectedChildren_iff_selected_descendant
  (selectedChapters : Js.StrSet) (chapter : Chapter) :
  hasSelectedChildren selectedChapters chapter = true
  <-> selectedDescendants selectedChapters chapter <> [].
Proof.
  unfold hasSelectedChildren, selectedDescendants, selectedAmong.
  rewrite getAllDescendants_nodes.
  assert (E : (if hasChildren chapter
               then existsb (checkDescendants selectedChapters)
                      (children chapter)
               else false)
              = existsb (checkDescendants selectedChapters)
                  (children chapter)).
  { unfold hasChildren. destruct (children chapter); reflexivity. }
  rewrite E, existsb_exists. split.
  - intros (x & Hx & Hc). apply checkDescendants_iff in Hc.
    destruct Hc as (n & Hn & Hs). intros Hnil.
    assert (Hin : In n (filter (fun ch => Js.has selectedChapters (id ch))
                          (nodes (children chapter)))).
    { apply filter_In. split; [|exact Hs]. apply in_app_nodes. now exists x. }
    rewrite Hnil in Hin. destruct Hin.
  - intros Hne.
    destruct (filter (fun ch => Js.has selectedChapters (id ch))
                (nodes (children chapter))) as [|n r] eqn:Ef; [congruence|].
    assert (Hin : In n (n :: r)) by now left.
    rewrite <- Ef in Hin. apply filter_In in Hin. destruct Hin as [Hn Hs].
    apply in_app_nodes in Hn. destruct Hn as (x & Hx & Hn).
    exists x. split; [exact Hx|]. apply checkDescendants_iff. now exists n.
Qed.

End ChapterListFacts.

(* ================================================================== *)
(** * The titles above a chapter *)
(* ================================================================== *)

Section ParentTitlesFacts.
Import App AppSpec ParentTitles MoreSpec.

Lemma findAt_eq (c : Chapter) (targetId : string) (pts : list string) :
  findAt c targetId pts
  = if String.eqb (id c) targetId then Some pts
    else findParentTitles (children c) targetId (pts ++ [title c])%list.
Proof.
  destruct c as [i t s e ct l chs]. cbn [findAt id children title].
  destruct (String.eqb i targetId); [reflexivity|].
  induction chs as [|x r IH]; [reflexivity|].
  cbn [findParentTitles]. destruct (findAt x targetId (pts ++ [t])%list);
    [reflexivity | exact IH].
Qed.

Lemma app_idsOf_eq (c : Chapter) :
  idsOf c = id c :: getAllChapterIds (children c).
Proof. destruct c; reflexivity. Qed.

Lemma withTitlesOf_eq (c : Chapter) (pts : list string) :
  withTitlesOf c pts
  = (c, pts) :: withTitles (children c) (pts ++ [title c])%list.
Proof. destruct c; reflexivity. Qed.

Lemma NoDup_app_disjoint {A : Type} (a b : list A) (x : A) :
  NoDup (a ++ b) -> In x a -> In x b -> False.
Proof.
  induction a as [|y r IH]; intros Hnd Ha Hb; [destruct Ha|].
  cbn [app] in Hnd. inversion Hnd as [|? ? Hnotin Hnd']; subst.
  destruct Ha as [->|Ha]; [|now apply IH].
  apply Hnotin, in_or_app. now right.
Qed.

Lemma findParentTitles_none_aux (chs : list Chapter) :
  Forall (fun c => forall targetId pts,
            findAt c targetId pts = None <-> ~ In targetId (idsOf c)) chs ->
  forall targetId pts,
    findParentTitles chs targetId pts = None
    <-> ~ In targetId (getAllChapterIds chs).
Proof.
  induction 1 as [|c r Hc Hr IH]; intros targetId pts.
  - cbn. tauto.
  - cbn [findParentTitles]. unfold getAllChapterIds. cbn [flat_map].
    rewrite in_app_iff. fold (getAllChapterIds r).
    specialize (Hc targetId pts). specialize (IH targetId pts).
    destruct (findAt c targetId pts) as [res|].
    + split; [discriminate|]. intros Hn. exfalso.
      destruct (in_dec string_dec targetId (idsOf c)) as [Hin|Hout].
      * apply Hn. now left.
      * apply Hc in Hout. discriminate Hout.
    + assert (Hout : ~ In targetId (idsOf c)) by now apply Hc.
      rewrite IH. tauto.
Qed.

Lemma findAt_none (c : Chapter) :
  forall targetId pts,
    findAt c targetId pts = None <-> ~ In targetId (idsOf c).
Proof.
  induction c as [c IH] using Chapter_tree_ind. intros targetId pts.
  rewrite findAt_eq, app_idsOf_eq. cbn [In].
  destruct (String.eqb_spec (id c) targetId) as [E|E].
  - split; [discriminate|]. intros Hn. exfalso. apply Hn. now left.
  - rewrite (findParentTitles_none_aux _ IH). tauto.
Qed.

Lemma findParentTitles_none (chs : list Chapter) (targetId : string)
  (pts : list string) :
  findParentTitles chs targetId pts = None
  <-> ~ In targetId (getAllChapterIds chs).
Proof.
  apply findParentTitles_none_aux, Forall_forall. intros c _.
  apply findAt_none.
Qed.

Lemma withTitlesOf_ids (c : Chapter) :
  forall pts, map (fun x => id (fst x)) (withTitlesOf c pts) = idsOf c.
Proof.
  induction c as [c IH] using Chapter_tree_ind. intros pts.
  rewrite withTitlesOf_eq, app_idsOf_eq. cbn [map fst]. f_equal.
  unfold withTitles, getAllChapterIds.
  induction IH as [|y r Hy Hr IHr]; [reflexivity|].
  cbn [flat_map]. now rewrite map_app, Hy, IHr.
Qed.

Lemma withTitles_ids (chs : list Chapter) (pts : list string) :
  map (fun x => id (fst x)) (withTitles chs pts) = getAllChapterIds chs.
Proof.
  unfold withTitles, getAllChapterIds.
  induction chs as [|c r IH]; [reflexivity|].
  cbn [flat_map]. now rewrite map_app, withTitlesOf_ids, IH.
Qed.

Lemma findParentTitles_found_aux (chs : list Chapter) :
  Forall (fun c => forall pts n titles,
            NoDup (idsOf c) -> In (n, titles) (withTitlesOf c pts) ->
            findAt c (id n) pts = Some titles) chs ->
  forall pts n titles,
    NoDup (getAllChapterIds chs) -> In (n, titles) (withTitles chs pts) ->
    findParentTitles chs (id n) pts = Some titles.
Proof.
  induction 1 as [|c r Hc Hr IH]; intros pts n titles Hnd Hin;
    [destruct Hin|].
  unfold getAllChapterIds in Hnd. cbn [flat_map] in Hnd.
  fold (getAllChapterIds r) in Hnd.
  unfold withTitles in Hin. cbn [flat_map] in Hin.
  fold (withTitles r pts) in Hin. apply in_app_or in Hin.
  cbn [findParentTitles]. destruct Hin as [Hin|Hin].
  - rewrite (Hc pts n titles (NoDup_app_remove_r _ _ Hnd) Hin). reflexivity.
  - assert (Hid : In (id n) (getAllChapterIds r)).
    { rewrite <- (withTitles_ids r pts).
      exact (in_map (fun x => id (fst x)) _ _ Hin). }
    assert (Hout : findAt c (id n) pts = None).
    { apply findAt_none. intros Hc'.
      exact (NoDup_app_disjoint _ _ _ Hnd Hc' Hid). }
    rewrite Hout. apply IH; [exact (NoDup_app_remove_l _ _ Hnd) | exact Hin].
Qed.

Lemma findAt_found (c : Chapter) :
  forall pts n titles,
    NoDup (idsOf c) -> In (n, titles) (withTitlesOf c pts) ->
    findAt c (id n) pts = Some titles.
Proof.
  induction c as [c IH] using Chapter_tree_ind. intros pts n titles Hnd Hin.
  rewrite findAt_eq. rewrite withTitlesOf_eq in Hin.
  rewrite app_idsOf_eq in Hnd. inversion Hnd as [|? ? Hnotin Hnd']; subst.
  destruct Hin as [E|Hin].
  - injection E as <- <-. now rewrite String.eqb_refl.
  - assert (Hid : In (id n) (getAllChapterIds (children c))).
    { rewrite <- (withTitles_ids (children c) (pts ++ [title c])%list).
      exact (in_map (fun x => id (fst x)) _ _ Hin). }
    destruct (String.eqb_spec (id c) (id n)) as [E|E];
      [rewrite E in Hnotin; contradiction|].
    now apply (findParentTitles_found_aux _ IH).
Qed.

Lemma findParentTitles_found (chs : list Chapter) (pts : list string)
  (n : Chapter) (titles : list string) :
  NoDup (getAllChapterIds chs) -> In (n, titles) (withTitles chs pts) ->
  findParentTitles chs (id n) pts = Some titles.
Proof.
  apply findParentTitles_found_aux, Forall_forall. intros c _.
  apply findAt_found.
Qed.

(** X12.  [findParentTitles] answers [null] exactly for an identifier
    that no chapter of the tree has; in a tree with unique identifiers
    it answers, for every chapter, the given titles followed by the
    titles of the chapters above it, outermost first. *)
Theorem findParentTitles_finds_titles_above
  (chapters : list Chapter) (parentTitles : list string) :
  (forall targetId,
      findParentTitles chapters targetId parentTitles = None
      <-> ~ In targetId (getAllChapterIds chapters))
  /\ (NoDup (getAllChapterIds chapters) ->
      Forall (fun ct => findParentTitles chapters (id (fst ct)) parentTitles
                        = Some (snd ct))
        (withTitles chapters parentTitles)).
Proof.
  split.
  - intros targetId. apply findParentTitles_none.
  - intros Hnd. apply Forall_forall. intros [n titles] Hin.
    now apply findParentTitles_found.
Qed.

Lemma emitted_parentTitles (fileType : FileType) (sel merged : Js.StrSet)
  (c : Chapter) (pts : list string) (t : ExportTask) :
  In t (emitted fileType sel merged c pts) -> parentTitles t = pts.
Proof.
  unfold emitted, processChapter. cbn [snd].
  change (Js.has [] (id c)) with false. cbv iota.
  destruct (Js.has merged (id c) && hasChildren c).
  - unfold mergeBranch.
    destruct (0 <? List.length (selectedAmong sel (getAllDescendants c)))%nat;
      cbn [fst app]; [|intros []].
    intros [<-|[]]. reflexivity.
  - destruct (Js.has sel (id c)); [|intros []].
    unfold selectedBranch. destruct (hasChildren c);
      [|cbn [fst app]; intros [<-|[]]; reflexivity].
    match goal with
    | |- context [if ?b then (_, Js.add [] _) else _] => destruct b
    end; [|intros []].
    cbn [fst].
    destruct (isPdf fileType && truthyNum (startPage c)
              && truthyNum (endPage c));
      [cbn [app]; intros [<-|[]]; reflexivity|].
    destruct (isEpub fileType && Js.truthyStr (content c));
      [cbn [app]; intros [<-|[]]; reflexivity | intros []].
Qed.

Lemma traverse_titles_aux (fileType : FileType) (sel merged : Js.StrSet)
  (chs : list Chapter) :
  Forall (fun c => forall pts st t,
            In t (fst (traverseChapter fileType sel merged c pts st)) ->
            In t (fst st)
            \/ exists c' pts',
                 In (c', pts') (withTitlesOf c pts)
                 /\ In t (emitted fileType sel merged c' pts')) chs ->
  forall pts st t,
    In t (fst (traverseChapters fileType sel merged chs pts st)) ->
    In t (fst st)
    \/ exists c' pts',
         In (c', pts') (withTitles chs pts)
         /\ In t (emitted fileType sel merged c' pts').
Proof.
  induction 1 as [|c r Hc Hr IH]; intros pts st t Hin; [now left|].
  rewrite traverseChapters_cons in Hin.
  destruct (IH _ _ _ Hin) as [H|(c' & pts' & Hc' & Ht)].
  - destruct (Hc _ _ _ H) as [H'|(c' & pts' & Hc' & Ht)]; [now left|].
    right. exists c', pts'. split; [|exact Ht].
    unfold withTitles. cbn [flat_map]. apply in_or_app. now left.
  - right. exists c', pts'. split; [|exact Ht].
    unfold withTitles. cbn [flat_map]. apply in_or_app. now right.
Qed.

Lemma traverseChapter_titles (fileType : FileType) (sel merged : Js.StrSet)
  (c : Chapter) :
  forall pts st t,
    In t (fst (traverseChapter fileType sel merged c pts st)) ->
    In t (fst st)
    \/ exists c' pts',
         In (c', pts') (withTitlesOf c pts)
         /\ In t (emitted fileType sel merged c' pts').
Proof.
  induction c as [c IH] using Chapter_tree_ind. intros pts st t Hin.
  rewrite traverseChapter_eq in Hin.
  destruct (traverse_titles_aux _ _ _ _ IH _ _ _ Hin)
    as [H|(c' & pts' & Hc' & Ht)].
  - destruct st as [tasks processed]. rewrite processChapter_tasks in H.
    apply in_app_or in H. destruct H as [H|H]; [now left|].
    right. exists c, pts. split.
    + rewrite withTitlesOf_eq. now left.
    + destruct (Js.has processed (id c)); [destruct H | exact H].
  - right. exists c', pts'. split; [|exact Ht].
    rewrite withTitlesOf_eq. now right.
Qed.

Lemma separate_plan (fileType : FileType) (chapters : list Chapter)
  (sel merged : Js.StrSet) :
  onExport fileType chapters sel separate merged = []
  \/ onExport fileType chapters sel separate merged
     = fst (traverseChapters fileType
              (newSet (map id (findSelectedChapters sel chapters))) merged
              chapters [] ([], [])).
Proof.
  unfold onExport, handleExport.
  destruct (List.length (findSelectedChapters sel chapters) =? 0)%nat;
    [now left|].
  right. cbn [isMerge]. now rewrite andb_false_r.
Qed.

(** X13.  In a tree with unique identifiers, the parent titles that the
    planner records in a task are the ones [findParentTitles] finds for
    the chapter of the task. *)
Theorem planned_parent_titles_are_found
  (fileType : FileType) (chapters : list Chapter)
  (selectedChapters mergedChapters : Js.StrSet) :
  NoDup (getAllChapterIds chapters) ->
  Forall (fun task => findParentTitles chapters (chapterId task) []
                      = Some (parentTitles task))
    (onExport fileType chapters selectedChapters separate mergedChapters).
Proof.
  intros Hnd.
  destruct (separate_plan fileType chapters selectedChapters mergedChapters)
    as [-> | ->]; [constructor|].
  apply Forall_forall. intros t Ht.
  destruct (traverse_titles_aux fileType _ mergedChapters chapters
              ltac:(apply Forall_forall; intros c _;
                    apply traverseChapter_titles) _ _ _ Ht)
    as [[]|(c & pts & Hc & Hem)].
  rewrite (emitted_chapterId _ _ _ _ _ _ Hem).
  rewrite (emitted_parentTitles _ _ _ _ _ _ Hem).
  now apply findParentTitles_found.
Qed.

Lemma planned_parent_titles_are_found_witness :
  NoDup (getAllChapterIds (Sample.loaded Sample.outline 30))
  /\ Forall (fun task =>
               findParentTitles (Sample.loaded Sample.outline 30)
                 (chapterId task) []
               = Some (parentTitles task))
       (onExport pdf (Sample.loaded Sample.outline 30)
          ["chapter-0-1"; "chapter-1"] separate []).
Proof.
  assert (H : NoDup (getAllChapterIds (Sample.loaded Sample.outline 30))).
  { vm_compute. repeat constructor; cbn; intuition discriminate. }
  split; [exact H|].
  exact (planned_parent_titles_are_found pdf
           (Sample.loaded Sample.outline 30) ["chapter-0-1"; "chapter-1"] []
           H).
Defined.

End ParentTitlesFacts.

(* ================================================================== *)
(** * The order and the content of the planned tasks *)
(* ================================================================== *)

Section PlanShapeFacts.
Import App AppSpec MoreSpec.

Lemma Subseq_nil_l {A : Type} (m : list A) : Subseq [] m.
Proof. induction m; constructor; assumption. Qed.

Lemma Subseq_app {A : Type} (a b c d : list A) :
  Subseq a b -> Subseq c d -> Subseq (a ++ c) (b ++ d).
Proof.
  intros Hab Hcd. induction Hab; cbn [app];
    [exact Hcd | now constructor | now constructor].
Qed.

Lemma Subseq_In {A : Type} (l m : list A) (x : A) :
  Subseq l m -> In x l -> In x m.
Proof.
  induction 1 as [|l m y H IH|l m y H IH]; intros Hin.
  - exact Hin.
  - right. now apply IH.
  - destruct Hin as [->|Hin]; [now left | right; now apply IH].
Qed.

Lemma Subseq_NoDup {A : Type} (l m : list A) :
  Subseq l m -> NoDup m -> NoDup l.
Proof.
  induction 1 as [|l m y H IH|l m y H IH]; intros Hnd.
  - constructor.
  - inversion Hnd; subst. now apply IH.
  - inversion Hnd as [|? ? Hnotin Hnd']; subst. constructor; [|now apply IH].
    intros Hin. apply Hnotin. exact (Subseq_In _ _ _ H Hin).
Qed.

Lemma emitted_ids (fileType : FileType) (sel merged : Js.StrSet)
  (c : Chapter) (pts : list string) :
  Subseq (map chapterId (emitted fileType sel merged c pts)) [id c].
Proof.
  assert (Hn : Subseq (@nil string) [id c]) by apply Subseq_nil_l.
  assert (Hk : Subseq [id c] [id c]) by repeat constructor.
  unfold emitted, processChapter. cbn [snd].
  change (Js.has [] (id c)) with false. cbv iota.
  destruct (Js.has merged (id c) && hasChildren c).
  - unfold mergeBranch.
    destruct (0 <? List.length (selectedAmong sel (getAllDescendants c)))%nat;
      cbn [fst app map chapterId]; assumption.
  - destruct (Js.has sel (id c)); [|exact Hn].
    unfold selectedBranch. destruct (hasChildren c);
      [|cbn [fst app map chapterId]; exact Hk].
    match goal with
    | |- context [if ?b then (_, Js.add [] _) else _] => destruct b
    end; [|exact Hn].
    cbn [fst].
    destruct (isPdf fileType && truthyNum (startPage c)
              && truthyNum (endPage c));
      [cbn [app map chapterId]; exact Hk|].
    destruct (isEpub fileType && Js.truthyStr (content c));
      [cbn [app map chapterId]; exact Hk | exact Hn].
Qed.

Lemma traverse_order_aux (fileType : FileType) (sel merged : Js.StrSet)
  (chs : list Chapter) :
  Forall (fun c => forall pts st,
            exists l,
              fst (traverseChapter fileType sel merged c pts st)
              = (fst st ++ l)%list
              /\ Subseq (map chapterId l) (idsOf c)) chs ->
  forall pts st,
    exists l,
      fst (traverseChapters fileType sel merged chs pts st)
      = (fst st ++ l)%list
      /\ Subseq (map chapterId l) (getAllChapterIds chs).
Proof.
  induction 1 as [|c r Hc Hr IH]; intros pts st.
  - exists []. split; [cbn; now rewrite app_nil_r | constructor].
  - rewrite traverseChapters_cons.
    destruct (Hc pts st) as (l1 & E1 & S1).
    destruct (IH pts (traverseChapter fileType sel merged c pts st))
      as (l2 & E2 & S2).
    exists (l1 ++ l2)%list. split.
    + now rewrite E2, E1, app_assoc.
    + rewrite map_app. unfold getAllChapterIds. cbn [flat_map].
      now apply Subseq_app.
Qed.

Lemma traverseChapter_order (fileType : FileType) (sel merged : Js.StrSet)
  (c : Chapter) :
  forall pts st,
    exists l,
      fst (traverseChapter fileType sel merged c pts st) = (fst st ++ l)%list
      /\ Subseq (map chapterId l) (idsOf c).
Proof.
  induction c as [c IH] using Chapter_tree_ind. intros pts st.
  rewrite traverseChapter_eq.
  destruct (traverse_order_aux _ _ _ _ IH (pts ++ [title c])%list
              (processChapter fileType sel merged c pts st))
    as (l2 & E2 & S2).
  destruct st as [tasks processed].
  rewrite processChapter_tasks in E2. cbn [fst].
  exists ((if Js.has processed (id c) then []
           else emitted fileType sel merged c pts) ++ l2)%list.
  split; [now rewrite E2, app_assoc|].
  rewrite map_app.
  rewrite app_idsOf_eq.
  change (id c :: getAllChapterIds (children c))
    with ([id c] ++ getAllChapterIds (children c))%list.
  apply Subseq_app; [|exact S2].
  destruct (Js.has processed (id c)); [apply Subseq_nil_l | apply emitted_ids].
Qed.

(** X14.  Outside the single-file merge, the planned tasks follow the
    order of the chapter tree (a parent before its children) and no
    chapter gets more than one task: the task identifiers are the
    chapter identifiers of the tree with some left out. *)
Theorem planned_tasks_follow_the_tree
  (fileType : FileType) (chapters : list Chapter)
  (selectedChapters mergedChapters : Js.StrSet) :
  Subseq
    (map chapterId
       (onExport fileType chapters selectedChapters separate mergedChapters))
    (getAllChapterIds chapters)
  /\ (NoDup (getAllChapterIds chapters) ->
      NoDup
        (map chapterId
           (onExport fileType chapters selectedChapters separate
              mergedChapters))).
Proof.
  assert (H : Subseq
                (map chapterId
                   (onExport fileType chapters selectedChapters separate
                      mergedChapters))
                (getAllChapterIds chapters)).
  { unfold onExport, handleExport.
    destruct (List.length (findSelectedChapters selectedChapters chapters)
              =? 0)%nat; [apply Subseq_nil_l|].
    cbn [isMerge]. rewrite andb_false_r.
    destruct (traverse_order_aux fileType
                (newSet (map id (findSelectedChapters selectedChapters
                                   chapters)))
                mergedChapters chapters
                ltac:(apply Forall_forall; intros c _;
                      apply traverseChapter_order) [] ([], []))
      as (l & E & S).
    rewrite E. exact S. }
  split; [exact H|]. intros Hnd. exact (Subseq_NoDup _ _ H Hnd).
Qed.

(** The units of a task that [processChapter] adds for [c]: selected
    chapters below [c], or [c] itself when it is selected, or the
    synthetic chapter of [c]. *)
Lemma emitted_units (fileType : FileType) (sel merged : Js.StrSet)
  (c : Chapter) (pts : list string) (t : ExportTask) :
  In t (emitted fileType sel merged c pts) ->
  chapters t <> []
  /\ forall u, In u (chapters t) ->
       In u (selectedDescendants sel c)
       \/ (u = c /\ Js.has sel (id c) = true)
       \/ (id u = (id c ++ "_intro")%string /\ title u = title c
           /\ children u = []).
Proof.
  unfold emitted, processChapter. cbn [snd].
  change (Js.has [] (id c)) with false. cbv iota.
  destruct (Js.has merged (id c) && hasChildren c).
  - unfold mergeBranch.
    destruct (0 <? List.length (selectedAmong sel (getAllDescendants c)))%nat
      eqn:El; cbn [fst app]; [|intros []].
    intros [<-|[]]. cbn [chapters]. split.
    + intros Hnil. apply app_eq_nil in Hnil. destruct Hnil as [_ Hs].
      apply (f_equal (@List.length Chapter)) in Hs.
      rewrite sort_length in Hs. apply Nat.ltb_lt in El.
      cbn [List.length] in Hs. lia.
    + intros u Hin. apply in_app_or in Hin. destruct Hin as [Hin|Hin].
      * right. right.
        destruct (isPdf fileType && truthyNum (startPage c)
                  && truthyNum (endPage c)).
        -- destruct (ltNum (startOf c) _); [|destruct Hin].
           destruct Hin as [<-|[]]. now cbn.
        -- destruct (isEpub fileType && Js.truthyStr (content c));
             [|destruct Hin].
           destruct Hin as [<-|[]]. now cbn.
      * left. exact (proj1 (sort_in (byStartPage fileType) _ u) Hin).
  - destruct (Js.has sel (id c)) eqn:Es; [|intros []].
    unfold selectedBranch. destruct (hasChildren c).
    + match goal with
      | |- context [if ?b then (_, Js.add [] _) else _] => destruct b
      end; [|intros []].
      cbn [fst].
      destruct (isPdf fileType && truthyNum (startPage c)
                && truthyNum (endPage c)).
      * cbn [app]. intros [<-|[]]. cbn [chapters].
        split; [discriminate|]. intros u [<-|[]]. right. right. now cbn.
      * destruct (isEpub fileType && Js.truthyStr (content c));
          [|intros []].
        cbn [app]. intros [<-|[]]. cbn [chapters].
        split; [discriminate|]. intros u [<-|[]]. right. right. now cbn.
    + cbn [fst app]. intros [<-|[]]. cbn [chapters].
      split; [discriminate|]. intros u [<-|[]]. right. left. now split.
Qed.

(** X15.  Every planned task has at least one unit, and every unit is
    either a chapter of the tree that is selected or the synthetic
    chapter of a chapter of the tree (its identifier with [_intro]
    appended, the same title, no children): a chapter that is not
    selected is never exported as itself. *)
Theorem planned_units_are_selected_or_synthetic
  (fileType : FileType) (book : list Chapter)
  (selectedChapters : Js.StrSet) (mergeMode : MergeMode)
  (mergedChapters : Js.StrSet) :
  Forall
    (fun task =>
       chapters task <> []
       /\ Forall
            (fun u =>
               (In u (nodes book) /\ Js.has selectedChapters (id u) = true)
               \/ exists c,
                    In c (nodes book)
                    /\ id u = (id c ++ "_intro")%string
                    /\ title u = title c /\ children u = [])
            (chapters task))
    (onExport fileType book selectedChapters mergeMode mergedChapters).
Proof.
  unfold onExport, handleExport.
  destruct (List.length (findSelectedChapters selectedChapters book) =? 0)%nat
    eqn:El; [constructor|].
  apply Nat.eqb_neq in El.
  destruct ((List.length (findSelectedChapters selectedChapters book)
             =? List.length (getAllChapterIds book))%nat
            && isMerge mergeMode).
  - constructor; [|constructor]. cbn [chapters]. split.
    + intros Hnil. apply (f_equal (@List.length Chapter)) in Hnil.
      rewrite sort_length in Hnil. cbn [List.length] in Hnil. lia.
    + apply Forall_forall. intros u Hu. left.
      apply (proj1 (sort_in (byStartPage fileType) _ u)) in Hu.
      rewrite findSelectedChapters_filter in Hu.
      apply filter_In in Hu. exact Hu.
  - apply Forall_forall. intros t Ht.
    apply traverseChapters_tasks in Ht.
    destruct Ht as (c & pts & Hc & Hem).
    destruct (emitted_units _ _ _ _ _ _ Hem) as [Hne Hunits].
    split; [exact Hne|]. apply Forall_forall. intros u Hu.
    destruct (Hunits u Hu) as [Hd|[[-> Hs]|Hi]].
    + left. rewrite (selectedAmong_selected_ids _ _ _ Hc) in Hd.
      unfold selectedDescendants, selectedAmong in Hd.
      apply filter_In in Hd. destruct Hd as [Hd Hs].
      split; [exact (descendants_nodes book c u Hc Hd) | exact Hs].
    + left. split; [exact Hc|].
      now rewrite <- (has_selected_ids selectedChapters book c Hc).
    + right. exists c. now split.
Qed.

End PlanShapeFacts.

(* ================================================================== *)
(** * What the loading of EPUB content returns *)
(* ================================================================== *)

Section EpubLoadFacts.
Import Epub MoreSpec.
Variable zip : string -> option string.
Variable extractContentByAnchor : string -> string -> string.
Variable basePath : string.

Lemma get_set_same (m : Js.StrMap) (k v : string) :
  Js.get (Js.set m k v) k = Some v.
Proof.
  induction m as [|[k' v'] r IH]; cbn [Js.set Js.get].
  - now rewrite String.eqb_refl.
  - destruct (String.eqb k k') eqn:E; cbn [Js.get].
    + now rewrite String.eqb_refl.
    + now rewrite E.
Qed.

Lemma get_set_other (m : Js.StrMap) (k v p : string) :
  p <> k -> Js.get (Js.set m k v) p = Js.get m p.
Proof.
  intros Hp. apply String.eqb_neq in Hp.
  induction m as [|[k' v'] r IH]; cbn [Js.set Js.get].
  - now rewrite Hp.
  - destruct (String.eqb_spec k k') as [<-|E]; cbn [Js.get].
    + now rewrite Hp.
    + now rewrite IH.
Qed.

Lemma Consistent_set (m : Js.StrMap) (k v : string) :
  Consistent zip m -> zip k = Some v -> Consistent zip (Js.set m k v).
Proof.
  intros Hm Hk p w. destruct (string_dec p k) as [->|Hp].
  - rewrite get_set_same. now intros [= <-].
  - rewrite (get_set_other _ _ _ _ Hp). apply Hm.
Qed.

Lemma assignContent_served (r : nat) (leaf : EpubChapter) (st : LoadState) :
  Js.get (fileCache st) (chapterPathOf basePath leaf)
  = zip (chapterPathOf basePath leaf) ->
  assignContent extractContentByAnchor basePath (r, leaf) st
  = MkLoadState (fileCache st) (reads st)
      (match loadedContent zip extractContentByAnchor basePath leaf with
       | Some c => (r, c) :: contents st
       | None => contents st
       end).
Proof.
  intros H. unfold assignContent, loadedContent. rewrite H.
  destruct (zip (chapterPathOf basePath leaf)) as [full|];
    [|destruct st; reflexivity].
  destruct (Js.truthyStr (Some full)); [reflexivity | destruct st; reflexivity].
Qed.

Lemma Served_ext (P Q : nat * EpubChapter -> Prop) (st : LoadState) :
  (forall rc, P rc <-> Q rc) ->
  Served zip extractContentByAnchor basePath P st ->
  Served zip extractContentByAnchor basePath Q st.
Proof.
  intros E (Hc & H1 & H2). split; [exact Hc|]. split.
  - intros r c Hin. destruct (H1 r c Hin) as (leaf & Hp & Hl).
    exists leaf. split; [now apply E | exact Hl].
  - intros r leaf c Hq Hl. apply (H2 r leaf c); [now apply E | exact Hl].
Qed.

Lemma Served_step (P : nat * EpubChapter -> Prop) (st : LoadState)
  (cache : Js.StrMap) (r : nat) (leaf : EpubChapter) :
  Served zip extractContentByAnchor basePath P st ->
  Consistent zip cache ->
  Served zip extractContentByAnchor basePath
    (fun rc => P rc \/ rc = (r, leaf))
    (MkLoadState cache (reads st)
       (match loadedContent zip extractContentByAnchor basePath leaf with
        | Some c => (r, c) :: contents st
        | None => contents st
        end)).
Proof.
  intros (Hc & H1 & H2) Hcache. split; [exact Hcache|]. cbn [contents].
  split.
  - intros r' c Hin.
    destruct (loadedContent zip extractContentByAnchor basePath leaf)
      as [c0|] eqn:El.
    + destruct Hin as [[= <- <-]|Hin].
      * exists leaf. split; [now right | exact El].
      * destruct (H1 r' c Hin) as (leaf' & Hp & Hl).
        exists leaf'. split; [now left | exact Hl].
    + destruct (H1 r' c Hin) as (leaf' & Hp & Hl).
      exists leaf'. split; [now left | exact Hl].
  - intros r' leaf' c [Hp|[= -> ->]] Hl.
    + assert (Hin : In (r', c) (contents st)) by exact (H2 r' leaf' c Hp Hl).
      destruct (loadedContent zip extractContentByAnchor basePath leaf);
        [now right | exact Hin].
    + rewrite Hl. now left.
Qed.

Lemma not_awaited_lookup (cache0 : Js.StrMap) (leaf : EpubChapter) :
  Consistent zip cache0 ->
  awaitsRead zip cache0 basePath leaf = false ->
  Js.get cache0 (chapterPathOf basePath leaf)
  = zip (chapterPathOf basePath leaf).
Proof.
  intros Hc. unfold awaitsRead, Js.mhas.
  destruct (Js.get cache0 (chapterPathOf basePath leaf)) as [v|] eqn:Eg.
  - intros _. symmetry. now apply Hc.
  - cbn [negb andb].
    destruct (zip (chapterPathOf basePath leaf)); [discriminate | reflexivity].
Qed.

Lemma startCallbacks_served (cache0 : Js.StrMap)
  (batch : list (nat * EpubChapter)) :
  forall (P : nat * EpubChapter -> Prop) (st : LoadState),
    fileCache st = cache0 ->
    Served zip extractContentByAnchor basePath P st ->
    fileCache (fold_left
                 (startCallback zip extractContentByAnchor basePath cache0)
                 batch st) = cache0
    /\ Served zip extractContentByAnchor basePath
         (fun rc => P rc
                    \/ (In rc batch
                        /\ awaitsRead zip cache0 basePath (snd rc) = false))
         (fold_left
            (startCallback zip extractContentByAnchor basePath cache0)
            batch st).
Proof.
  induction batch as [|[r leaf] rest IH]; intros P st Hcache Hs;
    cbn [fold_left].
  - split; [exact Hcache|]. apply (Served_ext P); [|exact Hs].
    intros rc. cbn. tauto.
  - unfold startCallback at 2 4. cbn [snd].
    destruct (awaitsRead zip cache0 basePath leaf) eqn:Ea.
    + destruct (IH P (MkLoadState (fileCache st)
                        (reads st ++ [chapterPathOf basePath leaf])
                        (contents st)) Hcache Hs) as [Hc' Hs'].
      split; [exact Hc'|]. revert Hs'. apply Served_ext.
      intros rc. cbn [In]. split.
      * intros [H|[H Hf]]; [now left | right; split; [now right | exact Hf]].
      * intros [H|[[<-|H] Hf]]; [now left | | right; now split].
        cbn [snd] in Hf. congruence.
    + assert (Hget : Js.get (fileCache st) (chapterPathOf basePath leaf)
                     = zip (chapterPathOf basePath leaf)).
      { rewrite Hcache. apply not_awaited_lookup; [|exact Ea].
        rewrite <- Hcache. exact (proj1 Hs). }
      rewrite (assignContent_served r leaf st Hget).
      pose proof (Served_step P st (fileCache st) r leaf Hs (proj1 Hs))
        as Hstep.
      apply IH in Hstep; [|exact Hcache]. destruct Hstep as [Hc' Hs'].
      split; [exact Hc'|]. revert Hs'. apply Served_ext.
      intros rc. cbn [In]. split.
      * intros [[H| ->]|[H Hf]].
        -- now left.
        -- right. split; [now left | exact Ea].
        -- right. split; [now right | exact Hf].
      * intros [H|[[<-|H] Hf]].
        -- left. now left.
        -- left. now right.
        -- right. now split.
Qed.

Lemma resumeCallbacks_served (cache0 : Js.StrMap)
  (batch : list (nat * EpubChapter)) :
  forall (P : nat * EpubChapter -> Prop) (st : LoadState),
    Served zip extractContentByAnchor basePath P st ->
    Served zip extractContentByAnchor basePath
      (fun rc => P rc
                 \/ (In rc batch
                     /\ awaitsRead zip cache0 basePath (snd rc) = true))
      (fold_left
         (resumeCallback zip extractContentByAnchor basePath cache0)
         batch st).
Proof.
  induction batch as [|[r leaf] rest IH]; intros P st Hs; cbn [fold_left].
  - apply (Served_ext P); [|exact Hs]. intros rc. cbn. tauto.
  - unfold resumeCallback at 2. cbn [snd].
    destruct (awaitsRead zip cache0 basePath leaf) eqn:Ea.
    + assert (Hz : exists full,
                 zip (chapterPathOf basePath leaf) = Some full).
      { unfold awaitsRead in Ea. apply andb_true_iff in Ea.
        destruct Ea as [_ Ez].
        destruct (zip (chapterPathOf basePath leaf)) as [full|];
          [now exists full | discriminate]. }
      destruct Hz as (full & Hz). rewrite Hz.
      assert (Hcons : Consistent zip
                        (Js.set (fileCache st) (chapterPathOf basePath leaf)
                           full)).
      { apply Consistent_set; [exact (proj1 Hs) | exact Hz]. }
      rewrite (assignContent_served r leaf
                 (MkLoadState
                    (Js.set (fileCache st) (chapterPathOf basePath leaf) full)
                    (reads st) (contents st))
                 ltac:(cbn [fileCache]; rewrite get_set_same; now symmetry)).
      cbn [fileCache reads contents].
      generalize (IH _ _ (Served_step P st _ r leaf Hs Hcons)).
      apply Served_ext. intros rc. cbn [In]. split.
      * intros [[H| ->]|[H Ht]].
        -- now left.
        -- right. split; [now left | exact Ea].
        -- right. split; [now right | exact Ht].
      * intros [H|[[<-|H] Ht]].
        -- left. now left.
        -- left. now right.
        -- right. now split.
    + generalize (IH P st Hs). apply Served_ext.
      intros rc. cbn [In]. split.
      * intros [H|[H Ht]]; [now left | right; split; [now right | exact Ht]].
      * intros [H|[[<-|H] Ht]]; [now left | | right; now split].
        cbn [snd] in Ht. congruence.
Qed.

Lemma loadBatch_served (P : nat * EpubChapter -> Prop) (st : LoadState)
  (batch : list (nat * EpubChapter)) :
  Served zip extractContentByAnchor basePath P st ->
  Served zip extractContentByAnchor basePath (fun rc => P rc \/ In rc batch)
    (loadBatch zip extractContentByAnchor basePath st batch).
Proof.
  intros Hs. unfold loadBatch.
  destruct (startCallbacks_served (fileCache st) batch P st eq_refl Hs)
    as [_ Hs1].
  generalize (resumeCallbacks_served (fileCache st) batch _ _ Hs1).
  apply Served_ext. intros rc. split.
  - intros [[H|[H _]]|[H _]]; [now left | now right | now right].
  - intros [H|H]; [left; now left|].
    destruct (awaitsRead zip (fileCache st) basePath (snd rc)) eqn:Ea.
    + right. now split.
    + left. right. now split.
Qed.

Lemma loadBatches_served (batches : list (list (nat * EpubChapter))) :
  forall (P : nat * EpubChapter -> Prop) (st : LoadState),
    Served zip extractContentByAnchor basePath P st ->
    Served zip extractContentByAnchor basePath
      (fun rc => P rc \/ In rc (List.concat batches))
      (fold_left (loadBatch zip extractContentByAnchor basePath) batches st).
Proof.
  induction batches as [|b rest IH]; intros P st Hs; cbn [fold_left List.concat].
  - apply (Served_ext P); [|exact Hs]. intros rc. cbn. tauto.
  - generalize (IH _ _ (loadBatch_served P st b Hs)).
    apply Served_ext. intros rc. rewrite in_app_iff. tauto.
Qed.

Lemma concat_batchesOf {A : Type} (fuel : nat) :
  forall l : list A,
    (List.length l <= fuel)%nat -> List.concat (batchesOf fuel l) = l.
Proof.
  induction fuel as [|fuel IH]; intros l Hl.
  - destruct l; [reflexivity | cbn in Hl; lia].
  - destruct l as [|x r]; [reflexivity|].
    change (batchesOf (S fuel) (x :: r))
      with (firstn batchSize (x :: r)
            :: batchesOf fuel (skipn batchSize (x :: r))).
    cbn [List.concat]. rewrite IH; [apply firstn_skipn|].
    rewrite length_skipn. unfold batchSize. cbn [List.length] in *. lia.
Qed.

Lemma loadLeaves_served (leaves : list EpubChapter) :
  Served zip extractContentByAnchor basePath
    (fun rc => In rc (combine (seq 0 (List.length leaves)) leaves))
    (loadLeaves zip extractContentByAnchor basePath leaves).
Proof.
  unfold loadLeaves.
  assert (H0 : Served zip extractContentByAnchor basePath (fun _ => False)
                 (MkLoadState [] [] [])).
  { split; [intros p v; discriminate|]. split.
    - intros r c [].
    - intros r leaf c []. }
  generalize (loadBatches_served
                (batchesOf
                   (List.length (combine (seq 0 (List.length leaves)) leaves))
                   (combine (seq 0 (List.length leaves)) leaves))
                _ _ H0).
  rewrite concat_batchesOf by lia.
  apply Served_ext. intros rc. tauto.
Qed.

Lemma contentWritten_some (w : list (nat * string)) (r : nat) (c : string) :
  contentWritten w r = Some c -> In (r, c) w.
Proof.
  induction w as [|[r' c'] rest IH]; cbn [contentWritten]; [discriminate|].
  destruct (Nat.eqb_spec r r') as [->|E].
  - intros [= ->]. now left.
  - intros H. right. now apply IH.
Qed.

Lemma contentWritten_none (w : list (nat * string)) (r : nat) :
  contentWritten w r = None -> forall c, ~ In (r, c) w.
Proof.
  induction w as [|[r' c'] rest IH]; cbn [contentWritten]; [intros _ c []|].
  destruct (Nat.eqb_spec r r') as [->|E]; [discriminate|].
  intros H c [[= -> ->]|Hin]; [now apply E | exact (IH H c Hin)].
Qed.

Lemma in_combine_seq {A : Type} (l : list A) :
  forall k j (x : A),
    In (j, x) (combine (seq k (List.length l)) l)
    <-> (k <= j)%nat /\ nth_error l (j - k) = Some x.
Proof.
  induction l as [|y r IH]; intros k j x; cbn [List.length seq combine].
  - split; [intros [] | intros [_ H]].
    destruct (j - k)%nat; discriminate H.
  - cbn [In]. rewrite IH. split.
    + intros [[= <- <-]|[Hk Hn]].
      * split; [lia|]. now rewrite Nat.sub_diag.
      * split; [lia|]. replace (j - k)%nat with (S (j - S k)) by lia.
        exact Hn.
    + intros [Hk Hn]. destruct (j - k)%nat as [|m] eqn:Em.
      * left. cbn in Hn. injection Hn as <-. f_equal. lia.
      * right. split; [lia|]. cbn in Hn.
        replace (j - S k)%nat with m by lia. exact Hn.
Qed.

(** The content recorded for the leaf at a position is the content of
    its file. *)
Lemma loadLeaves_contents (leaves : list EpubChapter) (j : nat)
  (leaf : EpubChapter) :
  nth_error leaves j = Some leaf ->
  contentWritten
    (contents (loadLeaves zip extractContentByAnchor basePath leaves)) j
  = loadedContent zip extractContentByAnchor basePath leaf.
Proof.
  intros Hj. destruct (loadLeaves_served leaves) as (_ & H1 & H2).
  assert (Hin : In (j, leaf) (combine (seq 0 (List.length leaves)) leaves)).
  { apply in_combine_seq. split; [lia|]. now rewrite Nat.sub_0_r. }
  destruct (contentWritten _ j) as [c|] eqn:Ew.
  - apply contentWritten_some in Ew. destruct (H1 j c Ew) as (leaf' & Hl & El).
    apply in_combine_seq in Hl. destruct Hl as [_ Hl].
    rewrite Nat.sub_0_r, Hj in Hl. injection Hl as <-. now symmetry.
  - destruct (loadedContent zip extractContentByAnchor basePath leaf)
      as [c|] eqn:El; [|reflexivity].
    exfalso. exact (contentWritten_none _ _ Ew c (H2 j leaf c Hin El)).
Qed.

Lemma storeContents_inner (w : list (nat * string)) (l : list EpubChapter) :
  forall k,
    (fix go (l : list EpubChapter) (k : nat) : list EpubChapter * nat :=
       match l with
       | [] => ([], k)
       | x :: rest =>
           let '(x', k1) := storeContentOf w x k in
           let '(rest', k2) := go rest k1 in
           (x' :: rest', k2)
       end) l k = storeContents w l k.
Proof.
  induction l as [|x r IH]; intros k; [reflexivity|].
  cbn [storeContents]. destruct (storeContentOf w x k) as [x' k1].
  rewrite IH. reflexivity.
Qed.

Lemma storeContentOf_eq (w : list (nat * string)) (c : EpubChapter)
  (k : nat) :
  storeContentOf w c k =
  match children c with
  | [] =>
      (match contentWritten w k with
       | Some s => setContent c s
       | None => c
       end, S k)
  | chs =>
      let '(chs', k') := storeContents w chs k in (setChildren c chs', k')
  end.
Proof.
  destruct c as [i t h a ct l chs]. destruct chs as [|x r]; [reflexivity|].
  cbn [children]. rewrite <- storeContents_inner. reflexivity.
Qed.

Lemma epub_collectLeavesOf_eq (c : EpubChapter) :
  collectLeavesOf c =
  match children c with
  | [] => [c]
  | chs => collectLeaves chs
  end.
Proof. destruct c as [i t h a ct l chs]. destruct chs; reflexivity. Qed.

Lemma loadedTree_eq (c : EpubChapter) :
  loadedTree zip extractContentByAnchor basePath c =
  match children c with
  | [] => loadedLeaf zip extractContentByAnchor basePath c
  | chs =>
      setChildren c (map (loadedTree zip extractContentByAnchor basePath) chs)
  end.
Proof. destruct c as [i t h a ct l chs]. destruct chs; reflexivity. Qed.

Lemma EpubChapter_tree_ind (P : EpubChapter -> Prop) :
  (forall c, Forall P (children c) -> P c) -> forall c, P c.
Proof.
  intros step. fix IH 1. intros [i t h a ct l chs]. apply step. cbn [children].
  induction chs as [|x r IHr]; constructor; [apply IH | exact IHr].
Qed.

Lemma storeContents_loaded_aux (w : list (nat * string))
  (l : list EpubChapter) :
  Forall (fun c => forall k,
            (forall j leaf,
                nth_error (collectLeavesOf c) j = Some leaf ->
                contentWritten w (k + j)
                = loadedContent zip extractContentByAnchor basePath leaf) ->
            storeContentOf w c k
            = (loadedTree zip extractContentByAnchor basePath c,
               (k + List.length (collectLeavesOf c))%nat)) l ->
  forall k,
    (forall j leaf,
        nth_error (collectLeaves l) j = Some leaf ->
        contentWritten w (k + j)
        = loadedContent zip extractContentByAnchor basePath leaf) ->
    storeContents w l k
    = (map (loadedTree zip extractContentByAnchor basePath) l,
       (k + List.length (collectLeaves l))%nat).
Proof.
  induction 1 as [|c r Hc Hr IH]; intros k Hw.
  - cbn. now rewrite Nat.add_0_r.
  - cbn [storeContents map]. unfold collectLeaves in *. cbn [flat_map] in *.
    rewrite (Hc k).
    + rewrite (IH (k + List.length (collectLeavesOf c))%nat).
      * rewrite length_app, Nat.add_assoc. reflexivity.
      * intros j leaf Hj. rewrite <- Nat.add_assoc. apply Hw.
        rewrite nth_error_app2 by lia.
        now replace (List.length (collectLeavesOf c) + j
                     - List.length (collectLeavesOf c))%nat with j by lia.
    + intros j leaf Hj. apply Hw. rewrite nth_error_app1; [exact Hj|].
      apply nth_error_Some. congruence.
Qed.

Lemma storeContentOf_loaded (w : list (nat * string)) (c : EpubChapter) :
  forall k,
    (forall j leaf,
        nth_error (collectLeavesOf c) j = Some leaf ->
        contentWritten w (k + j)
        = loadedContent zip extractContentByAnchor basePath leaf) ->
    storeContentOf w c k
    = (loadedTree zip extractContentByAnchor basePath c,
       (k + List.length (collectLeavesOf c))%nat).
Proof.
  induction c as [c IH] using EpubChapter_tree_ind. intros k Hw.
  rewrite storeContentOf_eq, loadedTree_eq.
  rewrite epub_collectLeavesOf_eq in Hw |- *.
  destruct (children c) as [|x r] eqn:Ech.
  - unfold loadedLeaf. rewrite <- (Hw 0%nat c eq_refl), Nat.add_0_r.
    cbn [List.length]. now rewrite Nat.add_1_r.
  - rewrite (storeContents_loaded_aux w (x :: r) IH k Hw). reflexivity.
Qed.

End EpubLoadFacts.

Section EpubExtractionFacts.
Import Epub MoreSpec.
Variable zip : string -> option string.
Variable extractContentByAnchor : string -> string -> string.

Lemma extraction_result
  (domRootfile : string -> option (option string))
  (domNavHref domNcxHref : string -> option string)
  (domTocList : string -> option (list NavItem))
  (domNavMap : string -> option (list NavPoint)) :
  extractEpubChapters zip domRootfile domNavHref domNcxHref domTocList
    domNavMap extractContentByAnchor
  = match parseContainer zip domRootfile with
    | inl e => inl e
    | inr opfPath =>
        match parseContentOpf zip domNavHref domNcxHref opfPath with
        | inl e => inl e
        | inr (base, navHref, ncxHref) =>
            match navigationChapters zip domTocList domNavMap base navHref
                    ncxHref with
            | [] => inl noNavigationMessage
            | chapters =>
                inr (map (loadedTree zip extractContentByAnchor base) chapters)
            end
        end
    end.
Proof.
  unfold extractEpubChapters, extractEpubChaptersTraced.
  destruct (parseContainer zip domRootfile) as [e|opfPath]; [reflexivity|].
  destruct (parseContentOpf zip domNavHref domNcxHref opfPath)
    as [e|[[base navHref] ncxHref]]; [reflexivity|].
  destruct (navigationChapters zip domTocList domNavMap base navHref ncxHref)
    as [|x r]; [reflexivity|].
  f_equal.
  rewrite (storeContents_loaded_aux zip extractContentByAnchor base _
             (x :: r)
             ltac:(apply Forall_forall; intros c _;
                   apply storeContentOf_loaded) 0%nat).
  - reflexivity.
  - intros j leaf Hj. now apply loadLeaves_contents.
Qed.

(** X16.  Extraction of an EPUB fails with the error of the container,
    of the package document or of the missing table of contents, and
    otherwise returns the chapters of the table of contents with every
    leaf carrying the text of its file, cut to the anchor when the leaf
    has one, and no content when the archive has no entry at its path or
    the entry is empty; the chapters with children are returned as
    parsed.  The batches and the cache of the loading loop do not show
    in the result. *)
Theorem extractEpubChapters_loads_every_leaf
  (domRootfile : string -> option (option string))
  (domNavHref domNcxHref : string -> option string)
  (domTocList : string -> option (list NavItem))
  (domNavMap : string -> option (list NavPoint)) :
  extractEpubChapters zip domRootfile domNavHref domNcxHref domTocList
    domNavMap extractContentByAnchor
  = match parseContainer zip domRootfile with
    | inl e => inl e
    | inr opfPath =>
        match parseContentOpf zip domNavHref domNcxHref opfPath with
        | inl e => inl e
        | inr (base, navHref, ncxHref) =>
            match navigationChapters zip domTocList domNavMap base navHref
                    ncxHref with
            | [] => inl noNavigationMessage
            | chapters =>
                inr (map (loadedTree zip extractContentByAnchor base) chapters)
            end
        end
    end.
Proof.
  exact (extraction_result domRootfile domNavHref domNcxHref domTocList
           domNavMap).
Qed.

End EpubExtractionFacts.

(* ================================================================== *)
(** * The identifiers of the chapters of an EPUB *)
(* ================================================================== *)

Section EpubIdFacts.
Import Epub MoreSpec.

Lemma epubIdsOf_eq (c : EpubChapter) :
  epubIdsOf c = id c :: epubIds (children c).
Proof. destruct c; reflexivity. Qed.

Lemma navItems_ids_below (l : list NavItem) :
  Forall (fun it => forall p i lvl c s,
            parseNavItem it p i lvl = Some c -> In s (epubIdsOf c) ->
            Below (p ++ "-" ++ Js.string_of_nat i) s) l ->
  forall p i lvl s,
    In s (epubIds (parseNavItems l p i lvl)) ->
    exists k, (i <= k)%nat /\ Below (p ++ "-" ++ Js.string_of_nat k) s.
Proof.
  induction 1 as [|x r Hx Hr IH]; intros p i lvl s Hin; [destruct Hin|].
  cbn [parseNavItems] in Hin.
  destruct (parseNavItem x p i lvl) as [c|] eqn:E.
  - unfold epubIds in Hin. cbn [flat_map] in Hin.
    apply in_app_or in Hin. destruct Hin as [Hin|Hin].
    + exists i. split; [lia | exact (Hx _ _ _ _ _ E Hin)].
    + destruct (IH p (S i) lvl s Hin) as (k & Hk & Hb).
      exists k. split; [lia | exact Hb].
  - destruct (IH p (S i) lvl s Hin) as (k & Hk & Hb).
    exists k. split; [lia | exact Hb].
Qed.

Lemma navItem_ids_below (it : NavItem) :
  forall p i lvl c s,
    parseNavItem it p i lvl = Some c -> In s (epubIdsOf c) ->
    Below (p ++ "-" ++ Js.string_of_nat i) s.
Proof.
  induction it as [it IH] using NavItem_tree_ind. intros p i lvl c s E.
  destruct (parseNavItem_some _ _ _ _ _ E) as [Eid Ech].
  rewrite epubIdsOf_eq, Eid, Ech. intros [<-|Hin]; [now left|].
  destruct (subList it) as [sub|]; [|destruct Hin].
  destruct (navItems_ids_below sub (IH sub eq_refl) _ _ _ _ Hin)
    as (k & _ & Hb).
  right. exact (Below_child _ _ _ Hb).
Qed.

Lemma navItems_ids_NoDup (l : list NavItem) :
  Forall (fun it => forall p i lvl c,
            parseNavItem it p i lvl = Some c -> NoDup (epubIdsOf c)) l ->
  forall p i lvl, NoDup (epubIds (parseNavItems l p i lvl)).
Proof.
  induction 1 as [|x r Hx Hr IH]; intros p i lvl; [constructor|].
  cbn [parseNavItems].
  destruct (parseNavItem x p i lvl) as [c|] eqn:E; [|apply IH].
  unfold epubIds. cbn [flat_map].
  apply NoDup_app; [exact (Hx _ _ _ _ E) | apply IH|].
  intros s Hs Hs'. apply (navItem_ids_below _ _ _ _ _ _ E) in Hs.
  apply (navItems_ids_below r) in Hs'.
  2:{ apply Forall_forall. intros it _. apply navItem_ids_below. }
  destruct Hs' as (k & Hk & Hb).
  rewrite <- str_app_assoc in Hs, Hb.
  pose proof (string_of_nat_inj_below _ _ _ _ Hs Hb). lia.
Qed.

Lemma navItem_ids_NoDup (it : NavItem) :
  forall p i lvl c,
    parseNavItem it p i lvl = Some c -> NoDup (epubIdsOf c).
Proof.
  induction it as [it IH] using NavItem_tree_ind. intros p i lvl c E.
  destruct (parseNavItem_some _ _ _ _ _ E) as [Eid Ech].
  rewrite epubIdsOf_eq, Eid, Ech.
  destruct (subList it) as [sub|] eqn:Es;
    [|constructor; [intros [] | constructor]].
  constructor.
  - intros Hin.
    destruct (navItems_ids_below sub
                ltac:(apply Forall_forall; intros x _;
                      apply navItem_ids_below) _ _ _ _ Hin) as (k & _ & Hb).
    destruct (Below_child _ _ _ Hb) as (r & Er).
    symmetry in Er. exact (not_Below_self _ _ Er).
  - exact (navItems_ids_NoDup sub (IH sub eq_refl) _ _ _).
Qed.

Lemma navPoints_ids_below (l : list NavPoint) :
  Forall (fun np => forall p lvl c s,
            parseNavPoint np p lvl = Some c -> In s (epubIdsOf c) ->
            Below p s) l ->
  forall q i lvl s,
    In s (epubIds (parseNavPoints l q i lvl)) ->
    exists k, (i <= k)%nat /\ Below (q ++ Js.string_of_nat k) s.
Proof.
  induction 1 as [|x r Hx Hr IH]; intros q i lvl s Hin; [destruct Hin|].
  cbn [parseNavPoints] in Hin.
  destruct (parseNavPoint x (q ++ Js.string_of_nat i) lvl) as [c|] eqn:E.
  - unfold epubIds in Hin. cbn [flat_map] in Hin.
    apply in_app_or in Hin. destruct Hin as [Hin|Hin].
    + exists i. split; [lia | exact (Hx _ _ _ _ E Hin)].
    + destruct (IH q (S i) lvl s Hin) as (k & Hk & Hb).
      exists k. split; [lia | exact Hb].
  - destruct (IH q (S i) lvl s Hin) as (k & Hk & Hb).
    exists k. split; [lia | exact Hb].
Qed.

Lemma navPoint_ids_below (np : NavPoint) :
  forall p lvl c s,
    parseNavPoint np p lvl = Some c -> In s (epubIdsOf c) -> Below p s.
Proof.
  induction np as [np IH] using NavPoint_tree_ind. intros p lvl c s E.
  destruct (parseNavPoint_some _ _ _ _ E) as [Eid Ech].
  rewrite epubIdsOf_eq, Eid, Ech. intros [<-|Hin]; [now left|].
  destruct (navPoints_ids_below _ IH _ _ _ _ Hin) as (k & _ & Hb).
  rewrite str_app_assoc in Hb.
  right. exact (Below_child _ _ _ Hb).
Qed.

Lemma navPoints_ids_NoDup (l : list NavPoint) :
  Forall (fun np => forall p lvl c,
            parseNavPoint np p lvl = Some c -> NoDup (epubIdsOf c)) l ->
  forall q i lvl, NoDup (epubIds (parseNavPoints l q i lvl)).
Proof.
  induction 1 as [|x r Hx Hr IH]; intros q i lvl; [constructor|].
  cbn [parseNavPoints].
  destruct (parseNavPoint x (q ++ Js.string_of_nat i) lvl) as [c|] eqn:E;
    [|apply IH].
  unfold epubIds. cbn [flat_map].
  apply NoDup_app; [exact (Hx _ _ _ E) | apply IH|].
  intros s Hs Hs'. apply (navPoint_ids_below _ _ _ _ _ E) in Hs.
  apply (navPoints_ids_below r) in Hs'.
  2:{ apply Forall_forall. intros np _. apply navPoint_ids_below. }
  destruct Hs' as (k & Hk & Hb).
  pose proof (string_of_nat_inj_below _ _ _ _ Hs Hb). lia.
Qed.

Lemma navPoint_ids_NoDup (np : NavPoint) :
  forall p lvl c, parseNavPoint np p lvl = Some c -> NoDup (epubIdsOf c).
Proof.
  induction np as [np IH] using NavPoint_tree_ind. intros p lvl c E.
  destruct (parseNavPoint_some _ _ _ _ E) as [Eid Ech].
  rewrite epubIdsOf_eq, Eid, Ech. constructor.
  - intros Hin.
    destruct (navPoints_ids_below _
                ltac:(apply Forall_forall; intros x _;
                      apply navPoint_ids_below) _ _ _ _ Hin) as (k & _ & Hb).
    rewrite str_app_assoc in Hb.
    destruct (Below_child _ _ _ Hb) as (r & Er).
    symmetry in Er. exact (not_Below_self _ _ Er).
  - exact (navPoints_ids_NoDup _ IH _ _ _).
Qed.

Lemma navigationChapters_ids_NoDup (zip : string -> option string)
  (domTocList : string -> option (list NavItem))
  (domNavMap : string -> option (list NavPoint))
  (basePath : string) (navHref ncxHref : option string) :
  NoDup (epubIds (navigationChapters zip domTocList domNavMap basePath
                    navHref ncxHref)).
Proof.
  assert (Hnav : forall path, NoDup (epubIds (parseNav zip domTocList path))).
  { intros path. unfold parseNav. destruct (zip path) as [html|];
      [|constructor].
    destruct (domTocList html) as [l|]; [|constructor].
    apply navItems_ids_NoDup, Forall_forall. intros it _.
    apply navItem_ids_NoDup. }
  assert (Hncx : forall path, NoDup (epubIds (parseNcx zip domNavMap path))).
  { intros path. unfold parseNcx. destruct (zip path) as [xml|];
      [|constructor].
    destruct (domNavMap xml) as [l|]; [|constructor].
    apply navPoints_ids_NoDup, Forall_forall. intros np _.
    apply navPoint_ids_NoDup. }
  unfold navigationChapters.
  destruct navHref as [h|].
  - pose proof (Hnav (resolvePath basePath h)) as H.
    destruct (parseNav zip domTocList (resolvePath basePath h)) as [|x r];
      [|exact H].
    destruct ncxHref as [n|]; [apply Hncx | constructor].
  - destruct ncxHref as [n|]; [apply Hncx | constructor].
Qed.

Lemma epubIdsOf_loadedTree (zip : string -> option string)
  (extractContentByAnchor : string -> string -> string) (basePath : string)
  (c : EpubChapter) :
  epubIdsOf (loadedTree zip extractContentByAnchor basePath c) = epubIdsOf c.
Proof.
  induction c as [c IH] using EpubChapter_tree_ind.
  rewrite loadedTree_eq, (epubIdsOf_eq c).
  destruct (children c) as [|x r] eqn:Ech.
  - unfold loadedLeaf.
    destruct (loadedContent zip extractContentByAnchor basePath c);
      rewrite epubIdsOf_eq; cbn [setContent id children]; now rewrite Ech.
  - rewrite epubIdsOf_eq. cbn [setChildren id children]. f_equal.
    clear Ech. revert IH. generalize (x :: r). intros l IH.
    unfold epubIds. induction IH as [|y l Hy Hl IHl]; [reflexivity|].
    cbn [map flat_map]. now rewrite Hy, IHl.
Qed.

Lemma epubIds_loadedTree (zip : string -> option string)
  (extractContentByAnchor : string -> string -> string) (basePath : string)
  (t : list EpubChapter) :
  epubIds (map (loadedTree zip extractContentByAnchor basePath) t)
  = epubIds t.
Proof.
  unfold epubIds. induction t as [|c r IH]; [reflexivity|].
  cbn [map flat_map]. now rewrite epubIdsOf_loadedTree, IH.
Qed.

Lemma idsOf_ofEpub (c : EpubChapter) :
  App.idsOf (App.ofEpub c) = epubIdsOf c.
Proof.
  induction c as [c IH] using EpubChapter_tree_ind.
  destruct c as [i t h a ct l chs].
  cbn [App.ofEpub App.idsOf App.id App.children epubIdsOf id children] in *.
  f_equal. induction IH as [|y r Hy Hr IHr]; [reflexivity|].
  cbn [map flat_map]. now rewrite Hy, IHr.
Qed.

Lemma getAllChapterIds_ofEpub (t : list EpubChapter) :
  App.getAllChapterIds (map App.ofEpub t) = epubIds t.
Proof.
  unfold App.getAllChapterIds, epubIds.
  induction t as [|c r IH]; [reflexivity|].
  cbn [map flat_map]. now rewrite idsOf_ofEpub, IH.
Qed.

(** X17.  The chapters extracted from an EPUB, from the navigation
    document or from the NCX, have pairwise different identifiers (an
    entry that is skipped still uses up its number), and the planner
    sees these same identifiers. *)
Theorem extracted_epub_ids_are_unique
  (zip : string -> option string)
  (domRootfile : string -> option (option string))
  (domNavHref domNcxHref : string -> option string)
  (domTocList : string -> option (list NavItem))
  (domNavMap : string -> option (list NavPoint))
  (extractContentByAnchor : string -> string -> string)
  (chapters : list EpubChapter) :
  extractEpubChapters zip domRootfile domNavHref domNcxHref domTocList
    domNavMap extractContentByAnchor = inr chapters ->
  NoDup (epubIds chapters)
  /\ App.getAllChapterIds (map App.ofEpub chapters) = epubIds chapters.
Proof.
  intros H. split; [|apply getAllChapterIds_ofEpub].
  rewrite extraction_result in H.
  destruct (parseContainer zip domRootfile) as [e|opfPath]; [discriminate|].
  destruct (parseContentOpf zip domNavHref domNcxHref opfPath)
    as [e|[[base navHref] ncxHref]]; [discriminate|].
  pose proof (navigationChapters_ids_NoDup zip domTocList domNavMap base
                navHref ncxHref) as Hnd.
  destruct (navigationChapters zip domTocList domNavMap base navHref ncxHref)
    as [|x r]; [discriminate|].
  injection H as <-.
  rewrite <- (epubIds_loadedTree zip extractContentByAnchor base) in Hnd.
  exact Hnd.
Qed.

Lemma extracted_epub_ids_are_unique_witness :
  exists chapters,
    extractEpubChapters Sample.epubZip Sample.epubRootfile
      Sample.epubNavHref Sample.epubNcxHref Sample.epubTocList
      Sample.epubNavMap (fun html _ => html) = inr chapters
    /\ NoDup (epubIds chapters)
    /\ epubIds chapters = ["chapter-0"; "chapter-1"].
Proof.
  eexists. split; [reflexivity|]. split; [|reflexivity].
  exact (proj1 (extracted_epub_ids_are_unique Sample.epubZip
                  Sample.epubRootfile Sample.epubNavHref Sample.epubNcxHref
                  Sample.epubTocList Sample.epubNavMap (fun html _ => html)
                  _ eq_refl)).
Defined.

(** ** The base path *)

Lemma lastIndexOf_absent (s : string) (c : ascii) :
  Js.includes s c = false -> Js.lastIndexOf s c = -1.
Proof.
  induction s as [|x r IH]; [reflexivity|].
  rewrite includes_cons. intros H. apply orb_false_iff in H as [Hx Hr].
  cbn [Js.lastIndexOf]. rewrite (IH Hr), Ascii.eqb_sym, Hx. reflexivity.
Qed.

Lemma lastIndexOf_last (dir file : string) (c : ascii) :
  Js.includes file c = false ->
  Js.lastIndexOf (dir ++ String c file) c = Z.of_nat (String.length dir).
Proof.
  intros Hf. induction dir as [|x d IH].
  - cbn [append Js.lastIndexOf String.length].
    rewrite (lastIndexOf_absent _ _ Hf), Ascii.eqb_refl. reflexivity.
  - cbn [append Js.lastIndexOf String.length]. rewrite IH.
    destruct (Z.leb_spec 0 (Z.of_nat (String.length d))); lia.
Qed.

Lemma substring_prefix (a b : string) :
  String.substring 0 (String.length a) (a ++ b) = a.
Proof.
  induction a as [|x a IH]; cbn [append String.length String.substring].
  - destruct b; reflexivity.
  - now rewrite IH.
Qed.

(** X18.  The base path that [parseContentOpf] returns is the directory
    of the package document: the path up to its last slash, and the
    empty path when the package document is at the root of the archive;
    a chapter path is then the target itself. *)
Theorem parseContentOpf_basePath_is_directory
  (zip : string -> option string)
  (domNavHref domNcxHref : string -> option string) :
  (forall dir file opfXml,
      Js.includes file "/" = false ->
      zip (dir ++ "/" ++ file) = Some opfXml ->
      parseContentOpf zip domNavHref domNcxHref (dir ++ "/" ++ file)
      = inr (dir, orUndefined (domNavHref opfXml),
             orUndefined (domNcxHref opfXml)))
  /\ (forall opfPath opfXml,
        Js.includes opfPath "/" = false ->
        zip opfPath = Some opfXml ->
        parseContentOpf zip domNavHref domNcxHref opfPath
        = inr ("", orUndefined (domNavHref opfXml),
               orUndefined (domNcxHref opfXml))
        /\ forall chapter,
             chapterPathOf "" chapter = href chapter).
Proof.
  split.
  - intros dir file opfXml Hf Hz. unfold parseContentOpf. rewrite Hz.
    change (dir ++ "/" ++ file) with (dir ++ String "/" file).
    rewrite (lastIndexOf_last _ _ _ Hf). unfold Js.substring0.
    now rewrite Nat2Z.id, substring_prefix.
  - intros opfPath opfXml Hf Hz. split; [|reflexivity].
    unfold parseContentOpf. rewrite Hz, (lastIndexOf_absent _ _ Hf).
    unfold Js.substring0. cbn [Z.to_nat].
    destruct opfPath; reflexivity.
Qed.

End EpubIdFacts.

(* ================================================================== *)
(** * The merge flags *)
(* ================================================================== *)

Section MergeFlagFacts.
Import App ChapterList.

(** X19.  Clicking the merge button of a chapter flips the merge flag
    of that chapter and of no other, so a second click restores the
    flags. *)
Theorem handleToggleMerge_flips_one_flag
  (mergedChapters : Js.StrSet) (chapterId : string) :
  (forall i,
      Js.has (handleToggleMerge mergedChapters chapterId) i
      = if String.eqb i chapterId
        then negb (Js.has mergedChapters chapterId)
        else Js.has mergedChapters i)
  /\ (forall i,
        Js.has (handleToggleMerge
                  (handleToggleMerge mergedChapters chapterId) chapterId) i
        = Js.has mergedChapters i).
Proof.
  assert (H : forall m k i,
             Js.has (handleToggleMerge m k) i
             = if String.eqb i k then negb (Js.has m k) else Js.has m i).
  { intros m k i. unfold handleToggleMerge.
    destruct (Js.has m k) eqn:Ek; apply bool_eq_iff;
      rewrite has_true_iff.
    - rewrite delete_in, <- has_true_iff.
      destruct (String.eqb_spec i k) as [->|E]; cbn [negb].
      + split; [intros [_ Hn]; now elim Hn | discriminate].
      + tauto.
    - rewrite add_in, <- has_true_iff.
      destruct (String.eqb_spec i k) as [->|E]; cbn [negb].
      + tauto.
      + tauto. }
  split; [apply H|]. intros i. rewrite !H.
  rewrite String.eqb_refl.
  destruct (String.eqb_spec i chapterId) as [->|E]; [|reflexivity].
  now rewrite negb_involutive.
Qed.

End MergeFlagFacts.
